(** * gobalancer: a shallow embedding of the forwarding engine

    The Go sources are embedded module by module, one Rocq [Module] per Go
    package or file:

    - [Errors]      the [error] values the program builds ([errors.New],
                    [fmt.Errorf] with [%w], [errors.Join], [errors.Is]);
    - [Health]      [forwarder/health]: the TCP checker;
    - [Forwarder]   [forwarder/forwarder.go]: the splice step [fwd];
    - [Policy]      [srv/policy.go]: the attribute based policy;
    - [Srv]         [srv/srv.go]: subject extraction and [handleConn];
    - [RateLimit]   [forwarder/ratelimit.go]: the per-client rate limiter;
    - [Ctx]         the cancellation contexts of package [context];
    - [Tracker]     [forwarder/upstream/tracker.go];
    - [Manager]     [forwarder/upstream/manager.go] and [upstream.go].

    Every Go function that runs under a mutex is one atomic state
    transformer here; logging has no effect on the state and is left out. *)

From Stdlib Require Import ZArith QArith Lia Lqa.
From stdpp Require Import base option list gmap sets strings pretty.

Local Open Scope Z_scope.

(** A Go call either returns or panics. *)
Inductive outcome (A : Type) : Type :=
  | Ret (a : A)
  | Panic (msg : string).
Arguments Ret {A} a.
Arguments Panic {A} msg.

(* ===================================================================== *)
(** * Errors *)
(* ===================================================================== *)
Module Errors.

(** A non-nil Go [error].  The Go value [nil] is [None] of [option error].
    A sentinel made by [errors.New] is identified by its message: all
    sentinels of the program and of package [context] have different
    messages. *)
#[warnings="-register-all"]
Inductive error : Type :=
  | New (msg : string)
  | Wrap (msg : string) (inner : error)
  | Joined (errs : list error).

(** [fmt.Errorf(msg + ": %w", inner)] *)
Definition Errorf_w (msg : string) (inner : error) : error := Wrap msg inner.

(** [errors.Join]: nil arguments are dropped; nil when nothing is left. *)
Definition Join (errs : list (option error)) : option error :=
  match omap id errs with
  | [] => None
  | es => Some (Joined es)
  end.

(** [errors.Is(err, target)] for a sentinel [target] given by its message:
    the chain of [Unwrap] is followed, through every branch of a join. *)
Fixpoint Is_sentinel (err : error) (target : string) : bool :=
  match err with
  | New s => bool_decide (s = target)
  | Wrap _ inner => Is_sentinel inner target
  | Joined es =>
      (fix any (l : list error) : bool :=
         match l with
         | [] => false
         | e :: l' => Is_sentinel e target || any l'
         end) es
  end.

Definition Is (err : option error) (target : string) : bool :=
  match err with
  | None => false
  | Some e => Is_sentinel e target
  end.

(** The sentinels of package [context]. *)
Definition Canceled_msg : string := "context canceled".
Definition DeadlineExceeded_msg : string := "context deadline exceeded".
Definition context_Canceled : error := New Canceled_msg.
Definition context_DeadlineExceeded : error := New DeadlineExceeded_msg.

End Errors.

(* ===================================================================== *)
(** * Package health *)
(* ===================================================================== *)
Module Health.
Import Errors.

Inductive Status : Type := INIT | SUCCESS | FAILED.

Definition Status_eqb (a b : Status) : bool :=
  match a, b with
  | INIT, INIT | SUCCESS, SUCCESS | FAILED, FAILED => true
  | _, _ => false
  end.

(** [TCP]: the dialer and the logger carry no state of their own. *)
Record TCP : Type := mkTCP { Addr : string; status : Status }.

(** What [net.Dialer.DialContext] can answer.  When the context it was
    given ends first, package [net] reports the context's own error
    ([ctx.Err()], through [mapErr]) inside an [*net.OpError]; that error
    matches the same sentinel under [errors.Is].  A dial that runs into
    the deadline can also end with the i/o timeout of the poller, which
    matches neither sentinel: that answer is a [DialFailed]. *)
Inductive dialResult : Type :=
  | Connected
  | CtxCanceled
  | CtxTimedOut
  | DialFailed (e : error).

Definition dial_error (r : dialResult) : option error :=
  match r with
  | Connected => None
  | CtxCanceled => Some (Wrap "dial tcp" context_Canceled)
  | CtxTimedOut => Some (Wrap "dial tcp" context_DeadlineExceeded)
  | DialFailed e => Some e
  end.

Record checkResult : Type :=
  mkCheck { stat : Status; changed : bool; err : option error }.

(** [func (h *TCP) Check(ctx) (stat Status, changed bool, err error)].
    [dial] is the answer of [h.d.DialContext(ctx, "tcp", h.Addr)]. *)
Definition Check (h : TCP) (dial : dialResult) : checkResult * TCP :=
  let stat0 := SUCCESS in
  let changed0 := true in
  let err0 := dial_error dial in
  let stat1 := match err0 with Some _ => FAILED | None => stat0 end in
  let err1 := if Is err0 Canceled_msg then None else err0 in
  let changed1 := if Status_eqb (status h) stat1 then false else changed0 in
  (mkCheck stat1 changed1 err1, mkTCP (Addr h) stat1).

End Health.

(* ===================================================================== *)
(** * Package forwarder: the splice step *)
(* ===================================================================== *)
Module Forwarder.
Import Errors.

(** [func (l *LeastConnections) fwd(ctx, in, backend) error].

    [dial] is the error of [l.d.DialContext]; [first] and [second] are the
    values the two copy goroutines send on [errc], in the order in which
    [fwd] receives them.  The value of [errors.Join(err, <-errc)] is
    computed and dropped, as in the source. *)
Definition fwd (dial first second : option error) : option error :=
  match dial with
  | Some e => Some e
  | None =>
      let err := first in
      let _ := Join [err; second] in
      match err with
      | Some e => Some (Errorf_w "failed to forward connection" e)
      | None => None
      end
  end.

(** What the splice step would return if it kept the join. *)
Definition joined_copy_errors (first second : option error) : option error :=
  Join [first; second].

End Forwarder.

(* ===================================================================== *)
(** * Package srv: the policy *)
(* ===================================================================== *)
Module Config.

Record Upstream : Type :=
  mkUpstream { Name : string; Tags : list string; Backends : list string }.
End Config.

Module Policy.
Import Errors.

Record policyEnforcer : Type :=
  mkPolicy { upstreamTags : gmap string (list string) }.

Record policyQuery : Type :=
  mkQuery { user : string; ou : string; upstream : string }.

(** [newPolicyEnforcerFromConfig]: a later upstream of the same name
    overwrites an earlier one. *)
Definition newPolicyEnforcerFromConfig (ups : list Config.Upstream)
  : policyEnforcer :=
  mkPolicy
    (fold_left (fun m v => <[Config.Name v := Config.Tags v]> m) ups ∅).

(** The [for _, t := range tags] loop of [query]. *)
Fixpoint find_tag (tags : list string) (ou : string) : bool :=
  match tags with
  | [] => false
  | t :: tags' => if decide (t = ou) then true else find_tag tags' ou
  end.

(** [func (p *policyEnforcer) query(q policyQuery) (bool, error)] *)
Definition query (p : policyEnforcer) (q : policyQuery)
  : bool * option error :=
  match upstreamTags p !! upstream q with
  | None => (false, Some (New "upstream wasn't found in config"))
  | Some tags =>
      if find_tag tags (ou q) then (true, None) else (false, None)
  end.

(** The configuration of the server tests. *)
Definition test_policy : policyEnforcer :=
  newPolicyEnforcerFromConfig
    [Config.mkUpstream "web" ["sre"; "webdev"] [];
     Config.mkUpstream "db" ["sre"; "dba"] [];
     Config.mkUpstream "telemetry" ["sre"; "webdev"] []].

End Policy.

(* ===================================================================== *)
(** * Package srv: subject extraction and the connection handler *)
(* ===================================================================== *)
Module Srv.
Import Errors Policy.

(** [pkix.Name], the two attributes the server reads. *)
Record pkixName : Type :=
  mkName { CommonName : string; OrganizationalUnit : list string }.

Record Certificate : Type := mkCert { Subject : pkixName }.

(** A [*tls.Conn]: the error of its handshake and, once the handshake is
    done, the peer's certificate chain. *)
Record tlsConn : Type :=
  mkTLS { handshake : option error; PeerCertificates : list Certificate }.

(** A [net.Conn] handed to [handleConn]. *)
Inductive netConn : Type :=
  | PlainConn
  | TLSConn (c : tlsConn).

Record FwdInfo : Type :=
  mkFwdInfo { FUpstream : string; Conn : netConn; RateLimiterKey : string }.

Record DownstreamListener : Type :=
  mkDownstream { Upstream : string; policy : policyEnforcer }.

(** [func extractCertSubjFromConn(conn *tls.Conn) (string, string, error)].
    [PeerCertificates[0]] panics on an empty chain. *)
Definition extractCertSubjFromConn (conn : tlsConn)
  : outcome (string * string * option error) :=
  match PeerCertificates conn with
  | [] => Panic "index out of range [0] with length 0"
  | cert :: _ =>
      match OrganizationalUnit (Subject cert) with
      | [] =>
          Ret (""%string, ""%string,
               Some (New "user certificate has no OU set"))
      | ou0 :: _ =>
          let user := CommonName (Subject cert) in
          let ou := ou0 in
          Ret (user, ou, None)
      end
  end.

(** [func (d *DownstreamListener) verifyTLS(ctx, conn) (string, error)] *)
Definition verifyTLS (d : DownstreamListener) (conn : tlsConn)
  : outcome (string * option error) :=
  match handshake conn with
  | Some e => Ret (""%string, Some e)
  | None =>
      match extractCertSubjFromConn conn with
      | Panic m => Panic m
      | Ret (_, _, Some e) => Ret (""%string, Some e)
      | Ret (user, ou, None) =>
          match query (policy d) (mkQuery user ou (Upstream d)) with
          | (_, Some e) => Ret (""%string, Some e)
          | (false, None) =>
              Ret (""%string,
                   Some (New "user is not authorized to access resource"))
          | (true, None) => Ret (user, None)
          end
      end
  end.

(** How [handleConn] ends: it returns an error of its own, or it calls
    [d.fwdr.Forward(ctx, info)] and returns what that call returns. *)
Inductive handled : Type :=
  | Dropped (e : error)
  | Forwarded (info : FwdInfo).

(** [func (d *DownstreamListener) handleConn(ctx, conn) error] *)
Definition handleConn (d : DownstreamListener) (conn : netConn)
  : outcome handled :=
  match conn with
  | PlainConn =>
      Ret (Dropped (New
        "did not receive a TLS connection refusing to serve connection"))
  | TLSConn tlsC =>
      match verifyTLS d tlsC with
      | Panic m => Panic m
      | Ret (_, Some e) => Ret (Dropped e)
      | Ret (user, None) => Ret (Forwarded (mkFwdInfo (Upstream d) conn user))
      end
  end.

(** A listener of the server tests, and the connection of a client whose
    certificate has the OU [sre] and no CommonName. *)
Definition web : DownstreamListener := mkDownstream "web" test_policy.
Definition no_CN : tlsConn := mkTLS None [mkCert (mkName "" ["sre"])].

End Srv.

(* ===================================================================== *)
(** * Package forwarder: the per-client rate limiter *)
(* ===================================================================== *)
Module Rate.

(** [rate.Limit]: [Inf] is [rate.Inf] (the value [math.MaxFloat64]); every
    other refill, in tokens per second, is a rational here. *)
Inductive Limit : Type :=
  | Inf
  | PerSecond (r : Q).

(** Modelled from the spec: [rate.Limiter] belongs to the external module
    golang.org/x/time/rate, which is not part of the repository.  The
    bucket follows section 4.G: capacity [burst], a continuous refill of
    [limit] tokens per second, one token taken by a successful [Allow],
    and an infinite refill that always allows.  Time is in nanoseconds. *)
Record Limiter : Type :=
  mkLimiter { limit : Limit; burst : Z; tokens : Q; last : Z }.

Definition NewLimiter (r : Limit) (b : Z) : Limiter :=
  mkLimiter r b (inject_Z b) 0.

Definition refill (lim : Limiter) (r : Q) (now : Z) : Q :=
  let elapsed :=
    (inject_Z (Z.max 0 (now - last lim)) / inject_Z 1000000000)%Q in
  let t := (tokens lim + elapsed * r)%Q in
  if Qle_bool t (inject_Z (burst lim)) then t else inject_Z (burst lim).

(** [lim.Allow()], called at time [now]: a non-blocking take of one token. *)
Definition Allow (lim : Limiter) (now : Z) : bool * Limiter :=
  match limit lim with
  | Inf => (true, lim)
  | PerSecond r =>
      let t := refill lim r now in
      if Qle_bool 1%Q t
      then (true, mkLimiter (limit lim) (burst lim) (t - 1)%Q now)
      else (false, mkLimiter (limit lim) (burst lim) t now)
  end.

End Rate.

Module RateLimit.
Import Errors Rate.

Record perClientRateLimiter : Type :=
  mkRL { maxTokens : Z;
         tokenRefillPerSecond : Limit;
         clientRL : gmap string Limiter }.

(** [func (rl *perClientRateLimiter) getRL(key string) *rate.Limiter] *)
Definition getRL (rl : perClientRateLimiter) (key : string)
  : Limiter * perClientRateLimiter :=
  match clientRL rl !! key with
  | None =>
      let cl := NewLimiter (tokenRefillPerSecond rl) (maxTokens rl) in
      (cl, mkRL (maxTokens rl) (tokenRefillPerSecond rl)
                (<[key := cl]> (clientRL rl)))
  | Some val => (val, rl)
  end.

(** [func (rl *perClientRateLimiter) rateLimit(key string) error].
    The map holds a pointer to the limiter, so the state [Allow] leaves
    behind is the state found under [key] at the next call. *)
Definition rateLimit (rl : perClientRateLimiter) (key : string) (now : Z)
  : option error * perClientRateLimiter :=
  let '(limiter, rl1) := getRL rl key in
  let '(allowed, limiter') := Allow limiter now in
  let rl2 := mkRL (maxTokens rl1) (tokenRefillPerSecond rl1)
                  (<[key := limiter']> (clientRL rl1)) in
  if allowed then (None, rl2)
  else (Some (New ("user with key '" +:+ key
                   +:+ "' has exceeded maximum rate limit "
                   +:+ pretty (maxTokens rl))), rl2).

(** A sequence of [rateLimit] calls, each with its key and its time. *)
Fixpoint rateLimits (rl : perClientRateLimiter) (calls : list (string * Z))
  : list (option error) * perClientRateLimiter :=
  match calls with
  | [] => ([], rl)
  | (key, now) :: calls' =>
      let '(e, rl1) := rateLimit rl key now in
      let '(es, rl2) := rateLimits rl1 calls' in
      (e :: es, rl2)
  end.

(** The number of calls of [calls] that are made with the key [k]. *)
Definition calls_with (k : string) (calls : list (string * Z)) : Z :=
  Z.of_nat (length (filter (fun c => c.1 = k) calls)).

(** The bucket of [k] after [c] calls with that key, when the limiter was
    configured with [N] tokens and nothing is refilled: no bucket before
    the first call, then a bucket that holds what is left of the tokens. *)
Definition bucket_after (N : Z) (k : string) (c : Z)
    (rl : perClientRateLimiter) : Prop :=
  maxTokens rl = N /\
  tokenRefillPerSecond rl = PerSecond 0%Q /\
  match clientRL rl !! k with
  | None => c = 0
  | Some lim =>
      limit lim = PerSecond 0%Q /\ burst lim = N /\
      (tokens lim == inject_Z (Z.max 0 (N - c)))%Q
  end.

(** The limiter of [TestPerClientRateLimiter]. *)
Definition test_rl : perClientRateLimiter := mkRL 3 (PerSecond 0%Q) ∅.

End RateLimit.

(* ===================================================================== *)
(** * Package context: cancellation contexts *)
(* ===================================================================== *)
Module Ctx.
Import Errors.

(** A [context.Context] is compared by identity when it is a map key; the
    identity is a number.  [Background] is never cancelled: nobody holds a
    cancel function for it. *)
Definition Context : Type := nat.
Definition Background : Context := 0%nat.

(** The two closures the tracker hands to [context.AfterFunc]. *)
Inductive afterFunc : Type :=
  | PropagateBackendCancel (backend effective : Context)
      (* func() { cancel(context.Cause(backend)) } *)
  | RemoveTrackedConn (tracker : string) (outer : Context) (addr : string).
      (* func() { t.removeTrackedConn(outer, addr) } *)

(** The contexts that exist: the parent of every derived context, the cause
    of every cancelled one, the [AfterFunc] registrations that have neither
    run nor been stopped, and the next unused identity. *)
Record store : Type :=
  mkStore { parent_of : gmap Context Context;
            cause_of : gmap Context error;
            afterFuncs : gmap nat (Context * afterFunc);
            next : nat }.

Definition empty_store : store := mkStore ∅ ∅ ∅ 1%nat.

Definition Done (st : store) (c : Context) : bool :=
  bool_decide (is_Some (cause_of st !! c)).

(** [context.Cause(c)] *)
Definition Cause (st : store) (c : Context) : option error := cause_of st !! c.

(** [context.WithCancelCause(parent)]: the child of a cancelled parent is
    cancelled at once, with the parent's cause.  The cancel function that
    is returned with the child is [cancel] at the child's identity. *)
Definition WithCancelCause (st : store) (parent : Context) : Context * store :=
  let c := next st in
  let causes :=
    match cause_of st !! parent with
    | Some e => <[c := e]> (cause_of st)
    | None => cause_of st
    end in
  (c, mkStore (<[c := parent]> (parent_of st)) causes (afterFuncs st) (S c)).

(** [c] is [a] or is derived from it, in at most [fuel] steps. *)
Fixpoint derives_from (fuel : nat) (ps : gmap Context Context)
    (a c : Context) : bool :=
  bool_decide (c = a) ||
  match fuel with
  | O => false
  | S fuel' =>
      match ps !! c with
      | Some p => derives_from fuel' ps a p
      | None => false
      end
  end.

(** A cancel function called with [cause]: the first cancellation of a
    context wins, and it reaches every derived context that is not
    cancelled yet. *)
Definition cancel (st : store) (c : Context) (cause : error) : store :=
  match cause_of st !! c with
  | Some _ => st
  | None =>
      let hit : gset Context :=
        filter (fun d => derives_from (size (parent_of st)) (parent_of st) c d)
               ({[c]} ∪ dom (parent_of st)) in
      mkStore (parent_of st) (cause_of st ∪ gset_to_gmap cause hit)
              (afterFuncs st) (next st)
  end.

(** [context.AfterFunc(c, f)]: the registration is returned as the handle
    its [stop] function needs. *)
Definition AfterFunc (st : store) (c : Context) (f : afterFunc) : nat * store :=
  let id := next st in
  (id, mkStore (parent_of st) (cause_of st)
               (<[id := (c, f)]> (afterFuncs st)) (S id)).

(** The [stop] function of a registration. *)
Definition stop (st : store) (id : nat) : store :=
  mkStore (parent_of st) (cause_of st) (delete id (afterFuncs st)) (next st).

(** A registration whose context is done starts, in a goroutine of its
    own, at some later time. *)
Definition runnable (st : store) (id : nat) : option afterFunc :=
  match afterFuncs st !! id with
  | Some (c, f) => if Done st c then Some f else None
  | None => None
  end.

End Ctx.

(* ===================================================================== *)
(** * Package upstream: the connection tracker *)
(* ===================================================================== *)
Module Tracker.
Import Errors Ctx.

Definition MaxInt32 : Z := 2147483647.

Definition ErrUpstreamNotReady : error :=
  New "upstream is not ready for requests".
Definition ErrBackendUnhealthy : error := New "backend is unhealthy".
Definition ErrBackendRemoved : error :=
  New "backend config has been removed".

(** [type activeConns map[context.Context]struct{}] *)
Abbreviation activeConns := (gset Context).

(** [backendCtx]: [cancel] is the cancel function of [ctx]. *)
Record backendCtx : Type := mkBackendCtx { ctx : Context; cancel : Context }.

(** [Tracker]: [Cancel] is nil in a tracker that was not made by
    [NewTracker]. *)
Record Tracker : Type :=
  mkTracker { UpstreamName : string;
              Cancel : option Context;
              Ctx : Context;
              healthyBackends : gmap string activeConns;
              backendCanceler : gmap string backendCtx }.

Definition set_healthyBackends (t : Tracker) (hb : gmap string activeConns)
  : Tracker :=
  mkTracker (UpstreamName t) (Cancel t) (Ctx t) hb (backendCanceler t).

(** [func NewTracker(parent context.Context, upstream string) *Tracker] *)
Definition NewTracker (st : store) (parent : Context) (upstream : string)
  : Tracker * store :=
  let '(c, st') := WithCancelCause st parent in
  (mkTracker upstream (Some c) c ∅ ∅, st').

(** [func (t *Tracker) removeTrackedConn(ctx, addr)]: [delete] on the nil
    map of a missing address does nothing. *)
Definition removeTrackedConn (t : Tracker) (c : Context) (addr : string)
  : Tracker :=
  set_healthyBackends t
    (alter (fun s : activeConns => s ∖ {[c]}) addr (healthyBackends t)).

(** The function [trackCtx] returns: stop the backend subscription, then
    cancel the derived context with [context.Canceled]. *)
Record CancelFunc : Type :=
  mkCancelFunc { afterBackendCancelled : nat; target : Context }.

Definition call_cancelFunc (st : store) (f : CancelFunc) : store :=
  Ctx.cancel (stop st (afterBackendCancelled f)) (target f) context_Canceled.

(** [func (t *Tracker) trackCtx(outer, backend, addr)] *)
Definition trackCtx (t : Tracker) (st : store) (outer backend : Context)
    (addr : string) : (Context * CancelFunc) * store :=
  let '(c, st1) := WithCancelCause st outer in
  let '(afterBackend, st2) :=
    AfterFunc st1 backend (PropagateBackendCancel backend c) in
  let '(_, st3) :=
    AfterFunc st2 c (RemoveTrackedConn (UpstreamName t) outer addr) in
  ((c, mkCancelFunc afterBackend c), st3).

(** [func (t *Tracker) BackendActiveConns(addr string) int] *)
Definition BackendActiveConns (t : Tracker) (addr : string) : Z :=
  match healthyBackends t !! addr with
  | Some s => Z.of_nat (size s)
  | None => 0
  end.

(** [func (t *Tracker) TrackBackend(addr string)] *)
Definition TrackBackend (t : Tracker) (st : store) (addr : string)
  : Tracker * store :=
  match healthyBackends t !! addr with
  | Some _ => (t, st)
  | None =>
      let '(c, st') := WithCancelCause st (Ctx t) in
      (mkTracker (UpstreamName t) (Cancel t) (Ctx t)
                 (<[addr := ∅]> (healthyBackends t))
                 (<[addr := mkBackendCtx c c]> (backendCanceler t)), st')
  end.

(** One turn of the loop of [leastConnections]. *)
Definition least_step (acc : string * Z) (entry : string * activeConns)
  : string * Z :=
  let '(choice, min) := acc in
  let '(b, conns) := entry in
  if decide (Z.of_nat (size conns) < min)
  then (b, Z.of_nat (size conns))
  else (choice, min).

(** [func (t *Tracker) leastConnections() string].  [order] is the order in
    which [range t.healthyBackends] yields the entries at this call; Go
    leaves it unspecified. *)
Definition leastConnections (order : list (string * activeConns)) : string :=
  fst (fold_left least_step order (""%string, MaxInt32)).

(** The orders a [range] over the map can take. *)
Definition range_of (hb : gmap string activeConns)
    (order : list (string * activeConns)) : Prop :=
  order ≡ₚ map_to_list hb.

(** [func (t *Tracker) UntrackBackend(addr string, err error)].
    [err.Error()] is evaluated for the log line, which panics on a nil
    [err]. *)
Definition UntrackBackend (t : Tracker) (st : store) (addr : string)
    (err : option error) : outcome unit * Tracker * store :=
  match backendCanceler t !! addr with
  | Some c =>
      match err with
      | None =>
          (Panic "invalid memory address or nil pointer dereference", t, st)
      | Some e =>
          (Ret (), mkTracker (UpstreamName t) (Cancel t) (Ctx t)
                     (delete addr (healthyBackends t))
                     (delete addr (backendCanceler t)),
           Ctx.cancel st (cancel c) e)
      end
  | None => (Ret (), t, st)
  end.

(** The named results of [NextWithContext]; [nctx] is the result [ctx],
    a name [backendCtx] has taken. *)
Record nextResult : Type :=
  mkNext { addr : string;
           nctx : option Context;
           cancelFunc : option CancelFunc;
           err : option error }.

(** [func (t *Tracker) NextWithContext(parent) (addr, ctx, cancelFunc, err)].
    Writing into the nil map of a missing address panics, and so does
    reading [.ctx] through the nil pointer of a missing canceler. *)
Definition NextWithContext (t : Tracker) (st : store) (parent : Context)
    (order : list (string * activeConns))
  : outcome nextResult * Tracker * store :=
  if decide (size (healthyBackends t) = 0%nat)
  then (Ret (mkNext "" None None (Some ErrUpstreamNotReady)), t, st)
  else
    let a := leastConnections order in
    match healthyBackends t !! a with
    | None => (Panic "assignment to entry in nil map", t, st)
    | Some s =>
        let t1 :=
          set_healthyBackends t
            (<[a := {[parent]} ∪ s]> (healthyBackends t)) in
        match backendCanceler t1 !! a with
        | None =>
            (Panic "invalid memory address or nil pointer dereference", t1, st)
        | Some b =>
            let '((c, f), st') := trackCtx t1 st parent (ctx b) a in
            (Ret (mkNext a (Some c) (Some f) None), t1, st')
        end
    end.

(** A registered [AfterFunc] closure whose context is done runs, once:
    the backend's cause is passed on to the derived context, or the handle
    is removed from the active set. *)
Definition run_afterFunc (s : Tracker * store) (id : nat) : Tracker * store :=
  let '(t, st) := s in
  match runnable st id with
  | None => s
  | Some f =>
      let st1 := stop st id in
      match f with
      | PropagateBackendCancel backend effective =>
          match Cause st1 backend with
          | Some e => (t, Ctx.cancel st1 effective e)
          | None => (t, st1)
          end
      | RemoveTrackedConn _ outer a => (removeTrackedConn t outer a, st1)
      end
  end.

(** The tracker literal of [NewUpstream]: the background context and no
    cancel function. *)
Definition upstreamTracker (name : string) : Tracker :=
  mkTracker name None Background ∅ ∅.

(** ** Sequences of operations *)

Inductive op : Type :=
  | OpTrackBackend (a : string)
  | OpUntrackBackend (a : string) (e : option error)
  | OpNextWithContext (parent : Context) (order : list (string * activeConns))
  | OpRemoveTrackedConn (c : Context) (a : string)
  | OpBackendActiveConns (a : string).

Definition exec (o : op) (s : Tracker * store) : Tracker * store :=
  let '(t, st) := s in
  match o with
  | OpTrackBackend a => TrackBackend t st a
  | OpUntrackBackend a e =>
      let '(_, t', st') := UntrackBackend t st a e in (t', st')
  | OpNextWithContext parent order =>
      let '(_, t', st') := NextWithContext t st parent order in (t', st')
  | OpRemoveTrackedConn c a => (removeTrackedConn t c a, st)
  | OpBackendActiveConns a => let _ := BackendActiveConns t a in (t, st)
  end.

(** An operation the program can perform in state [s]: the loop of
    [leastConnections] ranges over the map as it is. *)
Definition possible (o : op) (s : Tracker * store) : Prop :=
  match o with
  | OpNextWithContext _ order => range_of (healthyBackends (fst s)) order
  | _ => True
  end.

(** The states of a tracker: it is made by [NewTracker] or by [NewUpstream]
    and then changed by its operations only. *)
Inductive reachable : Tracker * store -> Prop :=
  | reachable_NewTracker st parent upstream :
      reachable (NewTracker st parent upstream)
  | reachable_NewUpstream st name :
      reachable (upstreamTracker name, st)
  | reachable_exec s o :
      reachable s -> possible o s -> reachable (exec o s).

(** Invariant 1: the two maps have the same addresses. *)
Definition same_addresses (t : Tracker) : Prop :=
  forall a : string,
    a ∈ dom (healthyBackends t) <-> a ∈ dom (backendCanceler t).

(** [a] has a smallest active set among the healthy backends. *)
Definition least_loaded (hb : gmap string activeConns) (a : string) : Prop :=
  exists s : activeConns,
    hb !! a = Some s /\
    forall (b : string) (s' : activeConns),
      hb !! b = Some s' -> (size s <= size s')%nat.

(** [a] is the first entry of [order] whose active set is smallest. *)
Definition first_least (order : list (string * activeConns)) (a : string)
  : Prop :=
  exists (pre post : list (string * activeConns)) (s : activeConns),
    order = pre ++ (a, s) :: post /\
    (forall e, e ∈ pre -> (size s < size e.2)%nat) /\
    (forall e, e ∈ post -> (size s <= size e.2)%nat).

(** Some healthy backend has fewer active connections than the value
    [leastConnections] starts its minimum from. *)
Definition below_sentinel (hb : gmap string activeConns) : Prop :=
  exists (a : string) (s : activeConns),
    hb !! a = Some s /\ Z.of_nat (size s) < MaxInt32.

(** Invariant 3: a connection handle is in the active set of at most one
    backend. *)
Definition in_one_backend (t : Tracker) : Prop :=
  forall (c : Context) (a b : string) (sa sb : activeConns),
    healthyBackends t !! a = Some sa -> healthyBackends t !! b = Some sb ->
    c ∈ sa -> c ∈ sb -> a = b.

(** [parent] is in no active set. *)
Definition untracked (t : Tracker) (parent : Context) : Prop :=
  forall (a : string) (s : activeConns),
    healthyBackends t !! a = Some s -> parent ∉ s.

(** Operations whose [NextWithContext] calls are given a context that is
    in no active set at the time of the call. *)
Definition possible_fresh (o : op) (s : Tracker * store) : Prop :=
  possible o s /\
  match o with
  | OpNextWithContext parent _ => untracked (fst s) parent
  | _ => True
  end.

Inductive reachable_fresh : Tracker * store -> Prop :=
  | fresh_NewTracker st parent upstream :
      reachable_fresh (NewTracker st parent upstream)
  | fresh_NewUpstream st name :
      reachable_fresh (upstreamTracker name, st)
  | fresh_exec s o :
      reachable_fresh s -> possible_fresh o s -> reachable_fresh (exec o s).

(** The tracker of the tests with the one backend ["a"] that has [n]
    connections, the handles 0 to [n - 1]. *)
Definition one_backend (n : nat) : Tracker :=
  mkTracker "test" (Some 1%nat) 1%nat
            {[ "a"%string := set_seq 0 n ]}
            {[ "a"%string := mkBackendCtx 2%nat 2%nat ]}.

(** A backend with as many connections as the starting minimum. *)
Definition full_backend : Tracker := one_backend (Z.to_nat MaxInt32).

(** [NextWithContext] with the entries ranged over in the order of
    [map_to_list]. *)
Definition next_in_map_order (parent : Context) (s : Tracker * store)
  : Tracker * store :=
  exec (OpNextWithContext parent (map_to_list (healthyBackends (fst s)))) s.

(** The three backends of [TestLeastConnections] with 5, 3 and 0
    connections. *)
Definition seeded : Tracker :=
  mkTracker "test" (Some 1%nat) 1%nat
    {[ "127.0.0.1:8000"%string := set_seq 10 5;
       "127.0.0.1:8001"%string := set_seq 20 3;
       "127.0.0.1:8002"%string := ∅ ]}
    {[ "127.0.0.1:8000"%string := mkBackendCtx 2%nat 2%nat;
       "127.0.0.1:8001"%string := mkBackendCtx 3%nat 3%nat;
       "127.0.0.1:8002"%string := mkBackendCtx 4%nat 4%nat ]}.

(** The tracker of the tests with two backends and no connection. *)
Definition two_backends : Tracker * store :=
  exec (OpTrackBackend "b")
    (exec (OpTrackBackend "a") (NewTracker empty_store Background "test")).

(** Two backends, and two calls of [NextWithContext] that are given the
    same context, as [handleConn] does with the context of [serve]. *)
Definition shared_handle : Tracker * store :=
  next_in_map_order 100%nat (next_in_map_order 100%nat two_backends).

End Tracker.

(* ===================================================================== *)
(** * Package upstream: upstreams and their manager *)
(* ===================================================================== *)
Module Manager.
Import Errors Ctx Tracker.

Inductive BackendStatus : Type := INIT | HEALTHY | UNHEALTHY.

(** [READY] of [UpstreamStatus] and [HEALTHY] of [BackendStatus] are both
    the number 1. *)
Definition NOTREADY : Z := 0.
Definition READY : Z := 1.
Definition HEALTHY_int32 : Z := 1.

Record BackendHeartbeat : Type :=
  mkHeartbeat { HUpstreamName : string; HAddr : string;
                Period : Z; Timeout : Z }.

(** [UpstreamHeartbeats]: every heartbeat is a fresh pointer, so the map
    from heartbeats to their stop channels is the list of the heartbeats
    whose stop channel is open. *)
Record UpstreamHeartbeats : Type :=
  mkHeartbeats { HBUpstreamName : string; stoppers : list BackendHeartbeat }.

Record Upstream : Type :=
  mkUpstream { Name : string;
               Status : Z;
               tracker : Tracker;
               heartbeats : UpstreamHeartbeats }.

(** [func NewUpstream(name string) *Upstream] *)
Definition NewUpstream (name : string) : Upstream :=
  let t := mkTracker name None Background ∅ ∅ in
  let h := mkHeartbeats name [] in
  mkUpstream name NOTREADY t h.

(** [func (u *UpstreamHeartbeats) StartHeartbeat(ctx, h, out)] *)
Definition StartHeartbeat (u : UpstreamHeartbeats) (h : BackendHeartbeat)
  : UpstreamHeartbeats :=
  mkHeartbeats (HBUpstreamName u) (stoppers u ++ [h]).

(** [func (u *UpstreamHeartbeats) StopAll()]: every stop channel is closed,
    the map is cleared and the heartbeat goroutines are waited for. *)
Definition StopAll (u : UpstreamHeartbeats) : UpstreamHeartbeats :=
  mkHeartbeats (HBUpstreamName u) [].

Record Manager : Type :=
  mkManager { Upstreams : gmap string Upstream;
              BackendStatuses : gmap string BackendStatus;
              healthEventsClosed : bool }.

(** [func NewManager() *Manager] *)
Definition NewManager : Manager := mkManager ∅ ∅ false.

(** [func (m *Manager) GetUpstream(name string) (up, err)] *)
Definition GetUpstream (m : Manager) (name : string)
  : option Upstream * option error :=
  match Upstreams m !! name with
  | Some up => (Some up, None)
  | None => (None, Some (New "upstream was not found"))
  end.

Definition store_upstream (m : Manager) (up : Upstream) : Manager :=
  mkManager (<[Name up := up]> (Upstreams m)) (BackendStatuses m)
            (healthEventsClosed m).

(** [func (m *Manager) LoadUpstreamFromConfig(cfg *config.Upstream)] *)
Definition LoadUpstreamFromConfig (m : Manager) (cfg : Config.Upstream)
  : Manager :=
  let up :=
    match GetUpstream m (Config.Name cfg) with
    | (Some val, None) => val
    | _ => NewUpstream (Config.Name cfg)
    end in
  let hbs :=
    fold_left
      (fun u back =>
         StartHeartbeat u (mkHeartbeat (Config.Name cfg) back
                                       2000000000 1000000000))
      (Config.Backends cfg) (heartbeats up) in
  store_upstream m (mkUpstream (Name up) (Status up) (tracker up) hbs).

(** [func (m *Manager) handleHealthy(upstream string, backend string)] *)
Definition handleHealthy (m : Manager) (st : store) (upstream backend : string)
  : Manager * store :=
  match GetUpstream m upstream with
  | (Some up, None) =>
      let '(t, st') := TrackBackend (tracker up) st backend in
      (mkManager
         (<[upstream := mkUpstream (Name up) HEALTHY_int32 t (heartbeats up)]>
            (Upstreams m))
         (<[backend := HEALTHY]> (BackendStatuses m))
         (healthEventsClosed m), st')
  | _ => (m, st)
  end.

(** [func (m *Manager) handleUnhealthy(upstream string, backend string)] *)
Definition handleUnhealthy (m : Manager) (st : store)
    (upstream backend : string) : Manager * store :=
  match GetUpstream m upstream with
  | (Some up, None) =>
      let '(_, t, st') :=
        UntrackBackend (tracker up) st backend (Some ErrBackendUnhealthy) in
      (mkManager
         (<[upstream := mkUpstream (Name up) (Status up) t (heartbeats up)]>
            (Upstreams m))
         (<[backend := UNHEALTHY]> (BackendStatuses m))
         (healthEventsClosed m), st')
  | _ => (m, st)
  end.

(** What [Start] does once it has received from [m.stop]:
    [close(m.healthEvents)], then [StopAll] on every upstream. *)
Definition Start_teardown (m : Manager) (st : store) : Manager * store :=
  (mkManager
     ((fun up => mkUpstream (Name up) (Status up) (tracker up)
                            (StopAll (heartbeats up))) <$> Upstreams m)
     (BackendStatuses m) true, st).

(** [func (m *Manager) Stop()]: the send on [m.stop] lets [Start] run its
    teardown. *)
Definition Stop (m : Manager) (st : store) : Manager * store :=
  Start_teardown m st.

(** [up.NextWithContext(ctx)] as [Forward] calls it on the upstream it
    got from the manager. *)
Definition next_on (m : Manager) (st : store) (upstream : string)
    (parent : Context)
  : option (outcome nextResult) * Manager * store :=
  match GetUpstream m upstream with
  | (Some up, None) =>
      let '(r, t, st') :=
        NextWithContext (tracker up) st parent
                        (map_to_list (healthyBackends (tracker up))) in
      (Some r,
       mkManager
         (<[upstream := mkUpstream (Name up) (Status up) t (heartbeats up)]>
            (Upstreams m))
         (BackendStatuses m) (healthEventsClosed m), st')
  | _ => (None, m, st)
  end.

(** One upstream with one backend that became healthy and one connection
    in flight, at the moment [Stop] is called. *)
Definition web_cfg : Config.Upstream :=
  Config.mkUpstream "web" ["webdev"; "sre"] ["127.0.0.1:8000"].

(** The context [serve] gives to [handleConn]: a cancellable child of the
    background context. *)
Definition serving : Context * store := WithCancelCause empty_store Background.

Definition in_flight : option (outcome nextResult) * Manager * store :=
  let m0 := LoadUpstreamFromConfig NewManager web_cfg in
  let '(m1, st1) := handleHealthy m0 (snd serving) "web" "127.0.0.1:8000" in
  next_on m1 st1 "web" (fst serving).

(** The tracker of an upstream has no cancel function, and its parent
    context is the background context. *)
Definition uncancellable (t : Tracker) : Prop :=
  Cancel t = None /\ Ctx t = Background.

(** No upstream of the manager has a cancellable tracker. *)
Definition all_uncancellable (m : Manager) : Prop :=
  map_Forall (fun _ up => uncancellable (tracker up)) (Upstreams m).

(** The state after [Stop] was called with that connection in flight. *)
Definition after_stop : Manager * store :=
  Stop in_flight.1.2 in_flight.2.

(** The same connection on a tracker made by [NewTracker], as in the tests
    of the tracker, and the state after the tracker's [Cancel] was called
    with [ErrBackendRemoved]. *)
Definition tracked_in_flight : Tracker * store :=
  next_in_map_order (fst serving)
    (exec (OpTrackBackend "127.0.0.1:8000")
       (NewTracker (snd serving) Background "web")).

Definition after_Cancel : store :=
  match Cancel tracked_in_flight.1 with
  | Some c => Ctx.cancel tracked_in_flight.2 c ErrBackendRemoved
  | None => tracked_in_flight.2
  end.

End Manager.

(* ===================================================================== *)
(** * More of the tracker's state *)
(* ===================================================================== *)
Module TrackerState.
Import Ctx Tracker.

(** The cancel function kept for a backend is the one of its context, as
    [TrackBackend] stores them. *)
Definition own_cancel (t : Tracker) : Prop :=
  forall (a : string) (b : backendCtx),
    backendCanceler t !! a = Some b -> cancel b = ctx b.

(** [a] is the only healthy backend with the fewest connections. *)
Definition only_least (hb : gmap string activeConns) (a : string) : Prop :=
  exists s : activeConns,
    hb !! a = Some s /\
    forall (b : string) (s' : activeConns),
      hb !! b = Some s' -> b <> a -> (size s < size s')%nat.

End TrackerState.

(* ===================================================================== *)
(** * Package upstream: heartbeats *)
(* ===================================================================== *)
Module Heartbeat.
Import Errors Health Manager.

Record backendStatEvent : Type :=
  mkEvent { upstream : string;
            addr : string;
            stat : BackendStatus;
            err : option error }.

(** [func (b *BackendHeartbeat) beat(ctx, out) error].  [check] is what
    [b.Checker.Check(ctx)] returned; the result is the event sent on
    [out], if one is sent, and the error. *)
Definition beat (b : BackendHeartbeat) (check : checkResult)
  : option backendStatEvent * option error :=
  let event := mkEvent (HUpstreamName b) (HAddr b) INIT None in
  match Health.err check with
  | Some e => (None, Some e)
  | None =>
      if changed check
      then
        let event1 :=
          mkEvent (upstream event) (addr event) UNHEALTHY (err event) in
        let event2 :=
          if Status_eqb (Health.stat check) SUCCESS
          then mkEvent (upstream event1) (addr event1) HEALTHY (err event1)
          else event1 in
        (Some event2, None)
      else (None, None)
  end.

(** [func (b *BackendHeartbeat) newErrEvent(err error) backendStatEvent] *)
Definition newErrEvent (b : BackendHeartbeat) (e : option error)
  : backendStatEvent :=
  mkEvent (HUpstreamName b) (HAddr b) UNHEALTHY e.

(** [if err := b.beat(ctx, out); err != nil { out <- b.newErrEvent(err) }]
    with the TCP checker of [LoadUpstreamFromConfig]: the events sent on
    [out] and the checker afterwards.  [d] is the answer to the dial of
    this beat. *)
Definition run_beat (b : BackendHeartbeat) (h : TCP) (d : dialResult)
  : list backendStatEvent * TCP :=
  let '(check, h') := Check h d in
  match beat b check with
  | (sent, Some e) => (option_list sent ++ [newErrEvent b (Some e)], h')
  | (sent, None) => (option_list sent, h')
  end.

(** What wakes the [select] of the heartbeat loop: the stop channel, the
    end of the context with its error, or the ticker, with the answer to
    the dial of that beat. *)
Inductive wake : Type :=
  | Stopped
  | CtxDone (e : error)
  | Tick (d : dialResult).

(** The [for { select { ... } }] loop of [Run]. *)
Fixpoint run_loop (b : BackendHeartbeat) (h : TCP) (ws : list wake)
  : list backendStatEvent * TCP :=
  match ws with
  | [] => ([], h)
  | Stopped :: _ => ([], h)
  | CtxDone e :: _ => ([newErrEvent b (Some e)], h)
  | Tick d :: ws' =>
      let '(evs, h1) := run_beat b h d in
      let '(rest, h2) := run_loop b h1 ws' in
      (evs ++ rest, h2)
  end.

(** [func (b *BackendHeartbeat) Run(ctx, stop) <-chan backendStatEvent]:
    the first beat, then the loop; the events in the order in which they
    are sent. *)
Definition Run (b : BackendHeartbeat) (h : TCP) (d0 : dialResult)
    (ws : list wake) : list backendStatEvent * TCP :=
  let '(evs, h1) := run_beat b h d0 in
  let '(rest, h2) := run_loop b h1 ws in
  (evs ++ rest, h2).

(** Two events in a row that report the backend healthy. *)
Definition healthy_twice (evs : list backendStatEvent) : Prop :=
  exists l1 e1 e2 l2,
    evs = l1 ++ e1 :: e2 :: l2 /\ stat e1 = HEALTHY /\ stat e2 = HEALTHY.

Definition is_healthy (e : backendStatEvent) : bool :=
  match stat e with HEALTHY => true | _ => false end.

(** No event reports the backend healthy right after an event that did,
    nor as the first one when [prev] says the last one before did. *)
Fixpoint alternating (prev : bool) (evs : list backendStatEvent) : Prop :=
  match evs with
  | [] => True
  | e :: evs' =>
      (prev = true -> is_healthy e = false) /\ alternating (is_healthy e) evs'
  end.

(** The checker remembers a successful dial. *)
Definition succeeded (h : TCP) : bool := Status_eqb (status h) SUCCESS.

(** The event is about the backend of the heartbeat and reports it
    healthy or unhealthy. *)
Definition about (b : BackendHeartbeat) (e : backendStatEvent) : Prop :=
  upstream e = HUpstreamName b /\ addr e = HAddr b /\
  (stat e = HEALTHY \/ stat e = UNHEALTHY).

(** The loop is not woken by the end of its context. *)
Definition context_lives (ws : list wake) : Prop :=
  forall e, CtxDone e ∉ ws.

(** What the last event says about the checker, as long as the loop is
    not ended by its context: healthy with a checker that remembers a
    success, unhealthy with one that remembers a failure. *)
Definition in_sync (h0 h : TCP) (evs : list backendStatEvent) : Prop :=
  match last evs with
  | None => status h = status h0
  | Some e =>
      (stat e = HEALTHY /\ status h = SUCCESS) \/
      (stat e = UNHEALTHY /\ status h = FAILED)
  end.

End Heartbeat.

(* ===================================================================== *)
(** * Package upstream: the receiver of the health events *)
(* ===================================================================== *)
Module Receiver.
Import Errors Ctx Tracker Manager Heartbeat.

(** The body of the loop of [healthReceiver]. *)
Definition receive (s : Manager * store) (e : backendStatEvent)
  : Manager * store :=
  match stat e with
  | HEALTHY => handleHealthy s.1 s.2 (upstream e) (addr e)
  | UNHEALTHY => handleUnhealthy s.1 s.2 (upstream e) (addr e)
  | INIT => s
  end.

(** [func (m *Manager) healthReceiver()]: the events of the channel, in
    the order in which they are received. *)
Definition healthReceiver (m : Manager) (st : store)
    (events : list backendStatEvent) : Manager * store :=
  fold_left receive events (m, st).

(** The backend [b] of the upstream [u] is tracked. *)
Definition tracked (m : Manager) (u b : string) : Prop :=
  exists up, Upstreams m !! u = Some up /\
             b ∈ dom (healthyBackends (tracker up)).

(** Every tracker of the manager has the same addresses in both maps. *)
Definition consistent (m : Manager) : Prop :=
  map_Forall (fun _ up => same_addresses (tracker up)) (Upstreams m).

(** The event is about the backend [b] of the upstream [u] and reports it
    healthy or unhealthy. *)
Definition reports (u b : string) (e : backendStatEvent) : bool :=
  bool_decide (upstream e = u) && bool_decide (addr e = b) &&
  match stat e with INIT => false | _ => true end.

(** The status the last report about [b] of [u] gives. *)
Definition last_report (u b : string) (events : list backendStatEvent)
  : option BackendStatus :=
  stat <$> last (filter (fun e => reports u b e = true) events).

(** Some event reports a backend of [u] healthy. *)
Definition reported_healthy (u : string) (events : list backendStatEvent)
  : Prop :=
  exists e, e ∈ events /\ upstream e = u /\ stat e = HEALTHY.

End Receiver.

(* ===================================================================== *)
(** * More of the rate limiter's state *)
(* ===================================================================== *)
Module Buckets.
Import Rate RateLimit.

(** With an infinite refill every bucket of the limiter is unlimited. *)
Definition unlimited (rl : perClientRateLimiter) : Prop :=
  tokenRefillPerSecond rl = Inf /\
  map_Forall (fun _ lim => limit lim = Inf) (clientRL rl).

End Buckets.

(* ===================================================================== *)
(** * Package forwarder: the balancer *)
(* ===================================================================== *)
Module Balancer.
Import Errors Ctx Tracker Manager Rate RateLimit Forwarder.

(** [LeastConnections]: the dialer has no state. *)
Record LeastConnections : Type :=
  mkLC { ratelimit : perClientRateLimiter; manager : Manager }.

(** Every upstream is stored under its own name, as
    [LoadUpstreamFromConfig] stores it. *)
Definition well_keyed (m : Manager) : Prop :=
  forall (k : string) (up : Upstream),
    Upstreams m !! k = Some up -> Name up = k.


(** The heartbeats [LoadUpstreamFromConfig] starts for an upstream. *)
Definition heartbeats_of (cfg : Config.Upstream) : list BackendHeartbeat :=
  (fun back => mkHeartbeat (Config.Name cfg) back 2000000000 1000000000)
    <$> Config.Backends cfg.

(** [func NewLeastConnectionsFromConfig(ctx, cfg)], which returns no error,
    with the fields of [cfg.RateLimit]: the upstreams are loaded in the
    order of the configuration.  This is the balancer as the loads alone
    make it, when the receiver that [go m.Start()] runs has handled no
    event before the return; [NewLeastConnectionsFromConfig_receiving]
    below is the function with its receiver. *)
Definition NewLeastConnectionsFromConfig (ups : list Config.Upstream)
    (maxTokens : Z) (tokenRefillPerSecond : Limit) : LeastConnections :=
  let m := fold_left LoadUpstreamFromConfig ups NewManager in
  mkLC (mkRL maxTokens tokenRefillPerSecond ∅) m.

(** What the world answers during one [Forward]: the time of the rate
    limiter's clock, the order of the range over the healthy backends,
    the error of the dial and the errors of the two copies in the order
    in which they arrive. *)
Record answers : Type :=
  mkAnswers { now : Z;
              order : list (string * activeConns);
              dial : option error;
              first : option error;
              second : option error }.

(** [func (l *LeastConnections) Forward(ctx, info) error].  The result of
    [up.WaitForReady(time.Second)] is dropped, so that call only delays:
    the upstream is read in the state it has when [NextWithContext] is
    called.  The deferred [cancel()] runs when [fwd] has returned.  This
    is the call that no other goroutine interleaves with; [Schedule]
    below has its steps among those of the other goroutines. *)
Definition Forward (l : LeastConnections) (st : store) (ctx : Context)
    (info : Srv.FwdInfo) (env : answers)
  : outcome (option error) * LeastConnections * store :=
  let '(limited, rl) :=
    rateLimit (ratelimit l) (Srv.RateLimiterKey info) (now env) in
  match limited with
  | Some e => (Ret (Some e), mkLC rl (manager l), st)
  | None =>
      match GetUpstream (manager l) (Srv.FUpstream info) with
      | (_, Some e) => (Ret (Some e), mkLC rl (manager l), st)
      | (None, None) =>
          (Panic "invalid memory address or nil pointer dereference",
           mkLC rl (manager l), st)
      | (Some up, None) =>
          let '(r, t, st1) :=
            NextWithContext (tracker up) st ctx (order env) in
          let m :=
            mkManager
              (<[Srv.FUpstream info :=
                   mkUpstream (Name up) (Status up) t (heartbeats up)]>
                 (Upstreams (manager l)))
              (BackendStatuses (manager l))
              (healthEventsClosed (manager l)) in
          match r with
          | Panic msg => (Panic msg, mkLC rl m, st1)
          | Ret res =>
              match err res with
              | Some e => (Ret (Some e), mkLC rl m, st1)
              | None =>
                  let result := fwd (dial env) (first env) (second env) in
                  let st2 :=
                    match cancelFunc res with
                    | Some f => call_cancelFunc st1 f
                    | None => st1
                    end in
                  (Ret result, mkLC rl m, st2)
              end
          end
      end
  end.

(** What a call of [Forward] returns, and the balancer and the contexts
    it leaves. *)
Definition returned (out : outcome (option error) * LeastConnections * store)
  : outcome (option error) := out.1.1.

Definition balancer_after
    (out : outcome (option error) * LeastConnections * store)
  : LeastConnections := out.1.2.

Definition store_after
    (out : outcome (option error) * LeastConnections * store) : store :=
  out.2.

(** The balancer of [web_cfg] with one token for each client and no
    refill, once the backend of the upstream has been reported healthy. *)
Definition web_balancer : LeastConnections * store :=
  let l := NewLeastConnectionsFromConfig [web_cfg] 1 (PerSecond 0%Q) in
  let '(m, st) :=
    handleHealthy (manager l) (snd serving) "web" "127.0.0.1:8000" in
  (mkLC (ratelimit l) m, st).

(** A plain connection of the client bob for the upstream web, and a
    world in which the dial and both copies succeed. *)
Definition bob_to_web : Srv.FwdInfo :=
  Srv.mkFwdInfo "web" Srv.PlainConn "bob".

Definition quiet : answers :=
  mkAnswers 0 [("127.0.0.1:8000"%string, ∅)] None None None.

End Balancer.

(* ===================================================================== *)
(** * Package srv: the server made from a configuration *)
(* ===================================================================== *)
Module Server.
Import Errors Policy Srv Balancer.






End Server.

(* ===================================================================== *)
(** * Package forwarder: the start of the balancer, with its receiver *)
(* ===================================================================== *)
Module Startup.
Import Errors Ctx Manager Rate RateLimit Balancer.

(** What the goroutines [NewLeastConnectionsFromConfig] starts do to the
    manager and to the contexts: the receiver handles a health event;
    once [ctx] is done, [Start] closes the channel of the events and
    then stops the heartbeats of the upstreams, one upstream after the
    other; a heartbeat derives a context for its loop or for a beat, and
    such a context is cancelled. *)
Inductive background : Type :=
  | Handles (e : Heartbeat.backendStatEvent)
  | ClosesEvents
  | StopsHeartbeats (k : string)
  | DerivesContext (parent : Context)
  | CancelsContext (c : Context) (cause : error).

(** [close(m.healthEvents)] *)
Definition close_healthEvents (m : Manager) : Manager :=
  mkManager (Upstreams m) (BackendStatuses m) true.

(** [up.StopAll()] on the upstream stored under [k]. *)
Definition StopAll_of (m : Manager) (k : string) : Manager :=
  mkManager
    (alter (fun up => mkUpstream (Name up) (Status up) (tracker up)
                                 (StopAll (heartbeats up)))
           k (Upstreams m))
    (BackendStatuses m) (healthEventsClosed m).

Definition background_step (s : Manager * store) (x : background)
  : Manager * store :=
  match x with
  | Handles e => Receiver.receive s e
  | ClosesEvents => (close_healthEvents s.1, s.2)
  | StopsHeartbeats k => (StopAll_of s.1 k, s.2)
  | DerivesContext parent => (s.1, (WithCancelCause s.2 parent).2)
  | CancelsContext c cause => (s.1, Ctx.cancel s.2 c cause)
  end.

(** The loop of [NewLeastConnectionsFromConfig] over [cfg.Upstreams]
    while the goroutines it started are running.  The heartbeats a load
    starts send their events at once, and the receiver handles some of
    them before the next load: [between] holds the steps taken before
    the first upstream is stored, then, for each upstream in turn, those
    taken after it was stored and before the next one is, or before the
    return.  A step taken while the heartbeats of a load are still being
    started is as if taken after the load: the receiver writes the
    tracker and the status of an upstream, the load adds to its
    heartbeats.  These are more steps than the program has: any event
    may be handled, also one no heartbeat sends or one after the
    channel is closed. *)
Fixpoint load_receiving (s : Manager * store) (ups : list Config.Upstream)
    (between : list (list background)) : Manager * store :=
  let s0 := fold_left background_step (hd [] between) s in
  match ups with
  | [] => s0
  | cfg :: ups' =>
      load_receiving (LoadUpstreamFromConfig s0.1 cfg, s0.2) ups'
                     (tl between)
  end.

(** [func NewLeastConnectionsFromConfig(ctx, cfg)] with its goroutines:
    what it returns when they have taken the steps [between] by then. *)
Definition NewLeastConnectionsFromConfig_receiving
    (ups : list Config.Upstream) (maxTokens : Z)
    (tokenRefillPerSecond : Limit) (st : store)
    (between : list (list background)) : LeastConnections * store :=
  let s := load_receiving (NewManager, st) ups between in
  (mkLC (mkRL maxTokens tokenRefillPerSecond ∅) s.1, s.2).

(** The receiver has handled an event that reports [b] of [u] healthy. *)
Definition healthy_received (u b : string)
    (between : list (list background)) : Prop :=
  exists e : Heartbeat.backendStatEvent,
    Handles e ∈ concat between /\
    Heartbeat.upstream e = u /\ Heartbeat.addr e = b /\
    Heartbeat.stat e = HEALTHY.

(** What holds of a manager while it is loaded and its receiver handles
    events of [P]: upstreams are stored under their names, trackers have
    the same addresses in both maps, and an upstream is ready, or has a
    healthy backend, only when an event said so. *)
Definition started (P : Heartbeat.backendStatEvent -> Prop) (m : Manager)
  : Prop :=
  well_keyed m /\ Receiver.consistent m /\
  forall (k : string) (up : Upstream),
    Upstreams m !! k = Some up ->
    (Status up = NOTREADY \/
     exists e, P e /\ Heartbeat.upstream e = k /\
               Heartbeat.stat e = HEALTHY) /\
    forall b : string,
      b ∈ dom (Tracker.healthyBackends (tracker up)) ->
      exists e, P e /\ Heartbeat.upstream e = k /\
                Heartbeat.addr e = b /\ Heartbeat.stat e = HEALTHY.

End Startup.

(* ===================================================================== *)
(** * The balancer and its goroutines *)
(* ===================================================================== *)
Module Schedule.
Import Errors Ctx Tracker Manager Rate RateLimit Forwarder Balancer.

(** The state the goroutines share: the balancer and the contexts. *)
Definition world : Type := (LeastConnections * store)%type.

(** The steps the goroutines take on that state, each one under the lock
    of what it touches: the receiver handles a health event; a call of
    [Forward] passes the rate limiter, and calls [NextWithContext] on
    the upstream it found; the [stop] function of an [AfterFunc]
    registration is called, as the cancel function [trackCtx] returns
    does first; a context is cancelled, by that cancel function or by the
    owner of a parent context; a registered closure whose context is
    done runs; [Start] closes the channel of the events, and stops the
    heartbeats of an upstream; a context is derived, as a heartbeat,
    [verifyTLS] and [serve] do.  These are more steps than the program
    has: any event, any order of the range, any context and cause.  A
    closure that has started and whose body has not run yet counts as
    registered: only its [stop] function tells the difference, and a
    body of the propagation closure that runs after the [stop] is a
    cancellation. *)
Inductive act : Type :=
  | Receives (e : Heartbeat.backendStatEvent)
  | Limits (key : string) (now : Z)
  | Picks (u : string) (parent : Context)
          (order : list (string * activeConns))
  | Stops (id : nat)
  | Cancels (c : Context) (cause : error)
  | Runs (id : nat)
  | Closes
  | StopsAll (k : string)
  | Derives (parent : Context).

(** The upstream [up], found under [u], with the tracker as a call left
    it. *)
Definition set_tracker (m : Manager) (u : string) (up : Upstream)
    (t : Tracker) : Manager :=
  mkManager
    (<[u := mkUpstream (Name up) (Status up) t (heartbeats up)]>
       (Upstreams m))
    (BackendStatuses m) (healthEventsClosed m).

(** A registered closure runs: the closure of [trackCtx] that removes a
    handle does so in the tracker it was made for, which is the tracker
    of the upstream of that name. *)
Definition run_closure (w : world) (id : nat) : world :=
  match runnable w.2 id with
  | None => w
  | Some (PropagateBackendCancel backend effective) =>
      let st1 := stop w.2 id in
      (w.1,
       match Cause st1 backend with
       | Some e => Ctx.cancel st1 effective e
       | None => st1
       end)
  | Some (RemoveTrackedConn name outer a) =>
      let m := manager w.1 in
      (mkLC (ratelimit w.1)
            match Upstreams m !! name with
            | Some up =>
                set_tracker m name up (removeTrackedConn (tracker up) outer a)
            | None => m
            end,
       stop w.2 id)
  end.

Definition step (x : act) (w : world) : world :=
  match x with
  | Receives e =>
      let s := Receiver.receive (manager w.1, w.2) e in
      (mkLC (ratelimit w.1) s.1, s.2)
  | Limits key now =>
      (mkLC (rateLimit (ratelimit w.1) key now).2 (manager w.1), w.2)
  | Picks u parent order =>
      match Upstreams (manager w.1) !! u with
      | Some up =>
          let r := NextWithContext (tracker up) w.2 parent order in
          (mkLC (ratelimit w.1) (set_tracker (manager w.1) u up r.1.2), r.2)
      | None => w
      end
  | Stops id => (w.1, stop w.2 id)
  | Cancels c cause => (w.1, Ctx.cancel w.2 c cause)
  | Runs id => run_closure w id
  | Closes =>
      (mkLC (ratelimit w.1) (Startup.close_healthEvents (manager w.1)), w.2)
  | StopsAll k =>
      (mkLC (ratelimit w.1) (Startup.StopAll_of (manager w.1) k), w.2)
  | Derives parent => (w.1, (WithCancelCause w.2 parent).2)
  end.

(** The only [stop] function the program keeps is the one of a backend
    subscription: [trackCtx] drops the one of the removal closure. *)
Definition allowed (x : act) (w : world) : bool :=
  match x with
  | Stops id =>
      match afterFuncs w.2 !! id with
      | Some (_, RemoveTrackedConn _ _ _) => false
      | _ => true
      end
  | _ => true
  end.

(** A schedule: the steps in the order in which they are taken. *)
Fixpoint run (acts : list act) (w : world) : world :=
  match acts with
  | [] => w
  | x :: acts' => run acts' (step x w)
  end.

Fixpoint can_run (acts : list act) (w : world) : bool :=
  match acts with
  | [] => true
  | x :: acts' => allowed x w && can_run acts' (step x w)
  end.

(** The trackers carry the names under which their upstreams are stored,
    as [NewUpstream] and [LoadUpstreamFromConfig] make them. *)
Definition named (m : Manager) : Prop :=
  forall (k : string) (up : Upstream),
    Upstreams m !! k = Some up -> UpstreamName (tracker up) = k.

(** The context [outer] is in no active set of the upstream [u]. *)
Definition uncounted (u : string) (outer : Context) (w : world) : Prop :=
  forall up : Upstream,
    Upstreams (manager w.1) !! u = Some up -> untracked (tracker up) outer.

(** Nothing is lost from one store to the next: identities are not
    reused, registrations below the next identity are kept, and a
    context that is done stays done. *)
Definition grows (st st' : store) : Prop :=
  (next st <= next st')%nat /\
  (forall id : nat,
     (id < next st)%nat -> afterFuncs st' !! id = afterFuncs st !! id) /\
  (forall x : Context,
     is_Some (cause_of st !! x) -> is_Some (cause_of st' !! x)).

(** [outer] is counted in [t'] only where it was counted in [t]. *)
Definition counts_no_more (outer : Context) (t t' : Tracker) : Prop :=
  UpstreamName t' = UpstreamName t /\
  forall (b : string) (s : activeConns),
    healthyBackends t' !! b = Some s -> outer ∈ s ->
    exists s0 : activeConns, healthyBackends t !! b = Some s0 /\ outer ∈ s0.

(** A step that is not a call of [NextWithContext] for the upstream [k]
    with the context [outer]. *)
Definition harmless (outer : Context) (k : string) (x : act) : Prop :=
  match x with
  | Picks u' parent _ => u' = k -> parent <> outer
  | _ => True
  end.

(** No other call for the upstream [u] is given the context [outer]. *)
Definition request_scoped (u : string) (outer : Context) (acts : list act)
  : Prop :=
  Forall (harmless outer u) acts.

Section Connection.
(** A connection: its upstream, the context of the caller, the backend,
    the derived context and the registration of the removal closure. *)
Variables (u : string) (outer : Context) (a : string) (c : Context)
          (h : nat).

(** The removal closure of the connection is still registered. *)
Definition pending (st : store) : Prop :=
  afterFuncs st !! h = Some (c, RemoveTrackedConn u outer a).

(** The removal closure is registered until it runs, and nothing else
    takes it away. *)
Definition kept (past : list act) (w : world) : Prop :=
  named (manager w.1) /\
  is_Some (Upstreams (manager w.1) !! u) /\
  (h < next w.2)%nat /\
  (pending w.2 \/ (afterFuncs w.2 !! h = None /\ Runs h ∈ past)).

(** The context of the caller is counted for the backend of the
    connection only, and only while the removal closure is registered. *)
Definition counted_while_pending (w : world) : Prop :=
  forall (up : Upstream) (b : string) (s : activeConns),
    Upstreams (manager w.1) !! u = Some up ->
    healthyBackends (tracker up) !! b = Some s ->
    outer ∈ s -> b = a /\ pending w.2.

End Connection.

End Schedule.

(* ===================================================================== *)
(** * The health checker and the splice step *)
(* ===================================================================== *)
Module HealthFacts.
Import Errors Health.

(** A dial that ended because the context was cancelled is reported as a
    failed check without an error. *)
Lemma Check_canceled_suppressed (h : TCP) :
  stat (fst (Check h CtxCanceled)) = FAILED /\
  err (fst (Check h CtxCanceled)) = None.
Proof. split; reflexivity. Qed.

(** A dial error that does not match [context.Canceled] is returned with
    the failed status. *)
Lemma Check_dial_error_kept (h : TCP) (e : error) :
  Is_sentinel e Canceled_msg = false ->
  stat (fst (Check h (DialFailed e))) = FAILED /\
  err (fst (Check h (DialFailed e))) = Some e.
Proof.
  intros Hne. unfold Check; cbn [dial_error fst stat err Is].
  rewrite Hne. split; reflexivity.
Qed.

(** The status a check returns is the status the checker remembers, and
    [changed] tells whether it differs from the one remembered before. *)
Lemma Check_changed (h : TCP) (d : dialResult) :
  status (snd (Check h d)) = stat (fst (Check h d)) /\
  (changed (fst (Check h d)) = true <-> status h <> stat (fst (Check h d))).
Proof.
  unfold Check; cbn [fst snd stat status changed]. split; [reflexivity|].
  destruct (status h), (dial_error d); cbn; split; intros; congruence.
Qed.

(** C6, at the failing input: when the dial fails because the deadline of
    the context has passed, [Check] returns the failed status together
    with the dial error; the error is not suppressed, since it matches
    [context.DeadlineExceeded] and not [context.Canceled]. *)
Theorem Check_timeout_error_returned (h : TCP) :
  stat (fst (Check h CtxTimedOut)) = FAILED /\
  err (fst (Check h CtxTimedOut))
    = Some (Wrap "dial tcp" context_DeadlineExceeded) /\
  Is (dial_error CtxTimedOut) DeadlineExceeded_msg = true /\
  Is (dial_error CtxTimedOut) Canceled_msg = false.
Proof. repeat split; reflexivity. Qed.

End HealthFacts.

Module ForwarderFacts.
Import Errors Forwarder.

(** [errors.Join] is nil only when every argument is nil. *)
Lemma Join_two_nil (first second : option error) :
  Join [first; second] = None <-> first = None /\ second = None.
Proof.
  destruct first, second; cbn; split; try discriminate; try tauto;
    intros [? ?]; discriminate.
Qed.

(** A failed dial is returned as it is. *)
Lemma fwd_dial_error (e : error) (first second : option error) :
  fwd (Some e) first second = Some e.
Proof. reflexivity. Qed.

(** The result of [fwd] is decided by the first error received alone. *)
Lemma fwd_first_only (first second second' : option error) :
  fwd None first second = fwd None first second'.
Proof. reflexivity. Qed.

(** C5, at the failing inputs: after both copies have reported, [fwd]
    returns nil when the first report is nil although the second one is an
    error, where the join of the two is not nil; and when both copies
    failed it returns the first error wrapped, for every second error. *)
Theorem fwd_drops_second_error (e1 e2 : error) :
  fwd None None (Some e2) = None /\
  joined_copy_errors None (Some e2) = Some (Joined [e2]) /\
  fwd None (Some e1) (Some e2)
    = Some (Wrap "failed to forward connection" e1) /\
  joined_copy_errors (Some e1) (Some e2) = Some (Joined [e1; e2]).
Proof. repeat split; reflexivity. Qed.

End ForwarderFacts.

(* ===================================================================== *)
(** * The policy and the connection handler *)
(* ===================================================================== *)
Module PolicyFacts.
Import Errors Policy.

Lemma find_tag_elem_of (tags : list string) (o : string) :
  find_tag tags o = true <-> o ∈ tags.
Proof.
  induction tags as [|t tags IH]; cbn.
  - split; [discriminate | intros H; inversion H].
  - case_decide as Heq.
    + subst. split; [intros _; left | reflexivity].
    + rewrite IH. split; [intros H; right; exact H |].
      intros H. apply elem_of_cons in H as [H|H]; [congruence | exact H].
Qed.

(** C8: [query] allows, with a nil error, exactly when the OU is one of
    the tags configured for the upstream; for an upstream that is not
    configured it returns false with an error; in every other case it
    returns false with a nil error. *)
Theorem query_allows_iff_tagged (p : policyEnforcer) (q : policyQuery) :
  (query p q = (true, None) <->
     exists tags, upstreamTags p !! upstream q = Some tags /\ ou q ∈ tags) /\
  (upstreamTags p !! upstream q = None ->
     exists e, query p q = (false, Some e)) /\
  (forall tags, upstreamTags p !! upstream q = Some tags -> ou q ∉ tags ->
     query p q = (false, None)).
Proof.
  unfold query. destruct (upstreamTags p !! upstream q) as [tags|] eqn:Hup.
  - destruct (find_tag tags (ou q)) eqn:Hf.
    + apply find_tag_elem_of in Hf. repeat split.
      * intros _. exists tags. split; [reflexivity | exact Hf].
      * discriminate.
      * intros tags' [= <-] Hn. contradiction.
    + assert (Hn : ou q ∉ tags).
      { intros Hin. apply find_tag_elem_of in Hin. congruence. }
      repeat split.
      * discriminate.
      * intros (tags' & [= <-] & Hin). contradiction.
      * discriminate.
  - repeat split.
    + discriminate.
    + intros (tags & Hs & _). discriminate.
    + intros _. eexists. reflexivity.
    + intros tags Hs. discriminate.
Qed.

(** A row of the authorization matrix of the server tests. *)
Example matrix_dba :
  query test_policy (mkQuery "dba" "dba" "db") = (true, None) /\
  query test_policy (mkQuery "dba" "dba" "web") = (false, None) /\
  query test_policy (mkQuery "dba" "dba" "telemetry") = (false, None).
Proof. repeat split; vm_compute; reflexivity. Qed.

End PolicyFacts.

Module SrvFacts.
Import Errors Policy Srv.

(** C9 as stated fails: with an empty CommonName and the OU [sre] the
    extraction returns a nil error, and the connection is forwarded with
    the empty user as rate limiter key. *)
Lemma extract_accepts_empty_CN :
  CommonName (Subject (mkCert (mkName "" ["sre"]))) = ""%string /\
  extractCertSubjFromConn no_CN = Ret (""%string, "sre"%string, None) /\
  handleConn web (TLSConn no_CN)
    = Ret (Forwarded (mkFwdInfo "web" (TLSConn no_CN) "")).
Proof. repeat split; vm_compute; reflexivity. Qed.

(** C9, amended: for a peer certificate, the extraction returns an error
    exactly when the list of OUs is empty, whatever the CommonName is; and
    then [handleConn] returns an error without calling [Forward]. *)
Theorem extract_fails_iff_no_OU (conn : tlsConn) (cert : Certificate)
    (rest : list Certificate) :
  PeerCertificates conn = cert :: rest ->
  ((exists user o e, extractCertSubjFromConn conn = Ret (user, o, Some e))
     <-> OrganizationalUnit (Subject cert) = []) /\
  (OrganizationalUnit (Subject cert) = [] ->
     forall d, exists e, handleConn d (TLSConn conn) = Ret (Dropped e)).
Proof.
  intros Hpeer. split.
  - unfold extractCertSubjFromConn. rewrite Hpeer.
    destruct (OrganizationalUnit (Subject cert)) as [|o os]; split.
    + reflexivity.
    + intros _. do 3 eexists. reflexivity.
    + intros (user & o' & e & [=]).
    + discriminate.
  - intros Hou d. unfold handleConn, verifyTLS.
    destruct (handshake conn) as [e|]; [eexists; reflexivity|].
    unfold extractCertSubjFromConn. rewrite Hpeer, Hou.
    eexists; reflexivity.
Qed.

Lemma extract_fails_iff_no_OU_witness :
  PeerCertificates (mkTLS None [mkCert (mkName "" [])])
    = mkCert (mkName "" []) :: [] /\
  forall d, exists e,
    handleConn d (TLSConn (mkTLS None [mkCert (mkName "" [])]))
      = Ret (Dropped e).
Proof.
  split; [reflexivity|].
  apply (extract_fails_iff_no_OU (mkTLS None [mkCert (mkName "" [])])
           (mkCert (mkName "" [])) []); reflexivity.
Defined.

End SrvFacts.

(* ===================================================================== *)
(** * The per-client rate limiter *)
(* ===================================================================== *)
Module RateLimitFacts.
Import Errors Rate RateLimit.

Section ZeroRefill.
Variable N : Z.
Hypothesis N_nonneg : 0 <= N.
Variable k : string.

Lemma refill_zero (lim : Limiter) (now c : Z) :
  0 <= c -> burst lim = N ->
  (tokens lim == inject_Z (Z.max 0 (N - c)))%Q ->
  (refill lim 0%Q now == inject_Z (Z.max 0 (N - c)))%Q.
Proof.
  intros Hc Hb Ht. unfold refill.
  set (el := (inject_Z (Z.max 0 (now - last lim)) / inject_Z 1000000000)%Q).
  assert (Hsum : (tokens lim + el * 0 == inject_Z (Z.max 0 (N - c)))%Q).
  { rewrite Ht. ring. }
  destruct (Qle_bool _ _) eqn:Hle; [exact Hsum|].
  exfalso. apply not_true_iff_false in Hle. apply Hle.
  apply Qle_bool_iff. rewrite Hsum, Hb. rewrite <- Zle_Qle. lia.
Qed.

(** A call with the key [k]: it is allowed exactly when fewer than [N]
    calls were made before, and it counts as one more call. *)
Lemma rateLimit_same (c now : Z) (rl : perClientRateLimiter) :
  0 <= c -> bucket_after N k c rl ->
  (fst (rateLimit rl k now) = None <-> c < N) /\
  bucket_after N k (c + 1) (snd (rateLimit rl k now)).
Proof.
  intros Hc (Hmax & Hrate & Hb).
  assert (Hlim : exists lim,
    getRL rl k = (lim, mkRL (maxTokens rl) (tokenRefillPerSecond rl)
                            (<[k := lim]> (clientRL rl))) /\
    limit lim = PerSecond 0%Q /\ burst lim = N /\
    (tokens lim == inject_Z (Z.max 0 (N - c)))%Q).
  { unfold getRL. destruct (clientRL rl !! k) as [lim|] eqn:Hk.
    - exists lim. split; [|exact Hb].
      rewrite insert_id by exact Hk. destruct rl; reflexivity.
    - subst c. eexists. split; [reflexivity|].
      cbn. rewrite Hrate, Hmax. repeat split; try reflexivity.
      rewrite Z.sub_0_r, Z.max_r by lia. reflexivity. }
  destruct Hlim as (lim & Hget & Hl & Hbu & Ht).
  unfold rateLimit. rewrite Hget. unfold Allow. rewrite Hl.
  pose proof (refill_zero lim now c Hc Hbu Ht) as Hr.
  destruct (Qle_bool 1 (refill lim 0%Q now)) eqn:Hone; cbn.
  - apply Qle_bool_iff in Hone. rewrite Hr in Hone.
    change 1%Q with (inject_Z 1) in Hone. rewrite <- Zle_Qle in Hone.
    split; [split; [lia | reflexivity]|].
    split; [exact Hmax|]. split; [exact Hrate|].
    cbn [clientRL]. rewrite lookup_insert_eq. cbn.
    repeat split; try assumption.
    rewrite Hr. rewrite !Z.max_r by lia.
    unfold Qminus. change (- (1))%Q with (inject_Z (-1)).
    rewrite <- inject_Z_plus. apply inject_Z_injective. lia.
  - apply not_true_iff_false in Hone. rewrite Qle_bool_iff, Hr in Hone.
    change 1%Q with (inject_Z 1) in Hone. rewrite <- Zle_Qle in Hone.
    split; [split; [discriminate | lia]|].
    split; [exact Hmax|]. split; [exact Hrate|].
    cbn [clientRL]. rewrite lookup_insert_eq. cbn.
    repeat split; try assumption.
    rewrite Hr. apply inject_Z_injective. lia.
Qed.

(** A call with another key leaves the bucket of [k] as it is. *)
Lemma rateLimit_other (c now : Z) (k' : string)
    (rl : perClientRateLimiter) :
  k' <> k -> bucket_after N k c rl ->
  bucket_after N k c (snd (rateLimit rl k' now)).
Proof.
  intros Hne (Hmax & Hrate & Hb). unfold rateLimit, getRL.
  destruct (clientRL rl !! k') as [lim|];
    destruct (Allow _ now) as [[] lim']; cbn;
    (split; [exact Hmax|]; split; [exact Hrate|]);
    cbn [clientRL]; rewrite ?lookup_insert_ne by exact Hne; exact Hb.
Qed.

Lemma rateLimits_bucket (calls : list (string * Z)) :
  forall (c : Z) (rl : perClientRateLimiter),
    0 <= c -> bucket_after N k c rl ->
    bucket_after N k (c + calls_with k calls) (snd (rateLimits rl calls)).
Proof.
  induction calls as [|[k' now] calls IH]; intros c rl Hc Hb.
  - cbn. unfold calls_with; cbn. rewrite Z.add_0_r. exact Hb.
  - cbn [rateLimits].
    destruct (rateLimit rl k' now) as [e rl1] eqn:Hcall.
    destruct (rateLimits rl1 calls) as [es rl2] eqn:Hrest. cbn [snd].
    change rl2 with (snd (es, rl2)). rewrite <- Hrest.
    unfold calls_with. rewrite filter_cons. cbn [fst].
    destruct (decide (k' = k)) as [->|Hne].
    + replace rl1 with (snd (rateLimit rl k now)) by (rewrite Hcall; done).
      cbn [length]. rewrite Nat2Z.inj_succ.
      replace (c + Z.succ (Z.of_nat (length (filter (fun c0 => c0.1 = k) calls))))
        with ((c + 1) + calls_with k calls) by (unfold calls_with; lia).
      apply IH; [lia|]. apply rateLimit_same; assumption.
    + replace rl1 with (snd (rateLimit rl k' now)) by (rewrite Hcall; done).
      apply IH; [lia|]. apply rateLimit_other; assumption.
Qed.

End ZeroRefill.

(** C7: with [maxTokens = N], a refill of 0 and no bucket yet for [k],
    after any calls, with any keys and at any times, the next call with
    [k] is allowed exactly when fewer than [N] of the earlier calls were
    made with [k].  So the first [N] calls with [k] return nil, the next
    one returns the error, and calls with other keys do not count. *)
Theorem rateLimit_allows_first_N (N : Z) (rl : perClientRateLimiter)
    (k : string) (calls : list (string * Z)) (now : Z) :
  0 <= N ->
  maxTokens rl = N ->
  tokenRefillPerSecond rl = PerSecond 0%Q ->
  clientRL rl !! k = None ->
  (fst (rateLimit (snd (rateLimits rl calls)) k now) = None
     <-> calls_with k calls < N) /\
  (calls_with k calls = N ->
     exists e, fst (rateLimit (snd (rateLimits rl calls)) k now) = Some e).
Proof.
  intros HN Hmax Hrate Hk.
  assert (H0 : bucket_after N k 0 rl).
  { split; [exact Hmax|]. split; [exact Hrate|]. rewrite Hk. reflexivity. }
  pose proof (rateLimits_bucket N HN k calls 0 rl (Z.le_refl 0) H0) as Hb.
  rewrite Z.add_0_l in Hb.
  assert (Hc : 0 <= calls_with k calls) by (unfold calls_with; lia).
  destruct (rateLimit_same N HN k _ now _ Hc Hb) as [Hiff _].
  split; [exact Hiff|].
  intros Heq. destruct (fst (rateLimit _ k now)) as [e|] eqn:He.
  - exists e. reflexivity.
  - exfalso. assert (calls_with k calls < N) by (apply Hiff; reflexivity). lia.
Qed.

Lemma rateLimit_allows_first_N_witness :
  fst (rateLimit (snd (rateLimits test_rl
         [("bob"%string, 0); ("wendy"%string, 1); ("bob"%string, 2)]))
       "bob" 3) = None.
Proof.
  apply (rateLimit_allows_first_N 3 test_rl "bob"
           [("bob"%string, 0); ("wendy"%string, 1); ("bob"%string, 2)] 3).
  - lia.
  - reflexivity.
  - reflexivity.
  - reflexivity.
  - vm_compute. reflexivity.
Defined.

(** [TestPerClientRateLimiter]: three calls for bob pass, the fourth is
    refused, and the first call for wendy passes. *)
Example test_per_client_rate_limiter :
  fst (rateLimits test_rl
         [("bob"%string, 0); ("bob"%string, 0); ("bob"%string, 0);
          ("bob"%string, 0); ("wendy"%string, 0)])
  = [None; None; None;
     Some (New "user with key 'bob' has exceeded maximum rate limit 3");
     None].
Proof. vm_compute. reflexivity. Qed.

End RateLimitFacts.

(* ===================================================================== *)
(** * The connection tracker *)
(* ===================================================================== *)
Module TrackerFacts.
Import Errors Ctx Tracker.

(** ** The loop of [leastConnections] *)

(** What the loop has found after ranging over [order], when it started
    from the choice [c0] and the minimum [m0]: either nothing was below
    [m0] and the start is kept, or the choice is the first entry of
    smallest size. *)
Lemma least_step_unfold (c0 b : string) (m0 : Z) (s : activeConns) :
  least_step (c0, m0) (b, s)
  = if decide (Z.of_nat (size s) < m0) then (b, Z.of_nat (size s))
    else (c0, m0).
Proof. reflexivity. Qed.

Lemma least_loop (order : list (string * activeConns)) :
  forall (c0 : string) (m0 : Z),
    let r := fold_left least_step order (c0, m0) in
    (r = (c0, m0) /\ forall e, e ∈ order -> m0 <= Z.of_nat (size e.2)) \/
    (r.2 < m0 /\
     exists pre post s,
       order = pre ++ (r.1, s) :: post /\ r.2 = Z.of_nat (size s) /\
       (forall e, e ∈ pre -> (size s < size e.2)%nat) /\
       (forall e, e ∈ post -> (size s <= size e.2)%nat)).
Proof.
  induction order as [|[b s] order IH]; intros c0 m0; cbn zeta.
  - left. split; [reflexivity|]. intros e He. inversion He.
  - cbn [fold_left]. rewrite least_step_unfold.
    destruct (decide (Z.of_nat (size s) < m0)) as [Hlt|Hge].
    + right. destruct (IH b (Z.of_nat (size s))) as [[Hr Hall]|[Hlt' Hex]].
      * rewrite Hr. cbn [fst snd]. split; [exact Hlt|].
        exists [], order, s. repeat split.
        -- intros e He. inversion He.
        -- intros e He. specialize (Hall e He). lia.
      * split; [lia|].
        destruct Hex as (pre & post & s1 & Hord & Hm & Hpre & Hpost).
        exists ((b, s) :: pre), post, s1. repeat split.
        -- rewrite Hord at 1. reflexivity.
        -- exact Hm.
        -- intros e He. apply elem_of_cons in He as [->|He].
           ++ cbn [snd]. lia.
           ++ apply Hpre, He.
        -- exact Hpost.
    + destruct (IH c0 m0) as [[Hr Hall]|[Hlt' Hex]].
      * left. split; [exact Hr|].
        intros e He. apply elem_of_cons in He as [->|He].
        -- cbn [snd]. lia.
        -- apply Hall, He.
      * right. split; [exact Hlt'|].
        destruct Hex as (pre & post & s1 & Hord & Hm & Hpre & Hpost).
        exists ((b, s) :: pre), post, s1. repeat split.
        -- rewrite Hord at 1. reflexivity.
        -- exact Hm.
        -- intros e He. apply elem_of_cons in He as [->|He].
           ++ cbn [snd]. lia.
           ++ apply Hpre, He.
        -- exact Hpost.
Qed.

(** When no entry is below the starting minimum, the choice is the empty
    string. *)
Lemma leastConnections_none_below (order : list (string * activeConns)) :
  (forall e, e ∈ order -> MaxInt32 <= Z.of_nat (size e.2)) ->
  leastConnections order = ""%string.
Proof.
  intros Hall. unfold leastConnections.
  destruct (least_loop order "" MaxInt32) as [[Hr _]|[Hlt Hex]].
  - rewrite Hr. reflexivity.
  - exfalso.
    destruct Hex as (pre & post & s & Hord & Hm & _).
    assert (Hin : (((fold_left least_step order (""%string, MaxInt32)).1, s)
                    : string * activeConns) ∈ order).
    { rewrite Hord at 2. apply elem_of_app. right. left. }
    specialize (Hall _ Hin). cbn [snd] in Hall. lia.
Qed.

(** When some entry is below the starting minimum, the choice is the first
    entry of smallest size. *)
Lemma leastConnections_first_least (order : list (string * activeConns)) :
  (exists e, e ∈ order /\ Z.of_nat (size e.2) < MaxInt32) ->
  first_least order (leastConnections order).
Proof.
  intros (e & He & Hlt). unfold leastConnections, first_least.
  destruct (least_loop order "" MaxInt32) as [[_ Hall]|[_ Hex]].
  - specialize (Hall e He). lia.
  - destruct Hex as (pre & post & s & Hord & _ & Hpre & Hpost).
    exists pre, post, s. auto.
Qed.

(** The entries of a range over the map are the entries of the map. *)
Lemma range_of_lookup (hb : gmap string activeConns)
    (order : list (string * activeConns)) (a : string) (s : activeConns) :
  range_of hb order -> ((a, s) ∈ order <-> hb !! a = Some s).
Proof.
  intros Hr. unfold range_of in Hr. rewrite Hr.
  apply elem_of_map_to_list.
Qed.

Lemma first_least_least_loaded (hb : gmap string activeConns)
    (order : list (string * activeConns)) (a : string) :
  range_of hb order -> first_least order a -> least_loaded hb a.
Proof.
  intros Hr (pre & post & s & Hord & Hpre & Hpost). exists s. split.
  - apply (range_of_lookup hb order a s Hr). rewrite Hord.
    apply elem_of_app. right. left.
  - intros b s' Hb. apply (range_of_lookup hb order b s' Hr) in Hb.
    rewrite Hord in Hb. apply elem_of_app in Hb as [Hb|Hb].
    + specialize (Hpre _ Hb). cbn in Hpre. lia.
    + apply elem_of_cons in Hb as [[= -> ->]|Hb]; [lia|].
      specialize (Hpost _ Hb). cbn in Hpost. exact Hpost.
Qed.

Lemma below_sentinel_order (hb : gmap string activeConns)
    (order : list (string * activeConns)) :
  range_of hb order -> below_sentinel hb ->
  exists e, e ∈ order /\ Z.of_nat (size e.2) < MaxInt32.
Proof.
  intros Hr (a & s & Ha & Hlt). exists (a, s). split; [|exact Hlt].
  apply (range_of_lookup hb order a s Hr). exact Ha.
Qed.

(** The choice is a least loaded healthy backend. *)
Lemma leastConnections_least_loaded (hb : gmap string activeConns)
    (order : list (string * activeConns)) :
  range_of hb order -> below_sentinel hb ->
  least_loaded hb (leastConnections order).
Proof.
  intros Hr Hb. apply (first_least_least_loaded hb order); [exact Hr|].
  apply leastConnections_first_least, (below_sentinel_order hb); assumption.
Qed.

(** ** [NextWithContext] *)

Lemma same_addresses_canceler (t : Tracker) (a : string) (s : activeConns) :
  same_addresses t -> healthyBackends t !! a = Some s ->
  exists b, backendCanceler t !! a = Some b.
Proof.
  intros Hsame Ha.
  assert (Hin : a ∈ dom (backendCanceler t)).
  { apply Hsame, elem_of_dom. exists s. exact Ha. }
  apply elem_of_dom in Hin as [b Hb]. exists b. exact Hb.
Qed.

(** With no healthy backend the call returns the error and changes
    nothing. *)
Lemma NextWithContext_not_ready (t : Tracker) (st : store) (parent : Context)
    (order : list (string * activeConns)) :
  healthyBackends t = ∅ ->
  NextWithContext t st parent order
  = (Ret (mkNext "" None None (Some ErrUpstreamNotReady)), t, st).
Proof.
  intros Hempty. unfold NextWithContext. rewrite Hempty, map_size_empty.
  reflexivity.
Qed.

(** With a healthy backend the call does not return an error. *)
Lemma NextWithContext_ready (t : Tracker) (st : store) (parent : Context)
    (order : list (string * activeConns)) (r : nextResult) (t' : Tracker)
    (st' : store) :
  healthyBackends t <> ∅ ->
  NextWithContext t st parent order = (Ret r, t', st') -> err r = None.
Proof.
  intros Hne. unfold NextWithContext.
  destruct (decide (size (healthyBackends t) = 0%nat)) as [H0|_].
  { apply map_size_empty_iff in H0. contradiction. }
  destruct (healthyBackends t !! leastConnections order); [|discriminate].
  destruct (backendCanceler _ !! leastConnections order); [|discriminate].
  destruct (trackCtx _ _ _ _ _) as [[c f] st1].
  intros [= <- _ _]. reflexivity.
Qed.

(** A call that finds the chosen address in both maps returns it, with a
    derived context and its cancel function, and has added the parent to
    the active set of that address. *)
Lemma NextWithContext_chosen (t : Tracker) (st : store) (parent : Context)
    (order : list (string * activeConns)) (s : activeConns) (b : backendCtx) :
  healthyBackends t <> ∅ ->
  healthyBackends t !! leastConnections order = Some s ->
  backendCanceler t !! leastConnections order = Some b ->
  exists c f st',
    NextWithContext t st parent order
    = (Ret (mkNext (leastConnections order) (Some c) (Some f) None),
       set_healthyBackends t
         (<[leastConnections order := {[parent]} ∪ s]> (healthyBackends t)),
       st').
Proof.
  intros Hne Hs Hb. unfold NextWithContext.
  destruct (decide (size (healthyBackends t) = 0%nat)) as [H0|_].
  { apply map_size_empty_iff in H0. contradiction. }
  rewrite Hs. cbn [backendCanceler set_healthyBackends]. rewrite Hb.
  destruct (trackCtx _ _ _ _ _) as [[c f] st1].
  exists c, f, st1. reflexivity.
Qed.


Lemma same_addresses_dom (t : Tracker) :
  dom (healthyBackends t) = dom (backendCanceler t) -> same_addresses t.
Proof. intros Heq a. rewrite Heq. reflexivity. Qed.


(** ** Invariant 1: the same addresses in both maps *)

Lemma TrackBackend_dom (t : Tracker) (st : store) (a : string) :
  dom (healthyBackends t) = dom (backendCanceler t) ->
  dom (healthyBackends (TrackBackend t st a).1)
  = dom (backendCanceler (TrackBackend t st a).1).
Proof.
  intros Heq. unfold TrackBackend.
  destruct (healthyBackends t !! a); [exact Heq|].
  destruct (WithCancelCause st (Ctx t)) as [c st'].
  cbn [fst healthyBackends backendCanceler].
  rewrite !dom_insert_L, Heq. reflexivity.
Qed.

Lemma UntrackBackend_dom (t : Tracker) (st : store) (a : string)
    (e : option error) :
  dom (healthyBackends t) = dom (backendCanceler t) ->
  dom (healthyBackends (UntrackBackend t st a e).1.2)
  = dom (backendCanceler (UntrackBackend t st a e).1.2).
Proof.
  intros Heq. unfold UntrackBackend.
  destruct (backendCanceler t !! a); [|exact Heq].
  destruct e; [|exact Heq].
  cbn [fst snd healthyBackends backendCanceler].
  rewrite !dom_delete_L, Heq. reflexivity.
Qed.

(** [NextWithContext] changes no key of either map, whatever the
    iteration order and whether it returns or panics. *)
Lemma NextWithContext_keys (t : Tracker) (st : store) (parent : Context)
    (order : list (string * activeConns)) :
  dom (healthyBackends (NextWithContext t st parent order).1.2)
  = dom (healthyBackends t) /\
  backendCanceler (NextWithContext t st parent order).1.2
  = backendCanceler t.
Proof.
  unfold NextWithContext.
  destruct (decide (size (healthyBackends t) = 0%nat)); [done|].
  destruct (healthyBackends t !! leastConnections order) as [s|] eqn:Hs;
    [|done].
  assert (Hdom : dom (<[leastConnections order := {[parent]} ∪ s]>
                        (healthyBackends t)) = dom (healthyBackends t)).
  { apply dom_insert_lookup_L. exists s. exact Hs. }
  cbn [backendCanceler set_healthyBackends].
  destruct (backendCanceler t !! leastConnections order); [|done].
  destruct (trackCtx _ _ _ _ _) as [[c f] st1]. done.
Qed.

Lemma removeTrackedConn_dom (t : Tracker) (c : Context) (a : string) :
  dom (healthyBackends (removeTrackedConn t c a)) = dom (healthyBackends t) /\
  backendCanceler (removeTrackedConn t c a) = backendCanceler t.
Proof.
  unfold removeTrackedConn; cbn [healthyBackends backendCanceler
                                 set_healthyBackends].
  split; [apply dom_alter_L | reflexivity].
Qed.

Lemma exec_dom (o : op) (s : Tracker * store) :
  dom (healthyBackends s.1) = dom (backendCanceler s.1) ->
  dom (healthyBackends (exec o s).1) = dom (backendCanceler (exec o s).1).
Proof.
  destruct s as [t st]; cbn [fst]. intros Heq. destruct o; cbn [exec].
  - apply TrackBackend_dom, Heq.
  - pose proof (UntrackBackend_dom t st a e Heq) as H.
    destruct (UntrackBackend t st a e) as [[r t'] st']. exact H.
  - destruct (NextWithContext_keys t st parent order) as [Hd Hc].
    destruct (NextWithContext t st parent order) as [[r t'] st'].
    cbn [fst snd] in *. rewrite Hd, Hc. exact Heq.
  - cbn [fst]. destruct (removeTrackedConn_dom t c a) as [Hd Hc].
    rewrite Hd, Hc. exact Heq.
  - exact Heq.
Qed.

Lemma reachable_dom (s : Tracker * store) :
  reachable s -> dom (healthyBackends s.1) = dom (backendCanceler s.1).
Proof.
  induction 1 as [st parent upstream | st name | s o _ IH _].
  - unfold NewTracker. destruct (WithCancelCause st parent) as [c st'].
    cbn. rewrite !dom_empty_L. reflexivity.
  - cbn. rewrite !dom_empty_L. reflexivity.
  - apply exec_dom, IH.
Qed.

(** C2: in every state a tracker reaches from [NewTracker] (or from the
    literal of [NewUpstream]) by [TrackBackend], [UntrackBackend],
    [NextWithContext], [removeTrackedConn] and [BackendActiveConns], an
    address is a key of [healthyBackends] if and only if it is a key of
    [backendCanceler]; and every operation keeps the equivalence. *)
Theorem reachable_same_addresses :
  (forall s : Tracker * store, reachable s -> same_addresses s.1) /\
  (forall (o : op) (s : Tracker * store),
     same_addresses s.1 -> same_addresses (exec o s).1).
Proof.
  split.
  - intros s Hs. apply same_addresses_dom, reachable_dom, Hs.
  - intros o s Hsame. apply same_addresses_dom, exec_dom.
    apply set_eq. exact Hsame.
Qed.


(** ** The least loaded backend *)

Lemma leastConnections_singleton (a : string) (s : activeConns) :
  Z.of_nat (size s) < MaxInt32 -> leastConnections [(a, s)] = a.
Proof.
  intros Hlt. unfold leastConnections. cbn [fold_left].
  rewrite least_step_unfold. destruct (decide _); [reflexivity | lia].
Qed.

(** A backend takes one connection after the other as long as it has
    fewer than [MaxInt32] of them: every tracker with one backend and at
    most [MaxInt32] connections is reached. *)
Lemma one_backend_reachable (n : nat) :
  Z.of_nat n <= MaxInt32 -> exists st, reachable (one_backend n, st).
Proof.
  induction n as [|n IH]; intros Hn.
  - exists (exec (OpTrackBackend "a")
              (NewTracker empty_store Background "test")).2.
    assert (Heq : exec (OpTrackBackend "a")
                    (NewTracker empty_store Background "test")
                  = (one_backend 0,
                     (exec (OpTrackBackend "a")
                        (NewTracker empty_store Background "test")).2))
      by (vm_compute; reflexivity).
    rewrite <- Heq.
    apply reachable_exec; [apply reachable_NewTracker | exact I].
  - destruct IH as [st Hreach]; [lia|].
    assert (Hposs : possible (OpNextWithContext n [("a"%string, set_seq 0 n)])
                             (one_backend n, st)).
    { cbn. unfold range_of. rewrite map_to_list_singleton. reflexivity. }
    pose proof (reachable_exec _ _ Hreach Hposs) as Hstep.
    cbn [exec] in Hstep.
    assert (Hne : healthyBackends (one_backend n) <> ∅).
    { cbn. intros H. apply (f_equal (fun m => m !! "a"%string)) in H.
      rewrite lookup_singleton_eq, lookup_empty in H. discriminate. }
    assert (Hlc : leastConnections [("a"%string, set_seq 0 n : activeConns)]
                  = "a"%string).
    { apply leastConnections_singleton. rewrite size_set_seq. lia. }
    destruct (NextWithContext_chosen (one_backend n) st n
                [("a"%string, set_seq 0 n)] (set_seq 0 n)
                (mkBackendCtx 2%nat 2%nat) Hne)
      as (c & f & st' & Hcall).
    { rewrite Hlc. apply lookup_singleton_eq. }
    { rewrite Hlc. apply lookup_singleton_eq. }
    rewrite Hcall, Hlc in Hstep. exists st'.
    replace (one_backend (S n))
      with (set_healthyBackends (one_backend n)
              (<["a"%string := {[n]} ∪ set_seq 0 n]>
                 (healthyBackends (one_backend n)))); [exact Hstep|].
    unfold one_backend, set_healthyBackends;
      cbn [healthyBackends backendCanceler UpstreamName Cancel Ctx].
    rewrite insert_singleton_eq, set_seq_S_end_union_L. reflexivity.
Qed.

(** C1, at the failing input: a backend with [MaxInt32] connections is
    never below the minimum the loop of [leastConnections] starts from, so
    the choice stays the empty string, which is not a healthy backend, and
    the write into its missing active set panics, where the comment of
    [leastConnections] promises the least active backend and the empty
    tracker gets [ErrUpstreamNotReady].  The state is reached by
    operations of the tracker, it has the same addresses in both maps, and
    its only backend is least loaded. *)
Lemma NextWithContext_full_backend_panics :
  (exists st, reachable (full_backend, st)) /\
  same_addresses full_backend /\
  healthyBackends full_backend <> ∅ /\
  least_loaded (healthyBackends full_backend) "a" /\
  range_of (healthyBackends full_backend)
           (map_to_list (healthyBackends full_backend)) /\
  forall (st : store) (parent : Context),
    NextWithContext full_backend st parent
                    (map_to_list (healthyBackends full_backend))
    = (Panic "assignment to entry in nil map", full_backend, st).
Proof.
  split.
  { apply one_backend_reachable. rewrite Z2Nat.id; unfold MaxInt32; lia. }
  unfold full_backend, one_backend; cbn [healthyBackends backendCanceler].
  split; [|split; [|split; [|split]]].
  - intros a. unfold same_addresses; cbn [healthyBackends backendCanceler].
    rewrite !dom_singleton_L. reflexivity.
  - intros H. apply (f_equal (fun m => m !! "a"%string)) in H.
    rewrite lookup_singleton_eq, lookup_empty in H. discriminate.
  - eexists. split; [apply lookup_singleton_eq|].
    intros b s' Hb. apply lookup_singleton_Some in Hb as [_ <-].
    apply Nat.le_refl.
  - unfold range_of. reflexivity.
  - intros st parent. unfold NextWithContext; cbn [healthyBackends].
    rewrite map_size_singleton.
    destruct (decide (1%nat = 0%nat)) as [?|_]; [discriminate|].
    rewrite map_to_list_singleton.
    rewrite leastConnections_none_below.
    + rewrite lookup_singleton_ne by discriminate. reflexivity.
    + intros e He. apply list_elem_of_singleton in He as ->. cbn [snd].
      rewrite size_set_seq, Z2Nat.id; unfold MaxInt32; lia.
Qed.

(** X26: below the sentinel.  For every tracker state that is reached and
    every range over the map as it is, [NextWithContext] returns an error
    exactly when there is no healthy backend, and then it changes nothing;
    and when some healthy backend has fewer than [MaxInt32] connections,
    it returns a healthy address whose active set is smallest, the first
    such one in the iteration order, and has added the parent to the
    active set of that address and changed no other entry. *)
Theorem NextWithContext_least_connections (t : Tracker) (st : store)
    (parent : Context) (order : list (string * activeConns)) :
  reachable (t, st) ->
  range_of (healthyBackends t) order ->
  ((exists r t' st',
      NextWithContext t st parent order = (Ret r, t', st') /\
      err r = Some ErrUpstreamNotReady)
   <-> healthyBackends t = ∅) /\
  (healthyBackends t = ∅ ->
     NextWithContext t st parent order
     = (Ret (mkNext "" None None (Some ErrUpstreamNotReady)), t, st)) /\
  (below_sentinel (healthyBackends t) ->
     exists a s c f st',
       NextWithContext t st parent order
       = (Ret (mkNext a (Some c) (Some f) None),
          set_healthyBackends t (<[a := {[parent]} ∪ s]> (healthyBackends t)),
          st') /\
       healthyBackends t !! a = Some s /\
       least_loaded (healthyBackends t) a /\
       first_least order a).
Proof.
  intros Hreach Hrange.
  assert (Hsame : same_addresses t)
    by exact (same_addresses_dom t (reachable_dom (t, st) Hreach)).
  split; [split|split].
  - intros (r & t' & st' & Hcall & Herr).
    destruct (decide (healthyBackends t = ∅)) as [He|Hne]; [exact He|].
    rewrite (NextWithContext_ready t st parent order r t' st' Hne Hcall)
      in Herr. discriminate.
  - intros He. do 3 eexists.
    split; [apply NextWithContext_not_ready, He | reflexivity].
  - apply NextWithContext_not_ready.
  - intros Hbelow.
    pose proof (leastConnections_least_loaded _ order Hrange Hbelow) as Hl.
    pose proof Hl as (s & Hs & Hmin).
    destruct (same_addresses_canceler t _ s Hsame Hs) as [b Hb].
    assert (Hne : healthyBackends t <> ∅).
    { intros He. rewrite He, lookup_empty in Hs. discriminate. }
    destruct (NextWithContext_chosen t st parent order s b Hne Hs Hb)
      as (c & f & st' & Hcall).
    exists (leastConnections order), s, c, f, st'.
    split; [exact Hcall|]. split; [exact Hs|]. split; [exact Hl|].
    apply leastConnections_first_least.
    apply (below_sentinel_order (healthyBackends t)); assumption.
Qed.

Lemma NextWithContext_least_connections_witness :
  exists a s c f st',
    NextWithContext (fst two_backends) (snd two_backends) 100%nat
      (map_to_list (healthyBackends (fst two_backends)))
    = (Ret (mkNext a (Some c) (Some f) None),
       set_healthyBackends (fst two_backends)
         (<[a := {[100%nat]} ∪ s]> (healthyBackends (fst two_backends))),
       st') /\
    healthyBackends (fst two_backends) !! a = Some s /\
    least_loaded (healthyBackends (fst two_backends)) a /\
    first_least (map_to_list (healthyBackends (fst two_backends))) a.
Proof.
  assert (Hreach : reachable (fst two_backends, snd two_backends)).
  { rewrite <- surjective_pairing. unfold two_backends.
    repeat (apply reachable_exec; [|exact I]). apply reachable_NewTracker. }
  assert (Hrange : range_of (healthyBackends (fst two_backends))
                     (map_to_list (healthyBackends (fst two_backends)))).
  { unfold range_of. reflexivity. }
  assert (Hbelow : below_sentinel (healthyBackends (fst two_backends))).
  { exists "a"%string, ∅. split; vm_compute; reflexivity. }
  exact (proj2 (proj2 (NextWithContext_least_connections (fst two_backends)
           (snd two_backends) 100%nat
           (map_to_list (healthyBackends (fst two_backends)))
           Hreach Hrange)) Hbelow).
Defined.

(** The first step of [TestLeastConnections]: with 5, 3 and 0 connections
    the backend without connections is chosen and gets the new one. *)
Example least_connections_seeded :
  (NextWithContext seeded empty_store 100%nat
     (map_to_list (healthyBackends seeded))).1.1
    = Ret (mkNext "127.0.0.1:8002" (Some 1%nat)
                  (Some (mkCancelFunc 2%nat 1%nat)) None) /\
  BackendActiveConns
    (NextWithContext seeded empty_store 100%nat
       (map_to_list (healthyBackends seeded))).1.2 "127.0.0.1:8002" = 1.
Proof. split; vm_compute; reflexivity. Qed.

(** C10: when both maps have the same addresses, there is a healthy
    backend and every active set has fewer than [MaxInt32] elements, the
    address [leastConnections] returns is a key of [healthyBackends], its
    canceler is present, and [NextWithContext] returns without a panic. *)
Theorem NextWithContext_canceler_present (t : Tracker) (st : store)
    (parent : Context) (order : list (string * activeConns)) :
  same_addresses t ->
  healthyBackends t <> ∅ ->
  range_of (healthyBackends t) order ->
  (forall a s, healthyBackends t !! a = Some s ->
               Z.of_nat (size s) < MaxInt32) ->
  leastConnections order ∈ dom (healthyBackends t) /\
  is_Some (backendCanceler t !! leastConnections order) /\
  exists r t' st',
    NextWithContext t st parent order = (Ret r, t', st') /\
    addr r = leastConnections order.
Proof.
  intros Hsame Hne Hrange Hsizes.
  assert (Hbelow : below_sentinel (healthyBackends t)).
  { destruct (map_choose _ Hne) as (a & s & Ha).
    exists a, s. split; [exact Ha | exact (Hsizes a s Ha)]. }
  destruct (leastConnections_least_loaded _ order Hrange Hbelow)
    as (s & Hs & _).
  destruct (same_addresses_canceler t _ s Hsame Hs) as [b Hb].
  split; [apply elem_of_dom; exists s; exact Hs|].
  split; [exists b; exact Hb|].
  destruct (NextWithContext_chosen t st parent order s b Hne Hs Hb)
    as (c & f & st' & Hcall).
  do 3 eexists. split; [exact Hcall | reflexivity].
Qed.

(** Even without the bound on the sizes, the canceler of the chosen
    address is never read through a nil pointer: the call panics earlier,
    at the write into the active set, or the canceler is there. *)
Lemma NextWithContext_no_nil_canceler (t : Tracker) (st : store)
    (parent : Context) (order : list (string * activeConns)) :
  same_addresses t ->
  (NextWithContext t st parent order).1.1
  <> Panic "invalid memory address or nil pointer dereference".
Proof.
  intros Hsame. unfold NextWithContext.
  destruct (decide (size (healthyBackends t) = 0%nat)); [discriminate|].
  destruct (healthyBackends t !! leastConnections order) as [s|] eqn:Hs;
    [|discriminate].
  destruct (same_addresses_canceler t _ s Hsame Hs) as [b Hb].
  cbn [backendCanceler set_healthyBackends]. rewrite Hb.
  destruct (trackCtx _ _ _ _ _) as [[c f] st1]. discriminate.
Qed.

Lemma NextWithContext_canceler_present_witness :
  leastConnections (map_to_list (healthyBackends (fst two_backends)))
    ∈ dom (healthyBackends (fst two_backends)).
Proof.
  assert (Hsame : same_addresses (fst two_backends)).
  { apply same_addresses_dom. vm_compute. reflexivity. }
  assert (Hne : healthyBackends (fst two_backends) <> ∅).
  { intros H. apply (f_equal (fun m => m !! "a"%string)) in H.
    vm_compute in H. discriminate. }
  assert (Hrange : range_of (healthyBackends (fst two_backends))
                     (map_to_list (healthyBackends (fst two_backends)))).
  { unfold range_of. reflexivity. }
  assert (Hsizes : forall a s,
            healthyBackends (fst two_backends) !! a = Some s ->
            Z.of_nat (size s) < MaxInt32).
  { intros a s Hs.
    assert (Hall : map_Forall (fun _ s' => Z.of_nat (size s') < MaxInt32)
                     (healthyBackends (fst two_backends))).
    { apply map_Forall_to_list.
      assert (Hl : map_to_list (healthyBackends (fst two_backends))
                   = [("a"%string, ∅); ("b"%string, ∅)])
        by (vm_compute; reflexivity).
      rewrite Hl. repeat constructor. }
    exact (Hall a s Hs). }
  exact (proj1 (NextWithContext_canceler_present (fst two_backends)
           (snd two_backends) 100%nat
           (map_to_list (healthyBackends (fst two_backends)))
           Hsame Hne Hrange Hsizes)).
Defined.


(** ** Invariant 3: a handle in at most one active set *)

Lemma TrackBackend_in_one (t : Tracker) (st : store) (a : string) :
  in_one_backend t -> in_one_backend (TrackBackend t st a).1.
Proof.
  intros Hone. unfold TrackBackend.
  destruct (healthyBackends t !! a) eqn:Ha; [exact Hone|].
  destruct (WithCancelCause st (Ctx t)) as [c0 st'].
  intros c x y sx sy; cbn [fst healthyBackends].
  rewrite !lookup_insert_Some.
  intros [[<- <-]|[Hx Hsx]] [[<- <-]|[Hy Hsy]] Hcx Hcy;
    try (exfalso; set_solver).
  exact (Hone c x y sx sy Hsx Hsy Hcx Hcy).
Qed.

Lemma UntrackBackend_in_one (t : Tracker) (st : store) (a : string)
    (e : option error) :
  in_one_backend t -> in_one_backend (UntrackBackend t st a e).1.2.
Proof.
  intros Hone. unfold UntrackBackend.
  destruct (backendCanceler t !! a); [|exact Hone].
  destruct e; [|exact Hone].
  intros c x y sx sy; cbn [fst snd healthyBackends].
  rewrite !lookup_delete_Some. intros [_ Hsx] [_ Hsy].
  exact (Hone c x y sx sy Hsx Hsy).
Qed.

Lemma removeTrackedConn_in_one (t : Tracker) (c0 : Context) (a : string) :
  in_one_backend t -> in_one_backend (removeTrackedConn t c0 a).
Proof.
  intros Hone c x y sx sy.
  unfold removeTrackedConn; cbn [healthyBackends set_healthyBackends].
  rewrite !lookup_alter_Some.
  intros [(_ & sx' & Hsx & ->)|[_ Hsx]] [(_ & sy' & Hsy & ->)|[_ Hsy]]
         Hcx Hcy.
  - apply elem_of_difference in Hcx as [Hcx _].
    apply elem_of_difference in Hcy as [Hcy _].
    exact (Hone c x y sx' sy' Hsx Hsy Hcx Hcy).
  - apply elem_of_difference in Hcx as [Hcx _].
    exact (Hone c x y sx' sy Hsx Hsy Hcx Hcy).
  - apply elem_of_difference in Hcy as [Hcy _].
    exact (Hone c x y sx sy' Hsx Hsy Hcx Hcy).
  - exact (Hone c x y sx sy Hsx Hsy Hcx Hcy).
Qed.

Lemma NextWithContext_in_one (t : Tracker) (st : store) (parent : Context)
    (order : list (string * activeConns)) :
  untracked t parent -> in_one_backend t ->
  in_one_backend (NextWithContext t st parent order).1.2.
Proof.
  intros Hfresh Hone. unfold NextWithContext.
  destruct (decide (size (healthyBackends t) = 0%nat)); [exact Hone|].
  destruct (healthyBackends t !! leastConnections order) as [s|] eqn:Hs;
    [|exact Hone].
  set (a := leastConnections order) in *.
  assert (Hone' : in_one_backend
            (set_healthyBackends t (<[a := {[parent]} ∪ s]>
                                      (healthyBackends t)))).
  { intros c x y sx sy; cbn [healthyBackends set_healthyBackends].
    rewrite !lookup_insert_Some.
    intros [[<- <-]|[Hx Hsx]] [[<- <-]|[Hy Hsy]] Hcx Hcy.
    - reflexivity.
    - apply elem_of_union in Hcx as [Hcx|Hcx].
      + apply elem_of_singleton in Hcx as ->.
        exfalso. exact (Hfresh y sy Hsy Hcy).
      + exact (Hone c a y s sy Hs Hsy Hcx Hcy).
    - apply elem_of_union in Hcy as [Hcy|Hcy].
      + apply elem_of_singleton in Hcy as ->.
        exfalso. exact (Hfresh x sx Hsx Hcx).
      + exact (Hone c x a sx s Hsx Hs Hcx Hcy).
    - exact (Hone c x y sx sy Hsx Hsy Hcx Hcy). }
  cbn [backendCanceler set_healthyBackends].
  destruct (backendCanceler t !! a); [|exact Hone'].
  destruct (trackCtx _ _ _ _ _) as [[c f] st1]. exact Hone'.
Qed.

Lemma exec_in_one (o : op) (s : Tracker * store) :
  possible_fresh o s -> in_one_backend s.1 -> in_one_backend (exec o s).1.
Proof.
  destruct s as [t st]; cbn [fst]. intros [_ Hfresh] Hone.
  destruct o; cbn [exec].
  - apply TrackBackend_in_one, Hone.
  - pose proof (UntrackBackend_in_one t st a e Hone) as H.
    destruct (UntrackBackend t st a e) as [[r t'] st']. exact H.
  - pose proof (NextWithContext_in_one t st parent order Hfresh Hone) as H.
    destruct (NextWithContext t st parent order) as [[r t'] st']. exact H.
  - apply removeTrackedConn_in_one, Hone.
  - exact Hone.
Qed.

(** C3 as stated fails: with two healthy backends, two calls of
    [NextWithContext] with the same context put that context into the
    active sets of both backends; the state is reached by operations of
    the tracker alone. *)
Lemma shared_handle_in_two_backends :
  reachable shared_handle /\
  healthyBackends shared_handle.1 !! "a"%string = Some {[100%nat]} /\
  healthyBackends shared_handle.1 !! "b"%string = Some {[100%nat]} /\
  ~ in_one_backend shared_handle.1.
Proof.
  assert (Ha : healthyBackends shared_handle.1 !! "a"%string
               = Some ({[100%nat]} : activeConns))
    by (vm_compute; reflexivity).
  assert (Hb : healthyBackends shared_handle.1 !! "b"%string
               = Some ({[100%nat]} : activeConns))
    by (vm_compute; reflexivity).
  split; [|split; [exact Ha|split; [exact Hb|]]].
  - unfold shared_handle, next_in_map_order, two_backends.
    repeat (apply reachable_exec;
            [|cbn; unfold range_of; reflexivity || exact I]).
    apply reachable_NewTracker.
  - intros Hone.
    assert (Heq : "a"%string = "b"%string).
    { apply (Hone 100%nat "a"%string "b"%string _ _ Ha Hb); set_solver. }
    discriminate Heq.
Qed.

(** C3, amended: in every state reached by operations whose
    [NextWithContext] calls are given a context that is in no active set
    at the time of the call, each connection handle is in the active set
    of at most one backend. *)
Theorem fresh_handles_in_one_backend (s : Tracker * store) :
  reachable_fresh s -> in_one_backend s.1.
Proof.
  induction 1 as [st parent upstream | st name | s o _ IH Hposs].
  - unfold NewTracker. destruct (WithCancelCause st parent) as [c st'].
    intros c0 x y sx sy; cbn. rewrite lookup_empty. discriminate.
  - intros c0 x y sx sy; cbn. rewrite lookup_empty. discriminate.
  - apply exec_in_one; assumption.
Qed.

Lemma fresh_handles_in_one_backend_witness :
  in_one_backend
    (exec (OpNextWithContext 100%nat
             (map_to_list (healthyBackends two_backends.1))) two_backends).1.
Proof.
  apply fresh_handles_in_one_backend.
  apply fresh_exec.
  - unfold two_backends.
    repeat (apply fresh_exec; [|split; exact I]).
    apply fresh_NewTracker.
  - split.
    + cbn. unfold range_of. reflexivity.
    + cbn [possible_fresh]. intros a s Hs.
      assert (Hall : map_Forall (fun _ s' => 100%nat ∉ (s' : activeConns))
                       (healthyBackends two_backends.1)).
      { apply map_Forall_to_list.
        assert (Hl : map_to_list (healthyBackends two_backends.1)
                     = [("a"%string, ∅); ("b"%string, ∅)])
          by (vm_compute; reflexivity).
        rewrite Hl. repeat constructor; set_solver. }
      exact (Hall a s Hs).
Defined.
End TrackerFacts.

(* ===================================================================== *)
(** * The manager: what [Stop] does to the contexts *)
(* ===================================================================== *)
Module ManagerFacts.
Import Errors Ctx Tracker Manager.

Lemma NewUpstream_uncancellable (name : string) :
  uncancellable (tracker (NewUpstream name)).
Proof. split; reflexivity. Qed.

Lemma NewUpstream_tracker (name : string) :
  tracker (NewUpstream name) = upstreamTracker name.
Proof. reflexivity. Qed.

(** The operations of the tracker keep its [Cancel] and [Ctx]. *)
Lemma TrackBackend_fields (t : Tracker) (st : store) (a : string) :
  Cancel (TrackBackend t st a).1 = Cancel t /\
  Ctx (TrackBackend t st a).1 = Ctx t.
Proof.
  unfold TrackBackend. destruct (healthyBackends t !! a); [done|].
  destruct (WithCancelCause st (Ctx t)). done.
Qed.

Lemma UntrackBackend_fields (t : Tracker) (st : store) (a : string)
    (e : option error) :
  Cancel (UntrackBackend t st a e).1.2 = Cancel t /\
  Ctx (UntrackBackend t st a e).1.2 = Ctx t.
Proof.
  unfold UntrackBackend. destruct (backendCanceler t !! a); [|done].
  destruct e; done.
Qed.

Lemma NextWithContext_fields (t : Tracker) (st : store) (parent : Context)
    (order : list (string * activeConns)) :
  Cancel (NextWithContext t st parent order).1.2 = Cancel t /\
  Ctx (NextWithContext t st parent order).1.2 = Ctx t.
Proof.
  unfold NextWithContext.
  destruct (decide (size (healthyBackends t) = 0%nat)); [done|].
  destruct (healthyBackends t !! leastConnections order); [|done].
  cbn [backendCanceler set_healthyBackends].
  destruct (backendCanceler t !! leastConnections order); [|done].
  destruct (trackCtx _ _ _ _ _) as [[c f] st1]. done.
Qed.

Lemma NewManager_uncancellable : all_uncancellable NewManager.
Proof. apply map_Forall_empty. Qed.

Lemma LoadUpstreamFromConfig_uncancellable (m : Manager)
    (cfg : Config.Upstream) :
  all_uncancellable m -> all_uncancellable (LoadUpstreamFromConfig m cfg).
Proof.
  intros Hall. unfold LoadUpstreamFromConfig, store_upstream, GetUpstream.
  apply map_Forall_insert_2; [|exact Hall]. cbn [tracker].
  destruct (Upstreams m !! Config.Name cfg) as [up|] eqn:Hup.
  - exact (Hall _ _ Hup).
  - apply NewUpstream_uncancellable.
Qed.

Lemma handleHealthy_uncancellable (m : Manager) (st : store)
    (upstream backend : string) :
  all_uncancellable m ->
  all_uncancellable (handleHealthy m st upstream backend).1.
Proof.
  intros Hall. unfold handleHealthy, GetUpstream.
  destruct (Upstreams m !! upstream) as [up|] eqn:Hup; [|exact Hall].
  destruct (TrackBackend_fields (tracker up) st backend) as [Hc Hx].
  destruct (TrackBackend (tracker up) st backend) as [t st'].
  cbn [fst] in *. apply map_Forall_insert_2; [|exact Hall].
  destruct (Hall _ _ Hup) as [Hc0 Hx0]. split; cbn [tracker]; congruence.
Qed.

Lemma handleUnhealthy_uncancellable (m : Manager) (st : store)
    (upstream backend : string) :
  all_uncancellable m ->
  all_uncancellable (handleUnhealthy m st upstream backend).1.
Proof.
  intros Hall. unfold handleUnhealthy, GetUpstream.
  destruct (Upstreams m !! upstream) as [up|] eqn:Hup; [|exact Hall].
  destruct (UntrackBackend_fields (tracker up) st backend
              (Some ErrBackendUnhealthy)) as [Hc Hx].
  destruct (UntrackBackend (tracker up) st backend _) as [[r t] st'].
  cbn [fst snd] in *. apply map_Forall_insert_2; [|exact Hall].
  destruct (Hall _ _ Hup) as [Hc0 Hx0]. split; cbn [tracker]; congruence.
Qed.

Lemma next_on_uncancellable (m : Manager) (st : store) (upstream : string)
    (parent : Context) :
  all_uncancellable m ->
  all_uncancellable (next_on m st upstream parent).1.2.
Proof.
  intros Hall. unfold next_on, GetUpstream.
  destruct (Upstreams m !! upstream) as [up|] eqn:Hup; [|exact Hall].
  destruct (NextWithContext_fields (tracker up) st parent
              (map_to_list (healthyBackends (tracker up)))) as [Hc Hx].
  destruct (NextWithContext (tracker up) st parent _) as [[r t] st'].
  cbn [fst snd] in *. apply map_Forall_insert_2; [|exact Hall].
  destruct (Hall _ _ Hup) as [Hc0 Hx0]. split; cbn [tracker]; congruence.
Qed.

(** [Stop] leaves every context as it is, and every tracker too. *)
Lemma Stop_store (m : Manager) (st : store) : (Stop m st).2 = st.
Proof. reflexivity. Qed.

Lemma Stop_trackers (m : Manager) (st : store) (name : string) :
  tracker <$> (Upstreams (Stop m st).1 !! name)
  = tracker <$> (Upstreams m !! name).
Proof.
  unfold Stop, Start_teardown; cbn [fst Upstreams].
  rewrite lookup_fmap. destruct (Upstreams m !! name); reflexivity.
Qed.

(** What [Stop] does do: the event channel is closed and no heartbeat is
    left. *)
Lemma Stop_heartbeats (m : Manager) (st : store) :
  healthEventsClosed (Stop m st).1 = true /\
  map_Forall (fun _ up => stoppers (heartbeats up) = [])
             (Upstreams (Stop m st).1).
Proof.
  split; [reflexivity|]. unfold Stop, Start_teardown; cbn [fst Upstreams].
  intros name up. rewrite lookup_fmap.
  destruct (Upstreams m !! name); [|discriminate].
  intros [= <-]. reflexivity.
Qed.

(** C4, at the failing input: one upstream loaded from the configuration,
    its backend healthy, one connection in flight.  After [Stop] the
    contexts are as before: the context of the connection and the context
    of its backend are not done, and the tracker still has the background
    context and no cancel function.  For every manager, [Stop] changes no
    context, and the tracker [NewUpstream] builds has nothing to cancel. *)
Theorem Stop_cancels_no_context :
  (forall (m : Manager) (st : store), (Stop m st).2 = st) /\
  (forall name : string,
     Cancel (tracker (NewUpstream name)) = None /\
     Ctx (tracker (NewUpstream name)) = Background) /\
  in_flight.1.1
    = Some (Ret (mkNext "127.0.0.1:8000" (Some 3%nat)
                        (Some (mkCancelFunc 4%nat 3%nat)) None)) /\
  (ctx <$> (Upstreams in_flight.1.2 !! "web"%string
              ≫= fun up => backendCanceler (tracker up)
                             !! "127.0.0.1:8000"%string)) = Some 2%nat /\
  Done after_stop.2 3%nat = false /\
  Done after_stop.2 2%nat = false /\
  cause_of after_stop.2 = ∅ /\
  ((fun up => (Cancel (tracker up), Ctx (tracker up),
               BackendActiveConns (tracker up) "127.0.0.1:8000"))
     <$> (Upstreams after_stop.1 !! "web"%string))
    = Some (None, Background, 1).
Proof.
  split; [exact Stop_store|].
  split; [exact NewUpstream_uncancellable|].
  repeat split; vm_compute; reflexivity.
Qed.

(** The tracker [NewTracker] builds does have a cancel function: calling
    it marks the context of the backend as done, and the closure that
    passes the cause on to the connection becomes runnable; once it has
    run, the context of the connection is done with the same cause. *)
Example NewTracker_Cancel_reaches_connection :
  Cancel tracked_in_flight.1 = Some 2%nat /\
  (ctx <$> backendCanceler tracked_in_flight.1 !! "127.0.0.1:8000"%string)
    = Some 3%nat /\
  Cause after_Cancel 3%nat = Some ErrBackendRemoved /\
  runnable after_Cancel 5%nat = Some (PropagateBackendCancel 3%nat 4%nat) /\
  Cause (run_afterFunc (tracked_in_flight.1, after_Cancel) 5%nat).2 4%nat
    = Some ErrBackendRemoved.
Proof. repeat split; vm_compute; reflexivity. Qed.

End ManagerFacts.

(* ===================================================================== *)
(** * Contexts: what a cancellation reaches *)
(* ===================================================================== *)
Module CtxFacts.
Import Errors Ctx.

Lemma derives_from_refl (fuel : nat) (ps : gmap Context Context)
    (c : Context) :
  derives_from fuel ps c c = true.
Proof. destruct fuel; cbn; rewrite bool_decide_eq_true_2; done. Qed.

Lemma derives_from_child (ps : gmap Context Context) (p x : Context) :
  ps !! x = Some p -> derives_from (size ps) ps p x = true.
Proof.
  intros Hx. destruct (size ps) as [|n] eqn:Hsize.
  - apply map_size_empty_iff in Hsize. rewrite Hsize, lookup_empty in Hx.
    discriminate.
  - cbn. rewrite Hx, derives_from_refl. apply orb_true_r.
Qed.

(** The first cancellation of a context wins. *)
Lemma cancel_first_wins (st : store) (c x : Context) (e e0 : error) :
  Cause st x = Some e0 -> Cause (cancel st c e) x = Some e0.
Proof.
  unfold Cause, cancel. intros Hx.
  destruct (cause_of st !! c); [exact Hx|].
  cbn [cause_of]. apply lookup_union_Some_l. exact Hx.
Qed.

(** A context that is not done and is cancelled takes the cause. *)
Lemma cancel_cause (st : store) (c : Context) (e : error) :
  Cause st c = None -> Cause (cancel st c e) c = Some e.
Proof.
  unfold Cause, cancel. intros Hc. rewrite Hc. cbn [cause_of].
  rewrite lookup_union_r by exact Hc.
  apply lookup_gset_to_gmap_Some. split; [|reflexivity].
  apply elem_of_filter. split; [|set_solver].
  apply Is_true_true, derives_from_refl.
Qed.

(** A cancelled context is done, whether this cancellation was the first
    one or not. *)
Lemma cancel_done (st : store) (c : Context) (e : error) :
  Done (cancel st c e) c = true.
Proof.
  unfold Done. apply bool_decide_eq_true_2.
  destruct (Cause st c) as [e0|] eqn:Hc.
  - exists e0. exact (cancel_first_wins st c c e e0 Hc).
  - exists e. exact (cancel_cause st c e Hc).
Qed.

(** A cancellation reaches the children of the context. *)
Lemma cancel_child (st : store) (p x : Context) (e : error) :
  parent_of st !! x = Some p -> Cause st p = None -> Cause st x = None ->
  Cause (cancel st p e) x = Some e.
Proof.
  unfold Cause, cancel. intros Hx Hp Hc. rewrite Hp. cbn [cause_of].
  rewrite lookup_union_r by exact Hc.
  apply lookup_gset_to_gmap_Some. split; [|reflexivity].
  apply elem_of_filter.
  split; [apply Is_true_true, derives_from_child, Hx|].
  apply elem_of_union. right. apply elem_of_dom. exists p. exact Hx.
Qed.

(** A cancellation gives a context that was not done the cause of this
    cancellation or leaves it as it was. *)
Lemma cancel_cause_cases (st : store) (c x : Context) (e : error) :
  Cause st x = None ->
  Cause (cancel st c e) x = None \/ Cause (cancel st c e) x = Some e.
Proof.
  unfold Cause, cancel. intros Hx.
  destruct (cause_of st !! c); [left; exact Hx|].
  cbn [cause_of]. rewrite lookup_union_r by exact Hx.
  destruct (gset_to_gmap e _ !! x) as [e'|] eqn:Hg; [|left; reflexivity].
  apply lookup_gset_to_gmap_Some in Hg as [_ <-]. right. reflexivity.
Qed.

(** A cancellation registers nothing, stops nothing and derives nothing. *)
Lemma cancel_frame (st : store) (c : Context) (e : error) :
  afterFuncs (cancel st c e) = afterFuncs st /\
  parent_of (cancel st c e) = parent_of st /\
  next (cancel st c e) = next st.
Proof. unfold cancel. destruct (cause_of st !! c); done. Qed.

(** The child of a context that is done is done from the start, with the
    same cause. *)
Lemma WithCancelCause_of_done (st : store) (p : Context) (e : error) :
  Cause st p = Some e ->
  Cause (WithCancelCause st p).2 (WithCancelCause st p).1 = Some e.
Proof.
  unfold Cause, WithCancelCause. intros Hp. rewrite Hp. cbn.
  apply lookup_insert_eq.
Qed.

End CtxFacts.

(* ===================================================================== *)
(** * The tracker: how its operations compose *)
(* ===================================================================== *)
Module TrackerMore.
Import Errors Ctx Tracker CtxFacts.

Lemma set_healthyBackends_id (t : Tracker) :
  set_healthyBackends t (healthyBackends t) = t.
Proof. destruct t; reflexivity. Qed.

(** ** Tracking and untracking *)

(** X1: [TrackBackend] is idempotent, and tracking a backend that is
    already tracked changes nothing: the connections it has are kept and
    no context is made. *)
Theorem TrackBackend_idempotent (t : Tracker) (st : store) (a : string) :
  TrackBackend (TrackBackend t st a).1 (TrackBackend t st a).2 a
  = TrackBackend t st a /\
  (is_Some (healthyBackends t !! a) -> TrackBackend t st a = (t, st)).
Proof.
  split.
  - unfold TrackBackend at 2 3 4.
    destruct (healthyBackends t !! a) as [s|] eqn:Ha.
    + cbn [fst snd]. unfold TrackBackend. rewrite Ha. reflexivity.
    + destruct (WithCancelCause st (Ctx t)) as [c st'] eqn:Hw.
      cbn [fst snd]. unfold TrackBackend; cbn [healthyBackends].
      rewrite lookup_insert_eq. reflexivity.
  - intros [s Ha]. unfold TrackBackend. rewrite Ha. reflexivity.
Qed.

(** A new backend starts without connections, and its context is a child
    of the tracker's context. *)
Lemma TrackBackend_new (t : Tracker) (st : store) (a : string) :
  healthyBackends t !! a = None ->
  healthyBackends (TrackBackend t st a).1 !! a = Some ∅ /\
  backendCanceler (TrackBackend t st a).1 !! a
    = Some (mkBackendCtx (next st) (next st)) /\
  parent_of (TrackBackend t st a).2 !! next st = Some (Ctx t) /\
  BackendActiveConns (TrackBackend t st a).1 a = 0.
Proof.
  intros Ha. unfold TrackBackend, BackendActiveConns. rewrite Ha.
  cbn [WithCancelCause fst snd healthyBackends backendCanceler parent_of].
  rewrite !lookup_insert_eq. repeat split; reflexivity.
Qed.

(** X2: untracking a backend right after it was tracked gives the tracker
    back as it was, and the context made for the backend is done. *)
Theorem Untrack_after_Track (t : Tracker) (st : store) (a : string)
    (e : error) :
  healthyBackends t !! a = None ->
  backendCanceler t !! a = None ->
  let s1 := TrackBackend t st a in
  let s2 := UntrackBackend s1.1 s1.2 a (Some e) in
  s2.1 = (Ret (), t) /\ Done s2.2 (next st) = true.
Proof.
  intros Hh Hc. cbn zeta. unfold TrackBackend. rewrite Hh.
  cbn [WithCancelCause fst snd]. unfold UntrackBackend.
  cbn [backendCanceler healthyBackends UpstreamName Cancel Tracker.Ctx].
  rewrite lookup_insert_eq. cbn [fst snd cancel].
  rewrite !delete_insert_id by assumption.
  split; [destruct t; reflexivity | apply cancel_done].
Qed.

Lemma Untrack_after_Track_witness :
  (UntrackBackend (TrackBackend (upstreamTracker "web") empty_store "a").1
     (TrackBackend (upstreamTracker "web") empty_store "a").2 "a"
     (Some ErrBackendUnhealthy)).1
  = (Ret (), upstreamTracker "web").
Proof.
  exact (proj1 (Untrack_after_Track (upstreamTracker "web") empty_store "a"
                  ErrBackendUnhealthy (lookup_empty _) (lookup_empty _))).
Defined.

Lemma UntrackBackend_tracked (t : Tracker) (st : store) (a : string)
    (b : backendCtx) (e : error) :
  backendCanceler t !! a = Some b ->
  UntrackBackend t st a (Some e)
  = (Ret (),
     mkTracker (UpstreamName t) (Cancel t) (Tracker.Ctx t)
               (delete a (healthyBackends t)) (delete a (backendCanceler t)),
     Ctx.cancel st (cancel b) e).
Proof. intros Hb. unfold UntrackBackend. rewrite Hb. reflexivity. Qed.

Lemma UntrackBackend_untracked (t : Tracker) (st : store) (a : string)
    (e : option error) :
  backendCanceler t !! a = None -> UntrackBackend t st a e = (Ret (), t, st).
Proof. intros Hb. unfold UntrackBackend. rewrite Hb. reflexivity. Qed.

(** X3: when both maps have the same addresses, after [UntrackBackend]
    with a cause the address is in neither map and has no active
    connection, and a second [UntrackBackend] of the same address does
    nothing, not even with a nil cause. *)
Theorem UntrackBackend_idempotent (t : Tracker) (st : store) (a : string)
    (e : error) (e' : option error) :
  same_addresses t ->
  let s1 := UntrackBackend t st a (Some e) in
  s1.1.1 = Ret () /\
  healthyBackends s1.1.2 !! a = None /\
  backendCanceler s1.1.2 !! a = None /\
  BackendActiveConns s1.1.2 a = 0 /\
  UntrackBackend s1.1.2 s1.2 a e' = (Ret (), s1.1.2, s1.2).
Proof.
  intros Hsame. cbn zeta.
  destruct (backendCanceler t !! a) as [b|] eqn:Hb.
  - rewrite (UntrackBackend_tracked t st a b e Hb). cbn [fst snd].
    assert (Hc : backendCanceler
              (mkTracker (UpstreamName t) (Cancel t) (Tracker.Ctx t)
                 (delete a (healthyBackends t))
                 (delete a (backendCanceler t))) !! a = None)
      by apply lookup_delete_eq.
    rewrite (UntrackBackend_untracked _ _ a e' Hc).
    unfold BackendActiveConns; cbn [healthyBackends backendCanceler].
    rewrite !lookup_delete_eq. repeat split; reflexivity.
  - rewrite (UntrackBackend_untracked t st a (Some e) Hb). cbn [fst snd].
    rewrite (UntrackBackend_untracked t st a e' Hb).
    assert (Hh : healthyBackends t !! a = None).
    { apply not_elem_of_dom. intros Hin. apply Hsame in Hin.
      apply not_elem_of_dom in Hb. contradiction. }
    unfold BackendActiveConns. rewrite Hh. repeat split; done.
Qed.

Lemma UntrackBackend_idempotent_witness :
  UntrackBackend
    (UntrackBackend two_backends.1 two_backends.2 "a"
       (Some ErrBackendUnhealthy)).1.2
    (UntrackBackend two_backends.1 two_backends.2 "a"
       (Some ErrBackendUnhealthy)).2 "a" None
  = (Ret (),
     (UntrackBackend two_backends.1 two_backends.2 "a"
        (Some ErrBackendUnhealthy)).1.2,
     (UntrackBackend two_backends.1 two_backends.2 "a"
        (Some ErrBackendUnhealthy)).2).
Proof.
  assert (Hsame : same_addresses two_backends.1).
  { apply TrackerFacts.same_addresses_dom. vm_compute. reflexivity. }
  exact (proj2 (proj2 (proj2 (proj2
    (UntrackBackend_idempotent two_backends.1 two_backends.2 "a"
       ErrBackendUnhealthy None Hsame))))).
Defined.

End TrackerMore.

(* ===================================================================== *)
(** * The life of one connection in the tracker *)
(* ===================================================================== *)
Module ConnLifecycle.
Import Errors Ctx Tracker TrackerState CtxFacts TrackerMore.

(** What [trackCtx] leaves in the store: the derived context, then the
    two registrations, in this order. *)
Lemma trackCtx_store (t : Tracker) (st : store) (outer backend : Context)
    (a : string) :
  trackCtx t st outer backend a
  = ((next st, mkCancelFunc (S (next st)) (next st)),
     mkStore
       (<[next st := outer]> (parent_of st))
       (match cause_of st !! outer with
        | Some e => <[next st := e]> (cause_of st)
        | None => cause_of st
        end)
       (<[S (S (next st)) :=
            (next st, RemoveTrackedConn (UpstreamName t) outer a)]>
          (<[S (next st) :=
               (backend, PropagateBackendCancel backend (next st))]>
             (afterFuncs st)))
       (S (S (S (next st))))).
Proof. reflexivity. Qed.

(** A call of [NextWithContext] that returns without an error. *)
Lemma NextWithContext_Ret (t : Tracker) (st : store) (parent : Context)
    (order : list (string * activeConns)) (r : nextResult) (t1 : Tracker)
    (st1 : store) :
  NextWithContext t st parent order = (Ret r, t1, st1) ->
  err r = None ->
  exists (s : activeConns) (b : backendCtx),
    healthyBackends t !! addr r = Some s /\
    backendCanceler t !! addr r = Some b /\
    r = mkNext (leastConnections order) (Some (next st))
               (Some (mkCancelFunc (S (next st)) (next st))) None /\
    t1 = set_healthyBackends t
           (<[addr r := {[parent]} ∪ s]> (healthyBackends t)) /\
    st1 = (trackCtx t1 st parent (ctx b) (addr r)).2.
Proof.
  unfold NextWithContext.
  destruct (decide (size (healthyBackends t) = 0%nat)).
  { intros [= <- _ _]. discriminate. }
  destruct (healthyBackends t !! leastConnections order) as [s|] eqn:Hs;
    [|discriminate].
  cbn [backendCanceler set_healthyBackends].
  destruct (backendCanceler t !! leastConnections order) as [b|] eqn:Hb;
    [|discriminate].
  rewrite trackCtx_store. intros [= <- <- <-] _. cbn [addr].
  exists s, b. rewrite trackCtx_store. done.
Qed.

(** X4: a call that returns an address has added one connection to that
    address when the parent context was not in its active set, none when
    it was there already, and has left the count of every other address
    as it was. *)
Theorem NextWithContext_counts (t : Tracker) (st : store) (parent : Context)
    (order : list (string * activeConns)) (r : nextResult) (t1 : Tracker)
    (st1 : store) :
  NextWithContext t st parent order = (Ret r, t1, st1) ->
  err r = None ->
  (forall s, healthyBackends t !! addr r = Some s ->
     (parent ∉ s ->
        BackendActiveConns t1 (addr r) = BackendActiveConns t (addr r) + 1) /\
     (parent ∈ s ->
        BackendActiveConns t1 (addr r) = BackendActiveConns t (addr r))) /\
  (forall b, b <> addr r ->
     BackendActiveConns t1 b = BackendActiveConns t b).
Proof.
  intros Hcall Herr.
  destruct (NextWithContext_Ret _ _ _ _ _ _ _ Hcall Herr)
    as (s & b & Hs & _ & _ & -> & _).
  unfold BackendActiveConns; cbn [healthyBackends set_healthyBackends].
  split.
  - intros s' Hs'. rewrite Hs in Hs'. injection Hs' as <-.
    rewrite lookup_insert_eq, Hs. split; intros Hin.
    + rewrite size_union by (apply disjoint_singleton_l; exact Hin).
      rewrite size_singleton. lia.
    + rewrite subseteq_union_1_L
        by (apply singleton_subseteq_l; exact Hin).
      reflexivity.
  - intros b' Hne. rewrite lookup_insert_ne by congruence. reflexivity.
Qed.

Lemma NextWithContext_counts_witness :
  BackendActiveConns
    (NextWithContext seeded empty_store 100%nat
       (map_to_list (healthyBackends seeded))).1.2 "127.0.0.1:8000"
  = BackendActiveConns seeded "127.0.0.1:8000".
Proof.
  assert (Hcall :
    NextWithContext seeded empty_store 100%nat
      (map_to_list (healthyBackends seeded))
    = (Ret (mkNext "127.0.0.1:8002" (Some 1%nat)
                   (Some (mkCancelFunc 2%nat 1%nat)) None),
       (NextWithContext seeded empty_store 100%nat
          (map_to_list (healthyBackends seeded))).1.2,
       (NextWithContext seeded empty_store 100%nat
          (map_to_list (healthyBackends seeded))).2))
    by (vm_compute; reflexivity).
  refine (proj2 (NextWithContext_counts seeded empty_store 100%nat
                   (map_to_list (healthyBackends seeded)) _ _ _ Hcall
                   eq_refl) "127.0.0.1:8000"%string _).
  cbn [addr]. discriminate.
Defined.

(** Removing the handle that a call has just added gives the tracker back,
    when the handle was in no active set before the call. *)
Lemma removeTrackedConn_after_Next (t : Tracker) (parent : Context)
    (a : string) (s : activeConns) :
  healthyBackends t !! a = Some s -> parent ∉ s ->
  removeTrackedConn
    (set_healthyBackends t (<[a := {[parent]} ∪ s]> (healthyBackends t)))
    parent a
  = t.
Proof.
  intros Hs Hin. unfold removeTrackedConn, set_healthyBackends;
    cbn [healthyBackends UpstreamName Cancel Tracker.Ctx backendCanceler].
  rewrite alter_insert_eq.
  replace (({[parent]} ∪ s) ∖ {[parent]}) with s.
  - rewrite insert_id by exact Hs. destruct t; reflexivity.
  - apply set_eq. intros x.
    rewrite elem_of_difference, elem_of_union, !elem_of_singleton.
    split; [|tauto]. intros Hx. split; [right; exact Hx|].
    intros ->. contradiction.
Qed.

Lemma NextWithContext_no_error (t : Tracker) (st : store) (parent : Context)
    (order : list (string * activeConns)) (r : nextResult) (t1 : Tracker)
    (st1 : store) (c : Context) :
  NextWithContext t st parent order = (Ret r, t1, st1) ->
  nctx r = Some c -> err r = None.
Proof.
  intros Hcall Hc. unfold NextWithContext in Hcall.
  destruct (decide _) in Hcall.
  - injection Hcall as <- _ _. discriminate.
  - destruct (healthyBackends t !! _); [|discriminate].
    destruct (backendCanceler _ !! _); [|discriminate].
    rewrite trackCtx_store in Hcall. injection Hcall as <- _ _.
    reflexivity.
Qed.

(** Calling the cancel function of a connection: the derived context is
    done, the subscription to the backend is gone, and the closure that
    removes the handle can run. *)
Lemma call_cancelFunc_releases (t : Tracker) (st : store)
    (parent : Context) (order : list (string * activeConns))
    (r : nextResult) (t1 : Tracker) (st1 : store) (c : Context)
    (f : CancelFunc) :
  NextWithContext t st parent order = (Ret r, t1, st1) ->
  nctx r = Some c -> cancelFunc r = Some f ->
  Done (call_cancelFunc st1 f) c = true /\
  runnable (call_cancelFunc st1 f) (afterBackendCancelled f) = None /\
  exists h,
    runnable (call_cancelFunc st1 f) h
    = Some (RemoveTrackedConn (UpstreamName t) parent (addr r)) /\
    (run_afterFunc (t1, call_cancelFunc st1 f) h).1
    = removeTrackedConn t1 parent (addr r).
Proof.
  intros Hcall Hc Hf.
  pose proof (NextWithContext_no_error _ _ _ _ _ _ _ _ Hcall Hc) as Herr.
  destruct (NextWithContext_Ret _ _ _ _ _ _ _ Hcall Herr)
    as (s & b & Hs & _ & Hr & Ht1 & Hst1).
  rewrite trackCtx_store in Hst1. cbn [snd] in Hst1.
  assert (Hname : UpstreamName t1 = UpstreamName t) by (subst t1; done).
  rewrite Hname in Hst1.
  rewrite Hr in Hc, Hf. cbn [nctx cancelFunc] in Hc, Hf.
  injection Hc as <-. injection Hf as <-.
  unfold call_cancelFunc; cbn [afterBackendCancelled target].
  split; [apply cancel_done|].
  assert (Hfuncs :
    afterFuncs (Ctx.cancel (stop st1 (S (next st))) (next st) context_Canceled)
    = delete (S (next st)) (afterFuncs st1)).
  { rewrite (proj1 (cancel_frame _ _ _)). reflexivity. }
  split.
  - unfold runnable. rewrite Hfuncs, lookup_delete_eq. reflexivity.
  - exists (S (S (next st))).
    assert (Hrun :
      runnable (Ctx.cancel (stop st1 (S (next st))) (next st) context_Canceled)
               (S (S (next st)))
      = Some (RemoveTrackedConn (UpstreamName t) parent (addr r))).
    { unfold runnable. rewrite Hfuncs.
      rewrite lookup_delete_ne by lia. rewrite Hst1 at 1. cbn [afterFuncs].
      rewrite lookup_insert_eq, cancel_done. reflexivity. }
    split; [exact Hrun|].
    unfold run_afterFunc. rewrite Hrun. reflexivity.
Qed.

(** X5: release.  After [NextWithContext] has returned a connection whose
    parent context was in no active set, calling the cancel function it
    returned leaves the derived context done and the subscription to the
    backend's cancellation revoked, and makes the closure that removes the
    handle runnable; once that closure has run, the tracker is as it was
    before the call. *)
Theorem release_restores_tracker (t : Tracker) (st : store)
    (parent : Context) (order : list (string * activeConns))
    (r : nextResult) (t1 : Tracker) (st1 : store) (c : Context)
    (f : CancelFunc) :
  NextWithContext t st parent order = (Ret r, t1, st1) ->
  nctx r = Some c -> cancelFunc r = Some f ->
  untracked t parent ->
  let st2 := call_cancelFunc st1 f in
  Done st2 c = true /\
  runnable st2 (afterBackendCancelled f) = None /\
  exists h,
    runnable st2 h = Some (RemoveTrackedConn (UpstreamName t) parent (addr r))
    /\ (run_afterFunc (t1, st2) h).1 = t.
Proof.
  intros Hcall Hc Hf Hfresh. cbn zeta.
  destruct (call_cancelFunc_releases _ _ _ _ _ _ _ _ _ Hcall Hc Hf)
    as (Hdone & Hrev & h & Hrun & Hafter).
  split; [exact Hdone|]. split; [exact Hrev|].
  exists h. split; [exact Hrun|]. rewrite Hafter.
  pose proof (NextWithContext_no_error _ _ _ _ _ _ _ _ Hcall Hc) as Herr.
  destruct (NextWithContext_Ret _ _ _ _ _ _ _ Hcall Herr)
    as (s & b & Hs & _ & _ & -> & _).
  apply removeTrackedConn_after_Next; [exact Hs|].
  exact (Hfresh _ _ Hs).
Qed.

Lemma release_restores_tracker_witness :
  Done (call_cancelFunc
          (NextWithContext two_backends.1 two_backends.2 100%nat
             (map_to_list (healthyBackends two_backends.1))).2
          (mkCancelFunc 5%nat 4%nat)) 4%nat = true.
Proof.
  assert (Hcall :
    NextWithContext two_backends.1 two_backends.2 100%nat
      (map_to_list (healthyBackends two_backends.1))
    = (Ret (mkNext "a" (Some 4%nat) (Some (mkCancelFunc 5%nat 4%nat)) None),
       (NextWithContext two_backends.1 two_backends.2 100%nat
          (map_to_list (healthyBackends two_backends.1))).1.2,
       (NextWithContext two_backends.1 two_backends.2 100%nat
          (map_to_list (healthyBackends two_backends.1))).2))
    by (vm_compute; reflexivity).
  assert (Hfresh : untracked two_backends.1 100%nat).
  { intros a s Hs.
    assert (Hall : map_Forall (fun _ s' => 100%nat ∉ (s' : activeConns))
                     (healthyBackends two_backends.1)).
    { apply map_Forall_to_list.
      assert (Hl : map_to_list (healthyBackends two_backends.1)
                   = [("a"%string, ∅); ("b"%string, ∅)])
        by (vm_compute; reflexivity).
      rewrite Hl. repeat constructor; set_solver. }
    exact (Hall a s Hs). }
  exact (proj1 (release_restores_tracker two_backends.1 two_backends.2
                  100%nat (map_to_list (healthyBackends two_backends.1))
                  _ _ _ 4%nat (mkCancelFunc 5%nat 4%nat)
                  Hcall eq_refl eq_refl Hfresh)).
Defined.

(** The trackers that are reached keep, for every backend, the cancel
    function of the backend's own context. *)
Lemma exec_own_cancel (o : op) (s : Tracker * store) :
  own_cancel s.1 -> own_cancel (exec o s).1.
Proof.
  destruct s as [t st]; cbn [fst]. intros Hown.
  destruct o as [a|a e|parent order|c0 a|a]; cbn [exec].
  - unfold TrackBackend. destruct (healthyBackends t !! a); [exact Hown|].
    cbn [WithCancelCause fst]. intros a' b'; cbn [backendCanceler].
    rewrite lookup_insert_Some. intros [[_ <-]|[_ Hb]]; [reflexivity|].
    exact (Hown a' b' Hb).
  - unfold UntrackBackend. destruct (backendCanceler t !! a); [|exact Hown].
    destruct e; [|exact Hown]. cbn [fst snd]. intros a' b'.
    cbn [backendCanceler]. rewrite lookup_delete_Some. intros [_ Hb].
    exact (Hown a' b' Hb).
  - destruct (TrackerFacts.NextWithContext_keys t st parent order) as [_ Hc].
    destruct (NextWithContext t st parent order) as [[r t'] st'].
    cbn [fst snd] in *. intros a' b'. rewrite Hc. apply Hown.
  - exact Hown.
  - exact Hown.
Qed.

Lemma reachable_own_cancel (s : Tracker * store) :
  reachable s -> own_cancel s.1.
Proof.
  induction 1 as [st parent upstream | st name | s o _ IH _].
  - intros a b. cbn. rewrite lookup_empty. discriminate.
  - intros a b. cbn. rewrite lookup_empty. discriminate.
  - apply exec_own_cancel, IH.
Qed.

Lemma Done_of_Cause (st : store) (c : Context) (e : error) :
  Cause st c = Some e -> Done st c = true.
Proof.
  intros Hc. unfold Done. apply bool_decide_eq_true_2. exists e. exact Hc.
Qed.

(** X6: eviction.  While a connection and its backend are not done,
    untracking the backend with a cause removes the backend with all its
    connections at once and makes the closure runnable that passes the
    cancellation on; once that closure has run, the context of the
    connection is done with the cause given to [UntrackBackend]. *)
Theorem eviction_reaches_connection (t : Tracker) (st : store)
    (parent : Context) (order : list (string * activeConns))
    (r : nextResult) (t1 : Tracker) (st1 : store) (c : Context)
    (b : backendCtx) (e : error) :
  reachable (t, st) ->
  NextWithContext t st parent order = (Ret r, t1, st1) ->
  nctx r = Some c ->
  backendCanceler t !! addr r = Some b ->
  Cause st1 (ctx b) = None ->
  Cause st1 c = None ->
  let s2 := UntrackBackend t1 st1 (addr r) (Some e) in
  s2.1.1 = Ret () /\
  healthyBackends s2.1.2 !! addr r = None /\
  BackendActiveConns s2.1.2 (addr r) = 0 /\
  exists h,
    runnable s2.2 h = Some (PropagateBackendCancel (ctx b) c) /\
    Cause (run_afterFunc (s2.1.2, s2.2) h).2 c = Some e.
Proof.
  intros Hreach Hcall Hc Hb Hbnone Hcnone.
  assert (Herr : err r = None).
  { unfold NextWithContext in Hcall.
    destruct (decide _) in Hcall.
    - injection Hcall as <- _ _. discriminate.
    - destruct (healthyBackends t !! _); [|discriminate].
      destruct (backendCanceler _ !! _); [|discriminate].
      rewrite trackCtx_store in Hcall. injection Hcall as <- _ _.
      reflexivity. }
  destruct (NextWithContext_Ret _ _ _ _ _ _ _ Hcall Herr)
    as (s & b' & Hs & Hb' & Hr & Ht1 & Hst1).
  rewrite Hb in Hb'. injection Hb' as <-.
  rewrite trackCtx_store in Hst1. cbn [snd] in Hst1.
  rewrite Hr in Hc. cbn [nctx] in Hc. injection Hc as <-.
  assert (Hown : cancel b = ctx b)
    by exact (reachable_own_cancel (t, st) Hreach _ _ Hb).
  assert (Hb1 : backendCanceler t1 !! addr r = Some b) by (subst t1; exact Hb).
  cbn zeta. rewrite (UntrackBackend_tracked t1 st1 (addr r) b e Hb1).
  cbn [fst snd]. rewrite Hown.
  unfold BackendActiveConns; cbn [healthyBackends].
  rewrite lookup_delete_eq.
  split; [reflexivity|]. split; [reflexivity|]. split; [reflexivity|].
  set (st2 := Ctx.cancel st1 (ctx b) e).
  assert (Hcause : Cause st2 (ctx b) = Some e)
    by exact (cancel_cause st1 (ctx b) e Hbnone).
  assert (Hrun : runnable st2 (S (next st))
                 = Some (PropagateBackendCancel (ctx b) (next st))).
  { unfold runnable, st2. rewrite (proj1 (cancel_frame _ _ _)).
    rewrite Hst1 at 1. cbn [afterFuncs].
    rewrite lookup_insert_ne by lia. rewrite lookup_insert_eq.
    fold st2. rewrite (Done_of_Cause st2 (ctx b) e Hcause). reflexivity. }
  exists (S (next st)). split; [exact Hrun|].
  unfold run_afterFunc. rewrite Hrun.
  replace (Cause (stop st2 (S (next st))) (ctx b)) with (Some e)
    by (symmetry; exact Hcause).
  cbn [snd].
  destruct (cancel_cause_cases st1 (ctx b) (next st) e Hcnone) as [Hn|Hsome].
  - apply cancel_cause. exact Hn.
  - apply cancel_first_wins. exact Hsome.
Qed.

(** X7: request scope.  Cancelling the parent context of a connection
    leaves the derived context done and the closure that removes the
    handle runnable; once that closure has run, the tracker is as it was
    before the connection, when the handle was in no active set then. *)
Theorem parent_cancel_releases (t : Tracker) (st : store)
    (parent : Context) (order : list (string * activeConns))
    (r : nextResult) (t1 : Tracker) (st1 : store) (c : Context)
    (e : error) :
  NextWithContext t st parent order = (Ret r, t1, st1) ->
  nctx r = Some c ->
  untracked t parent ->
  let st2 := Ctx.cancel st1 parent e in
  Done st2 c = true /\
  exists h,
    runnable st2 h = Some (RemoveTrackedConn (UpstreamName t) parent (addr r))
    /\ (run_afterFunc (t1, st2) h).1 = t.
Proof.
  intros Hcall Hc Hfresh.
  assert (Herr : err r = None).
  { unfold NextWithContext in Hcall.
    destruct (decide _) in Hcall.
    - injection Hcall as <- _ _. discriminate.
    - destruct (healthyBackends t !! _); [|discriminate].
      destruct (backendCanceler _ !! _); [|discriminate].
      rewrite trackCtx_store in Hcall. injection Hcall as <- _ _.
      reflexivity. }
  destruct (NextWithContext_Ret _ _ _ _ _ _ _ Hcall Herr)
    as (s & b & Hs & _ & Hr & Ht1 & Hst1).
  rewrite trackCtx_store in Hst1. cbn [snd] in Hst1.
  assert (Hname : UpstreamName t1 = UpstreamName t) by (subst t1; done).
  rewrite Hname in Hst1.
  rewrite Hr in Hc. cbn [nctx] in Hc. injection Hc as <-.
  cbn zeta. set (st2 := Ctx.cancel st1 parent e).
  assert (Hdone : Done st2 (next st) = true).
  { destruct (Cause st1 (next st)) as [e0|] eqn:Hc1.
    - apply (Done_of_Cause st2 _ e0), cancel_first_wins, Hc1.
    - apply (Done_of_Cause st2 _ e). apply cancel_child.
      + rewrite Hst1. cbn [parent_of]. apply lookup_insert_eq.
      + unfold Cause in *. rewrite Hst1 in Hc1 |- *. cbn [cause_of] in *.
        destruct (cause_of st !! parent) as [e1|] eqn:Hp; [|exact Hp].
        rewrite lookup_insert_eq in Hc1. discriminate.
      + exact Hc1. }
  split; [exact Hdone|].
  assert (Hrun : runnable st2 (S (S (next st)))
                 = Some (RemoveTrackedConn (UpstreamName t) parent (addr r))).
  { unfold runnable, st2. rewrite (proj1 (cancel_frame _ _ _)).
    rewrite Hst1 at 1. cbn [afterFuncs]. rewrite lookup_insert_eq.
    fold st2. rewrite Hdone. reflexivity. }
  exists (S (S (next st))). split; [exact Hrun|].
  unfold run_afterFunc. rewrite Hrun. cbn [fst].
  rewrite Ht1. apply removeTrackedConn_after_Next; [exact Hs|].
  exact (Hfresh _ _ Hs).
Qed.

Lemma two_backends_reachable :
  reachable (two_backends.1, two_backends.2).
Proof.
  rewrite <- surjective_pairing. unfold two_backends.
  repeat (apply reachable_exec; [|exact I]). apply reachable_NewTracker.
Qed.

Lemma two_backends_Next :
  NextWithContext two_backends.1 two_backends.2 100%nat
    (map_to_list (healthyBackends two_backends.1))
  = (Ret (mkNext "a" (Some 4%nat) (Some (mkCancelFunc 5%nat 4%nat)) None),
     (NextWithContext two_backends.1 two_backends.2 100%nat
        (map_to_list (healthyBackends two_backends.1))).1.2,
     (NextWithContext two_backends.1 two_backends.2 100%nat
        (map_to_list (healthyBackends two_backends.1))).2).
Proof. vm_compute. reflexivity. Qed.

Lemma two_backends_untracked : untracked two_backends.1 100%nat.
Proof.
  intros a s Hs.
  assert (Hall : map_Forall (fun _ s' => 100%nat ∉ (s' : activeConns))
                   (healthyBackends two_backends.1)).
  { apply map_Forall_to_list.
    assert (Hl : map_to_list (healthyBackends two_backends.1)
                 = [("a"%string, ∅); ("b"%string, ∅)])
      by (vm_compute; reflexivity).
    rewrite Hl. repeat constructor; set_solver. }
  exact (Hall a s Hs).
Qed.

Lemma eviction_reaches_connection_witness :
  (UntrackBackend
     (NextWithContext two_backends.1 two_backends.2 100%nat
        (map_to_list (healthyBackends two_backends.1))).1.2
     (NextWithContext two_backends.1 two_backends.2 100%nat
        (map_to_list (healthyBackends two_backends.1))).2
     "a" (Some ErrBackendUnhealthy)).1.1 = Ret ().
Proof.
  assert (Hb : backendCanceler two_backends.1 !! "a"%string
               = Some (mkBackendCtx 2%nat 2%nat))
    by (vm_compute; reflexivity).
  assert (Hbnone :
    Cause (NextWithContext two_backends.1 two_backends.2 100%nat
             (map_to_list (healthyBackends two_backends.1))).2 2%nat = None)
    by (vm_compute; reflexivity).
  assert (Hcnone :
    Cause (NextWithContext two_backends.1 two_backends.2 100%nat
             (map_to_list (healthyBackends two_backends.1))).2 4%nat = None)
    by (vm_compute; reflexivity).
  exact (proj1 (eviction_reaches_connection two_backends.1 two_backends.2
                  100%nat (map_to_list (healthyBackends two_backends.1))
                  _ _ _ 4%nat (mkBackendCtx 2%nat 2%nat) ErrBackendUnhealthy
                  two_backends_reachable two_backends_Next eq_refl Hb
                  Hbnone Hcnone)).
Defined.

Lemma parent_cancel_releases_witness :
  Done (Ctx.cancel
          (NextWithContext two_backends.1 two_backends.2 100%nat
             (map_to_list (healthyBackends two_backends.1))).2
          100%nat context_Canceled) 4%nat = true.
Proof.
  exact (proj1 (parent_cancel_releases two_backends.1 two_backends.2
                  100%nat (map_to_list (healthyBackends two_backends.1))
                  _ _ _ 4%nat context_Canceled
                  two_backends_Next eq_refl two_backends_untracked)).
Defined.

(** ** Removing a handle *)

(** X8: [removeTrackedConn] only removes.  For an address that is not
    tracked it changes nothing; otherwise the handle is gone from the
    active set of the address afterwards; it adds no address, leaves the
    cancelers and every other active set alone, and no count grows. *)
Theorem removeTrackedConn_only_removes (t : Tracker) (c : Context)
    (a : string) :
  (healthyBackends t !! a = None -> removeTrackedConn t c a = t) /\
  (forall s, healthyBackends (removeTrackedConn t c a) !! a = Some s ->
             c ∉ s) /\
  (forall b, b <> a ->
     healthyBackends (removeTrackedConn t c a) !! b
     = healthyBackends t !! b) /\
  (forall b, BackendActiveConns (removeTrackedConn t c a) b
             <= BackendActiveConns t b) /\
  dom (healthyBackends (removeTrackedConn t c a)) = dom (healthyBackends t) /\
  backendCanceler (removeTrackedConn t c a) = backendCanceler t.
Proof.
  unfold removeTrackedConn, BackendActiveConns;
    cbn [healthyBackends backendCanceler set_healthyBackends].
  split; [|split; [|split; [|split; [|split]]]].
  - intros Ha. rewrite alter_id.
    + apply set_healthyBackends_id.
    + intros s Hs. rewrite Ha in Hs. discriminate.
  - intros s. rewrite lookup_alter_Some.
    intros [(_ & s' & _ & ->)|[Hne _]]; [|congruence].
    intros Hin. apply elem_of_difference in Hin as [_ Hin].
    apply Hin, elem_of_singleton. reflexivity.
  - intros b Hne. apply lookup_alter_ne. congruence.
  - intros b. destruct (decide (b = a)) as [->|Hne].
    + rewrite lookup_alter_eq.
      destruct (healthyBackends t !! a) as [s|]; cbn; [|lia].
      apply inj_le, subseteq_size. apply subseteq_difference_l. reflexivity.
    + rewrite lookup_alter_ne by congruence. lia.
  - apply dom_alter_L.
  - reflexivity.
Qed.

(** ** The choice does not depend on the iteration order *)

(** X9: when one healthy backend has strictly fewer connections than
    every other one, and fewer than [MaxInt32], [leastConnections]
    returns it for every order in which the map can be ranged over. *)
Theorem leastConnections_only_least (hb : gmap string activeConns)
    (order : list (string * activeConns)) (a : string) :
  range_of hb order ->
  only_least hb a ->
  below_sentinel hb ->
  leastConnections order = a.
Proof.
  intros Hrange (s & Hs & Honly) Hbelow.
  destruct (TrackerFacts.leastConnections_least_loaded hb order Hrange Hbelow)
    as (s' & Hs' & Hleast).
  destruct (decide (leastConnections order = a)) as [Heq|Hne]; [exact Heq|].
  exfalso.
  pose proof (Honly _ _ Hs' Hne) as Hlt.
  pose proof (Hleast _ _ Hs) as Hle. lia.
Qed.

Lemma leastConnections_only_least_witness :
  leastConnections (map_to_list (healthyBackends seeded))
  = "127.0.0.1:8002"%string.
Proof.
  assert (Hl : map_to_list (healthyBackends seeded)
               = [("127.0.0.1:8001"%string, set_seq 20 3);
                  ("127.0.0.1:8002"%string, ∅);
                  ("127.0.0.1:8000"%string, set_seq 10 5)])
    by (vm_compute; reflexivity).
  assert (Honly : only_least (healthyBackends seeded) "127.0.0.1:8002").
  { exists ∅. split; [vm_compute; reflexivity|].
    intros b s' Hb Hne. apply elem_of_map_to_list in Hb.
    rewrite Hl, !elem_of_cons in Hb.
    destruct Hb as [[= -> ->]|[[= -> ->]|[[= -> ->]|Hnil]]].
    - vm_compute. lia.
    - contradiction.
    - vm_compute. lia.
    - inversion Hnil. }
  assert (Hbelow : below_sentinel (healthyBackends seeded)).
  { exists "127.0.0.1:8002"%string, ∅. split; vm_compute; reflexivity. }
  exact (leastConnections_only_least (healthyBackends seeded)
           (map_to_list (healthyBackends seeded)) "127.0.0.1:8002"
           (reflexivity _) Honly Hbelow).
Defined.

End ConnLifecycle.

(* ===================================================================== *)
(** * Heartbeats: the events of one backend *)
(* ===================================================================== *)
Module HeartbeatFacts.
Import Errors Health Manager Heartbeat.

(** One beat sends at most one event.  Without an event the checker
    remembers the same status as before; an event that reports healthy
    comes from a successful dial after a status that was not a success;
    after any other event the checker remembers a failure. *)
Lemma run_beat_cases (b : BackendHeartbeat) (h : TCP) (d : dialResult) :
  ((run_beat b h d).1 = [] /\ status (run_beat b h d).2 = status h) \/
  (exists e, (run_beat b h d).1 = [e] /\
     upstream e = HUpstreamName b /\ addr e = HAddr b /\
     ((stat e = HEALTHY /\ status (run_beat b h d).2 = SUCCESS /\
       status h <> SUCCESS /\ d = Connected) \/
      (stat e = UNHEALTHY /\ status (run_beat b h d).2 = FAILED /\
       d <> Connected))).
Proof.
  unfold run_beat, Check, beat.
  destruct d as [| | |e]; cbn [dial_error Is Health.err changed Health.stat].
  - destruct (status h) eqn:Hs; cbn; rewrite ?Hs;
      first [ left; split; reflexivity
            | right; eexists; split; [reflexivity|];
              split; [reflexivity|]; split; [reflexivity|];
              left; repeat split; congruence ].
  - destruct (status h) eqn:Hs; cbn; rewrite ?Hs;
      first [ left; split; reflexivity
            | right; eexists; split; [reflexivity|];
              split; [reflexivity|]; split; [reflexivity|];
              right; repeat split; congruence ].
  - cbn. right. eexists. split; [reflexivity|].
    split; [reflexivity|]. split; [reflexivity|].
    right. repeat split; congruence.
  - destruct (Is_sentinel e Canceled_msg).
    + destruct (status h) eqn:Hs; cbn; rewrite ?Hs;
        first [ left; split; reflexivity
              | right; eexists; split; [reflexivity|];
                split; [reflexivity|]; split; [reflexivity|];
                right; repeat split; congruence ].
    + cbn. right. eexists. split; [reflexivity|].
      split; [reflexivity|]. split; [reflexivity|].
      right. repeat split; congruence.
Qed.

Lemma alternating_weaken (evs : list backendStatEvent) :
  alternating true evs -> alternating false evs.
Proof.
  destruct evs as [|e evs]; [done|]. cbn. intros [_ H].
  split; [discriminate | exact H].
Qed.

Lemma succeeded_status (h : TCP) :
  (succeeded h = true <-> status h = SUCCESS).
Proof. unfold succeeded. destruct (status h); cbn; split; congruence. Qed.

Lemma alternating_status (h h' : TCP) (evs : list backendStatEvent) :
  status h' = status h ->
  alternating (succeeded h') evs -> alternating (succeeded h) evs.
Proof. unfold succeeded. intros ->. done. Qed.

(** After a beat the loop goes on from a checker that remembers a success
    exactly when the event just sent, if there is one, said healthy. *)
Lemma run_beat_then (b : BackendHeartbeat) (h : TCP) (d : dialResult)
    (rest : list backendStatEvent) :
  alternating (succeeded (run_beat b h d).2) rest ->
  alternating (succeeded h) ((run_beat b h d).1 ++ rest).
Proof.
  intros Hrest.
  destruct (run_beat_cases b h d)
    as [[-> Hs]|(e & -> & _ & _ & [(He & Hs & Hh & _)|(He & Hs & _)])].
  - cbn. exact (alternating_status h _ rest Hs Hrest).
  - cbn. split.
    + intros Hprev. apply succeeded_status in Hprev. contradiction.
    + unfold is_healthy. rewrite He.
      apply succeeded_status in Hs. rewrite Hs in Hrest. exact Hrest.
  - cbn. unfold is_healthy. rewrite He. split; [reflexivity|].
    assert (Hf : succeeded (run_beat b h d).2 = false)
      by (unfold succeeded; rewrite Hs; reflexivity).
    rewrite Hf in Hrest. exact Hrest.
Qed.

Lemma run_loop_alternating (b : BackendHeartbeat) (ws : list wake) :
  forall h : TCP, alternating (succeeded h) (run_loop b h ws).1.
Proof.
  induction ws as [|w ws IH]; intros h; [exact I|].
  destruct w as [|e|d]; cbn [run_loop].
  - exact I.
  - cbn. split; [reflexivity | exact I].
  - pose proof (run_beat_then b h d _ (IH (run_beat b h d).2)) as H.
    destruct (run_beat b h d) as [evs h1]. cbn [fst snd] in H.
    destruct (run_loop b h1 ws) as [rest h2]. exact H.
Qed.

Lemma Run_alternating (b : BackendHeartbeat) (h : TCP) (d0 : dialResult)
    (ws : list wake) :
  alternating (succeeded h) (Run b h d0 ws).1.
Proof.
  unfold Run.
  pose proof (run_beat_then b h d0 _
                (run_loop_alternating b ws (run_beat b h d0).2)) as H.
  destruct (run_beat b h d0) as [evs h1]. cbn [fst snd] in H.
  destruct (run_loop b h1 ws) as [rest h2]. exact H.
Qed.

Lemma alternating_not_twice (evs : list backendStatEvent) :
  forall prev, alternating prev evs -> ~ healthy_twice evs.
Proof.
  induction evs as [|e evs IH];
    intros prev Halt (l1 & e1 & e2 & l2 & Heq & H1 & H2).
  - destruct l1; discriminate.
  - destruct Halt as [_ Halt]. destruct l1 as [|x l1].
    + cbn in Heq. injection Heq as -> ->.
      destruct Halt as [Hnext _].
      unfold is_healthy in Hnext. rewrite H1, H2 in Hnext.
      specialize (Hnext eq_refl). discriminate.
    + cbn in Heq. injection Heq as -> ->.
      apply (IH _ Halt). exists l1, e1, e2, l2. done.
Qed.

(** X10: the events of one heartbeat never report the backend healthy
    twice in a row, whatever the checker remembered at the start, however
    the dials end and whenever the loop is stopped. *)
Theorem heartbeat_never_healthy_twice (b : BackendHeartbeat) (h : TCP)
    (d0 : dialResult) (ws : list wake) :
  ~ healthy_twice (Run b h d0 ws).1.
Proof.
  destruct (succeeded h) eqn:Hs.
  - apply (alternating_not_twice _ true). rewrite <- Hs.
    apply Run_alternating.
  - apply (alternating_not_twice _ false). rewrite <- Hs.
    apply Run_alternating.
Qed.

Lemma run_beat_then_sync (b : BackendHeartbeat) (h h2 : TCP) (d : dialResult)
    (rest : list backendStatEvent) :
  in_sync (run_beat b h d).2 h2 rest ->
  in_sync h h2 ((run_beat b h d).1 ++ rest).
Proof.
  unfold in_sync. rewrite last_app.
  destruct (last rest) as [e|]; [done|]. intros Hrest.
  destruct (run_beat_cases b h d)
    as [[-> Hs]|(e & -> & _ & _ & [(He & Hs & _)|(He & Hs & _)])]; cbn.
  - congruence.
  - left. split; congruence.
  - right. split; congruence.
Qed.

Lemma run_loop_in_sync (b : BackendHeartbeat) (ws : list wake) :
  forall h : TCP,
    context_lives ws ->
    in_sync h (run_loop b h ws).2 (run_loop b h ws).1.
Proof.
  induction ws as [|w ws IH]; intros h Hlive; [reflexivity|].
  destruct w as [|e|d]; cbn [run_loop].
  - reflexivity.
  - exfalso. apply (Hlive e). left.
  - assert (Hlive' : context_lives ws).
    { intros e He. apply (Hlive e). right. exact He. }
    pose proof (run_beat_then_sync b h _ d _ (IH (run_beat b h d).2 Hlive'))
      as H.
    destruct (run_beat b h d) as [evs h1]. cbn [fst snd] in H.
    destruct (run_loop b h1 ws) as [rest h2]. exact H.
Qed.

Lemma Run_in_sync (b : BackendHeartbeat) (h : TCP) (d0 : dialResult)
    (ws : list wake) :
  context_lives ws -> in_sync h (Run b h d0 ws).2 (Run b h d0 ws).1.
Proof.
  intros Hlive. unfold Run.
  pose proof (run_beat_then_sync b h _ d0 _
                (run_loop_in_sync b ws (run_beat b h d0).2 Hlive)) as H.
  destruct (run_beat b h d0) as [evs h1]. cbn [fst snd] in H.
  destruct (run_loop b h1 ws) as [rest h2]. exact H.
Qed.

(** The first beat of a checker that starts at [INIT] sends an event. *)
Lemma Run_fresh_sends (b : BackendHeartbeat) (h : TCP) (d0 : dialResult)
    (ws : list wake) :
  status h = Health.INIT -> (Run b h d0 ws).1 <> [].
Proof.
  intros Hinit. unfold Run.
  destruct (run_beat_cases b h d0) as [[_ Hs]|(e & He & _)].
  - exfalso. unfold run_beat, Check in Hs. rewrite Hinit in Hs.
    destruct (beat b _) as [sent [err|]] in Hs; cbn in Hs;
      destruct (dial_error d0); discriminate.
  - destruct (run_beat b h d0) as [evs h1]. cbn [fst] in He. subst evs.
    destruct (run_loop b h1 ws) as [rest h2]. cbn. discriminate.
Qed.

(** X11: as long as the loop is not ended by its context, the last event
    of a heartbeat agrees with its checker: it reports healthy exactly
    when the checker remembers a success, and unhealthy exactly when it
    remembers a failure; and a checker that starts at [INIT] has sent an
    event with its first beat. *)
Theorem heartbeat_last_event_in_sync (b : BackendHeartbeat) (h : TCP)
    (d0 : dialResult) (ws : list wake) :
  context_lives ws ->
  in_sync h (Run b h d0 ws).2 (Run b h d0 ws).1 /\
  (status h = Health.INIT -> (Run b h d0 ws).1 <> []).
Proof.
  intros Hlive. split; [apply Run_in_sync, Hlive | apply Run_fresh_sends].
Qed.

Lemma heartbeat_last_event_in_sync_witness :
  in_sync (mkTCP "a" Health.INIT)
    (Run (mkHeartbeat "web" "a" 2000000000 1000000000)
         (mkTCP "a" Health.INIT) Connected
         [Tick Connected; Tick CtxCanceled; Tick Connected]).2
    (Run (mkHeartbeat "web" "a" 2000000000 1000000000)
         (mkTCP "a" Health.INIT) Connected
         [Tick Connected; Tick CtxCanceled; Tick Connected]).1.
Proof.
  assert (Hlive : context_lives
            [Tick Connected; Tick CtxCanceled; Tick Connected]).
  { intros e He. rewrite !elem_of_cons in He.
    destruct He as [He|[He|[He|He]]]; try discriminate. inversion He. }
  exact (proj1 (heartbeat_last_event_in_sync
                  (mkHeartbeat "web" "a" 2000000000 1000000000)
                  (mkTCP "a" Health.INIT) Connected
                  [Tick Connected; Tick CtxCanceled; Tick Connected] Hlive)).
Defined.

(** A dial that ends with an error which the checker does not suppress:
    the beat sends one event, unhealthy and with the error, whether the
    status has changed or not. *)
Lemma run_beat_error (b : BackendHeartbeat) (h : TCP) (d : dialResult)
    (e : error) :
  dial_error d = Some e -> Is_sentinel e Canceled_msg = false ->
  run_beat b h d = ([newErrEvent b (Some e)], mkTCP (Addr h) FAILED).
Proof.
  intros Hd Hne. unfold run_beat, Check, beat.
  rewrite Hd. cbn [Is Health.err]. rewrite Hne. reflexivity.
Qed.

(** X12: while the dial keeps ending with an error that is not a
    cancellation, a timeout for one, the heartbeat sends an unhealthy
    event with that error on every tick, not only on the first one. *)
Theorem heartbeat_error_every_tick (b : BackendHeartbeat) (h : TCP)
    (d : dialResult) (e : error) (n : nat) :
  dial_error d = Some e ->
  Is_sentinel e Canceled_msg = false ->
  (run_loop b h (replicate n (Tick d))).1
  = replicate n (newErrEvent b (Some e)).
Proof.
  intros Hd Hne. revert h.
  induction n as [|n IH]; intros h; [reflexivity|].
  cbn [replicate run_loop]. rewrite (run_beat_error b h d e Hd Hne).
  specialize (IH (mkTCP (Addr h) FAILED)).
  destruct (run_loop b _ (replicate n (Tick d))) as [rest h2].
  cbn [fst] in *. rewrite IH. reflexivity.
Qed.

Lemma heartbeat_error_every_tick_witness :
  (run_loop (mkHeartbeat "web" "a" 2000000000 1000000000)
            (mkTCP "a" FAILED) (replicate 3 (Tick CtxTimedOut))).1
  = replicate 3
      (newErrEvent (mkHeartbeat "web" "a" 2000000000 1000000000)
                   (Some (Wrap "dial tcp" context_DeadlineExceeded))).
Proof.
  exact (heartbeat_error_every_tick
           (mkHeartbeat "web" "a" 2000000000 1000000000)
           (mkTCP "a" FAILED) CtxTimedOut
           (Wrap "dial tcp" context_DeadlineExceeded) 3 eq_refl eq_refl).
Defined.

(** Every event of a heartbeat is about its backend. *)
Lemma run_beat_about (b : BackendHeartbeat) (h : TCP) (d : dialResult) :
  Forall (about b) (run_beat b h d).1.
Proof.
  destruct (run_beat_cases b h d)
    as [[-> _]|(e & -> & Hu & Ha & [(He & _)|(He & _)])].
  - constructor.
  - constructor; [|constructor]. unfold about. auto.
  - constructor; [|constructor]. unfold about. auto.
Qed.

Lemma run_loop_about (b : BackendHeartbeat) (ws : list wake) :
  forall h : TCP, Forall (about b) (run_loop b h ws).1.
Proof.
  induction ws as [|w ws IH]; intros h; [constructor|].
  destruct w as [|e|d]; cbn [run_loop].
  - constructor.
  - constructor; [|constructor]. unfold about; cbn. auto.
  - pose proof (run_beat_about b h d) as H1.
    pose proof (IH (run_beat b h d).2) as H2.
    destruct (run_beat b h d) as [evs h1]. cbn [fst snd] in *.
    destruct (run_loop b h1 ws) as [rest h2]. cbn [fst] in *.
    apply Forall_app. done.
Qed.

Lemma Run_about (b : BackendHeartbeat) (h : TCP) (d0 : dialResult)
    (ws : list wake) :
  Forall (about b) (Run b h d0 ws).1.
Proof.
  unfold Run.
  pose proof (run_beat_about b h d0) as H1.
  pose proof (run_loop_about b ws (run_beat b h d0).2) as H2.
  destruct (run_beat b h d0) as [evs h1]. cbn [fst snd] in *.
  destruct (run_loop b h1 ws) as [rest h2]. cbn [fst] in *.
  apply Forall_app. done.
Qed.

End HeartbeatFacts.

(* ===================================================================== *)
(** * The receiver: from events to tracked backends *)
(* ===================================================================== *)
Module ReceiverFacts.
Import Errors Ctx Tracker Manager Heartbeat Receiver.

Lemma TrackBackend_dom_hb (t : Tracker) (st : store) (a : string) :
  dom (healthyBackends (TrackBackend t st a).1)
  = {[a]} ∪ dom (healthyBackends t).
Proof.
  unfold TrackBackend. destruct (healthyBackends t !! a) as [s|] eqn:Ha.
  - cbn [fst]. assert (a ∈ dom (healthyBackends t))
      by (apply elem_of_dom; eauto).
    apply set_eq. intros x. rewrite elem_of_union, elem_of_singleton.
    split; [tauto|]. intros [->|Hx]; assumption.
  - cbn [WithCancelCause fst healthyBackends]. apply dom_insert_L.
Qed.

Lemma UntrackBackend_dom_hb (t : Tracker) (st : store) (a : string)
    (e : error) :
  same_addresses t ->
  dom (healthyBackends (UntrackBackend t st a (Some e)).1.2)
  = dom (healthyBackends t) ∖ {[a]}.
Proof.
  intros Hsame. unfold UntrackBackend.
  destruct (backendCanceler t !! a) as [b|] eqn:Hb; cbn [fst snd].
  - cbn [healthyBackends]. apply dom_delete_L.
  - assert (Hn : a ∉ dom (healthyBackends t)).
    { intros Hin. apply Hsame in Hin. apply not_elem_of_dom in Hb.
      contradiction. }
    apply set_eq. intros x. rewrite elem_of_difference, elem_of_singleton.
    split; [|tauto]. intros Hx. split; [exact Hx|]. intros ->. contradiction.
Qed.

Lemma same_addresses_eq (t : Tracker) :
  same_addresses t -> dom (healthyBackends t) = dom (backendCanceler t).
Proof. intros Hsame. apply set_eq. exact Hsame. Qed.

(** What one event does to the upstream [u], when the manager knows it. *)
Lemma receive_upstream (m : Manager) (st : store) (e : backendStatEvent)
    (u : string) (up : Upstream) :
  consistent m ->
  Upstreams m !! u = Some up ->
  consistent (receive (m, st) e).1 /\
  exists up',
    Upstreams (receive (m, st) e).1 !! u = Some up' /\
    Name up' = Name up /\ heartbeats up' = heartbeats up /\
    dom (healthyBackends (tracker up'))
    = (if bool_decide (upstream e = u)
       then match stat e with
            | HEALTHY => {[addr e]} ∪ dom (healthyBackends (tracker up))
            | UNHEALTHY => dom (healthyBackends (tracker up)) ∖ {[addr e]}
            | INIT => dom (healthyBackends (tracker up))
            end
       else dom (healthyBackends (tracker up))) /\
    Status up'
    = (if bool_decide (upstream e = u)
       then match stat e with HEALTHY => READY | _ => Status up end
       else Status up).
Proof.
  intros Hcons Hu. unfold receive; cbn [fst snd].
  destruct (stat e) eqn:Hstat.
  - split; [exact Hcons|]. exists up.
    destruct (bool_decide (upstream e = u)); done.
  - unfold handleHealthy, GetUpstream.
    destruct (Upstreams m !! upstream e) as [up0|] eqn:Hup0.
    + pose proof (TrackerFacts.TrackBackend_dom (tracker up0) st (addr e)
                    (same_addresses_eq _ (Hcons _ _ Hup0))) as Hdom.
      pose proof (TrackBackend_dom_hb (tracker up0) st (addr e)) as Hhb.
      destruct (TrackBackend (tracker up0) st (addr e)) as [t' st'].
      cbn [fst snd Upstreams] in *. split.
      * apply map_Forall_insert_2; [|exact Hcons]. cbn [tracker].
        apply TrackerFacts.same_addresses_dom, Hdom.
      * destruct (decide (upstream e = u)) as [Heq|Hne].
        -- rewrite bool_decide_eq_true_2 by exact Heq.
           rewrite Heq in Hup0 |- *. rewrite Hu in Hup0.
           injection Hup0 as <-. rewrite lookup_insert_eq.
           eexists. split; [reflexivity|]. cbn. done.
        -- rewrite bool_decide_eq_false_2 by exact Hne.
           rewrite lookup_insert_ne by exact Hne. exists up. done.
    + split; [exact Hcons|]. exists up. split; [exact Hu|].
      destruct (decide (upstream e = u)) as [Heq|Hne].
      * rewrite Heq, Hu in Hup0. discriminate.
      * rewrite bool_decide_eq_false_2 by exact Hne. done.
  - unfold handleUnhealthy, GetUpstream.
    destruct (Upstreams m !! upstream e) as [up0|] eqn:Hup0.
    + pose proof (TrackerFacts.UntrackBackend_dom (tracker up0) st (addr e)
                    (Some ErrBackendUnhealthy)
                    (same_addresses_eq _ (Hcons _ _ Hup0))) as Hdom.
      pose proof (UntrackBackend_dom_hb (tracker up0) st (addr e)
                    ErrBackendUnhealthy (Hcons _ _ Hup0)) as Hhb.
      destruct (UntrackBackend (tracker up0) st (addr e) _) as [[r t'] st'].
      cbn [fst snd Upstreams] in *. split.
      * apply map_Forall_insert_2; [|exact Hcons]. cbn [tracker].
        apply TrackerFacts.same_addresses_dom, Hdom.
      * destruct (decide (upstream e = u)) as [Heq|Hne].
        -- rewrite bool_decide_eq_true_2 by exact Heq.
           rewrite Heq in Hup0 |- *. rewrite Hu in Hup0.
           injection Hup0 as <-. rewrite lookup_insert_eq.
           eexists. split; [reflexivity|]. cbn. done.
        -- rewrite bool_decide_eq_false_2 by exact Hne.
           rewrite lookup_insert_ne by exact Hne. exists up. done.
    + split; [exact Hcons|]. exists up. split; [exact Hu|].
      destruct (decide (upstream e = u)) as [Heq|Hne].
      * rewrite Heq, Hu in Hup0. discriminate.
      * rewrite bool_decide_eq_false_2 by exact Hne. done.
Qed.

Lemma healthReceiver_cons (m : Manager) (st : store) (e : backendStatEvent)
    (events : list backendStatEvent) :
  healthReceiver m st (e :: events)
  = healthReceiver (receive (m, st) e).1 (receive (m, st) e).2 events.
Proof.
  unfold healthReceiver. cbn [fold_left].
  rewrite <- surjective_pairing. reflexivity.
Qed.

Lemma last_report_cons (u b : string) (e : backendStatEvent)
    (events : list backendStatEvent) :
  last_report u b (e :: events)
  = match last_report u b events with
    | Some s => Some s
    | None => if reports u b e then Some (stat e) else None
    end.
Proof.
  unfold last_report. rewrite filter_cons.
  destruct (reports u b e) eqn:Hr.
  - rewrite decide_True by reflexivity. rewrite last_cons.
    destruct (last (filter _ events)); reflexivity.
  - rewrite decide_False by discriminate.
    destruct (last (filter _ events)); reflexivity.
Qed.

(** Whether [b] is a healthy backend of [u] after one event. *)
Lemma receive_tracked (e : backendStatEvent) (u b : string)
    (D D' : gset string) :
  D' = (if bool_decide (upstream e = u)
        then match stat e with
             | HEALTHY => {[addr e]} ∪ D
             | UNHEALTHY => D ∖ {[addr e]}
             | INIT => D
             end
        else D) ->
  (b ∈ D' <->
   if reports u b e
   then match stat e with HEALTHY => True | _ => False end
   else b ∈ D).
Proof.
  intros ->. unfold reports.
  destruct (decide (upstream e = u)) as [Hu|Hu].
  - rewrite (bool_decide_eq_true_2 _ Hu).
    destruct (decide (addr e = b)) as [Hb|Hb].
    + rewrite (bool_decide_eq_true_2 _ Hb). cbn.
      destruct (stat e); cbn.
      * reflexivity.
      * rewrite elem_of_union, elem_of_singleton. split; [done|].
        intros _. left. congruence.
      * rewrite elem_of_difference, elem_of_singleton.
        split; [|done]. intros [_ Hn]. apply Hn. congruence.
    + rewrite (bool_decide_eq_false_2 _ Hb). cbn.
      destruct (stat e).
      * reflexivity.
      * rewrite elem_of_union, elem_of_singleton.
        split; [intros [?|?]; [congruence|assumption] | tauto].
      * rewrite elem_of_difference, elem_of_singleton.
        split; [tauto|]. intros Hin. split; [exact Hin | congruence].
  - rewrite (bool_decide_eq_false_2 _ Hu). cbn. reflexivity.
Qed.

Lemma healthReceiver_last_report (events : list backendStatEvent) :
  forall (m : Manager) (st : store) (u b : string) (up : Upstream),
    consistent m ->
    Upstreams m !! u = Some up ->
    (tracked (healthReceiver m st events).1 u b <->
     match last_report u b events with
     | Some HEALTHY => True
     | Some _ => False
     | None => b ∈ dom (healthyBackends (tracker up))
     end).
Proof.
  induction events as [|e events IH]; intros m st u b up Hcons Hu.
  - cbn. unfold tracked. split.
    + intros (up' & Hu' & Hin). congruence.
    + intros Hin. exists up. done.
  - rewrite healthReceiver_cons, last_report_cons.
    destruct (receive_upstream m st e u up Hcons Hu)
      as (Hcons1 & up1 & Hu1 & _ & _ & Hdom & _).
    rewrite (IH _ (receive (m, st) e).2 u b up1 Hcons1 Hu1).
    destruct (last_report u b events) as [s|]; [reflexivity|].
    rewrite (receive_tracked e u b _ _ Hdom).
    destruct (reports u b e); [|reflexivity].
    destruct (stat e); reflexivity.
Qed.

(** X13: the receiver keeps the tracker in step with the events.  For an
    upstream the manager knows, after any events the backend [b] is a
    healthy backend of [u] exactly when the last event that reported on
    [b] of [u] said healthy; without such an event it is as before. *)
Theorem receiver_tracks_last_report (events : list backendStatEvent)
    (m : Manager) (st : store) (u b : string) (up : Upstream) :
  consistent m ->
  Upstreams m !! u = Some up ->
  (tracked (healthReceiver m st events).1 u b <->
   match last_report u b events with
   | Some HEALTHY => True
   | Some _ => False
   | None => b ∈ dom (healthyBackends (tracker up))
   end).
Proof. apply healthReceiver_last_report. Qed.

Lemma receiver_tracks_last_report_witness :
  tracked
    (healthReceiver (LoadUpstreamFromConfig NewManager web_cfg) empty_store
       [mkEvent "web" "127.0.0.1:8000" HEALTHY None;
        mkEvent "db" "127.0.0.1:8000" UNHEALTHY None]).1
    "web" "127.0.0.1:8000".
Proof.
  assert (Hcons : consistent (LoadUpstreamFromConfig NewManager web_cfg)).
  { unfold LoadUpstreamFromConfig, store_upstream, consistent; cbn.
    apply map_Forall_insert_2; [|apply map_Forall_empty].
    apply TrackerFacts.same_addresses_dom. reflexivity. }
  assert (Hu : Upstreams (LoadUpstreamFromConfig NewManager web_cfg)
                 !! "web"%string
               = Some (mkUpstream "web" NOTREADY (upstreamTracker "web")
                         (mkHeartbeats "web"
                            [mkHeartbeat "web" "127.0.0.1:8000"
                                         2000000000 1000000000])))
    by (vm_compute; reflexivity).
  apply (receiver_tracks_last_report _ _ empty_store "web" "127.0.0.1:8000"
           _ Hcons Hu).
  vm_compute. exact I.
Defined.

(** X14: the ready flag is sticky.  For an upstream the manager knows,
    after any events its status is [READY] when some event reported one
    of its backends healthy, and else what it was; no event takes
    [READY] away, and the name and the heartbeats are kept. *)
Theorem receiver_ready_is_sticky (events : list backendStatEvent) :
  forall (m : Manager) (st : store) (u : string) (up : Upstream),
    consistent m ->
    Upstreams m !! u = Some up ->
    exists up',
      Upstreams (healthReceiver m st events).1 !! u = Some up' /\
      Name up' = Name up /\ heartbeats up' = heartbeats up /\
      (reported_healthy u events -> Status up' = READY) /\
      (~ reported_healthy u events -> Status up' = Status up) /\
      (Status up = READY -> Status up' = READY).
Proof.
  induction events as [|e events IH]; intros m st u up Hcons Hu.
  - exists up. cbn. repeat split; try done.
    intros (e & He & _). inversion He.
  - rewrite healthReceiver_cons.
    destruct (receive_upstream m st e u up Hcons Hu)
      as (Hcons1 & up1 & Hu1 & Hn1 & Hh1 & _ & Hs1).
    destruct (IH _ (receive (m, st) e).2 u up1 Hcons1 Hu1)
      as (up' & Hu' & Hn & Hh & Hyes & Hno & Hkeep).
    exists up'. split; [exact Hu'|]. split; [congruence|].
    split; [congruence|].
    assert (Hhead : (upstream e = u /\ stat e = HEALTHY) -> Status up1 = READY).
    { intros [Heq Hst]. rewrite Hs1, (bool_decide_eq_true_2 _ Heq), Hst.
      reflexivity. }
    assert (Hrest : ~ (upstream e = u /\ stat e = HEALTHY) ->
                    Status up1 = Status up).
    { intros Hnot. rewrite Hs1.
      destruct (decide (upstream e = u)) as [Heq|Hne].
      - rewrite (bool_decide_eq_true_2 _ Heq).
        destruct (stat e) eqn:Hst; try reflexivity.
        exfalso. apply Hnot. done.
      - rewrite (bool_decide_eq_false_2 _ Hne). reflexivity. }
    assert (Hdec : reported_healthy u events \/ ~ reported_healthy u events).
    { clear. induction events as [|x xs IHx].
      - right. intros (y & Hy & _). inversion Hy.
      - destruct IHx as [(y & Hy & H1 & H2)|Hn].
        + left. exists y. split; [right; exact Hy | done].
        + destruct (decide (upstream x = u)) as [Hx|Hx].
          * destruct (stat x) eqn:Hs.
            -- right. intros (y & Hy & H1 & H2).
               apply elem_of_cons in Hy as [->|Hy]; [congruence|].
               apply Hn. exists y. done.
            -- left. exists x. split; [left | done].
            -- right. intros (y & Hy & H1 & H2).
               apply elem_of_cons in Hy as [->|Hy]; [congruence|].
               apply Hn. exists y. done.
          * right. intros (y & Hy & H1 & H2).
            apply elem_of_cons in Hy as [->|Hy]; [congruence|].
            apply Hn. exists y. done. }
    split; [|split].
    + intros (y & Hy & H1 & H2).
      destruct Hdec as [Hin|Hout]; [exact (Hyes Hin)|].
      apply elem_of_cons in Hy as [->|Hy].
      * rewrite (Hno Hout). apply Hhead. done.
      * exfalso. apply Hout. exists y. done.
    + intros Hnone.
      assert (Hout : ~ reported_healthy u events).
      { intros (y & Hy & H1 & H2). apply Hnone. exists y.
        split; [right; exact Hy | done]. }
      rewrite (Hno Hout). apply Hrest.
      intros [H1 H2]. apply Hnone. exists e. split; [left | done].
    + intros Hready. apply Hkeep.
      destruct (decide (upstream e = u)) as [Heq|Hne].
      * rewrite Hs1, (bool_decide_eq_true_2 _ Heq).
        destruct (stat e); [exact Hready | reflexivity | exact Hready].
      * rewrite Hs1, (bool_decide_eq_false_2 _ Hne). exact Hready.
Qed.

Lemma receiver_ready_is_sticky_witness :
  exists up',
    Upstreams
      (healthReceiver (LoadUpstreamFromConfig NewManager web_cfg) empty_store
         [mkEvent "web" "127.0.0.1:8000" HEALTHY None;
          mkEvent "web" "127.0.0.1:8000" UNHEALTHY None]).1 !! "web"%string
    = Some up' /\ Status up' = READY.
Proof.
  assert (Hcons : consistent (LoadUpstreamFromConfig NewManager web_cfg)).
  { unfold LoadUpstreamFromConfig, store_upstream, consistent; cbn.
    apply map_Forall_insert_2; [|apply map_Forall_empty].
    apply TrackerFacts.same_addresses_dom. reflexivity. }
  assert (Hu : Upstreams (LoadUpstreamFromConfig NewManager web_cfg)
                 !! "web"%string
               = Some (mkUpstream "web" NOTREADY (upstreamTracker "web")
                         (mkHeartbeats "web"
                            [mkHeartbeat "web" "127.0.0.1:8000"
                                         2000000000 1000000000])))
    by (vm_compute; reflexivity).
  destruct (receiver_ready_is_sticky
              [mkEvent "web" "127.0.0.1:8000" HEALTHY None;
               mkEvent "web" "127.0.0.1:8000" UNHEALTHY None]
              _ empty_store "web" _ Hcons Hu)
    as (up' & Hu' & _ & _ & Hyes & _).
  exists up'. split; [exact Hu'|]. apply Hyes.
  exists (mkEvent "web" "127.0.0.1:8000" HEALTHY None).
  split; [left | done].
Defined.

End ReceiverFacts.

(* ===================================================================== *)
(** * From the checker to the tracker *)
(* ===================================================================== *)
Module HealthLoop.
Import Errors Health Ctx Tracker Manager Heartbeat Receiver.
Import HeartbeatFacts ReceiverFacts.

(** When every event reports on [b] of [u], the last report is the last
    event. *)
Lemma last_report_all (u b : string) (events : list backendStatEvent) :
  Forall (fun e => reports u b e = true) events ->
  last_report u b events = stat <$> last events.
Proof.
  induction 1 as [|e events He _ IH]; [reflexivity|].
  rewrite last_report_cons, IH, He, last_cons.
  destruct (last events); reflexivity.
Qed.

Lemma about_reports (hb : BackendHeartbeat) (events : list backendStatEvent) :
  Forall (about hb) events ->
  Forall (fun e => reports (HUpstreamName hb) (HAddr hb) e = true) events.
Proof.
  intros Hall. eapply Forall_impl; [exact Hall|].
  intros e (Hu & Ha & Hs). unfold reports.
  rewrite (bool_decide_eq_true_2 _ Hu), (bool_decide_eq_true_2 _ Ha).
  destruct Hs as [-> | ->]; reflexivity.
Qed.

(** X15: from the checker to the tracker.  For an upstream the manager
    knows and a heartbeat whose checker starts at [INIT] and whose loop is
    not ended by its context, once the receiver has handled the events of
    the heartbeat, the backend is a healthy backend of its upstream
    exactly when the checker remembers a successful dial. *)
Theorem heartbeat_drives_tracker (m : Manager) (st : store)
    (hb : BackendHeartbeat) (h : TCP) (d0 : dialResult) (ws : list wake)
    (up : Upstream) :
  consistent m ->
  Upstreams m !! HUpstreamName hb = Some up ->
  status h = Health.INIT ->
  context_lives ws ->
  (tracked (healthReceiver m st (Run hb h d0 ws).1).1
           (HUpstreamName hb) (HAddr hb)
   <-> status (Run hb h d0 ws).2 = SUCCESS).
Proof.
  intros Hcons Hu Hinit Hlive.
  rewrite (healthReceiver_last_report _ m st _ (HAddr hb) up Hcons Hu).
  rewrite (last_report_all _ _ _ (about_reports hb _ (Run_about hb h d0 ws))).
  pose proof (Run_in_sync hb h d0 ws Hlive) as Hsync.
  pose proof (Run_fresh_sends hb h d0 ws Hinit) as Hsent.
  unfold in_sync in Hsync.
  destruct (last (Run hb h d0 ws).1) as [e|] eqn:Hlast.
  - cbn. destruct Hsync as [[-> ->]|[-> ->]]; [done|].
    split; [done | discriminate].
  - apply last_None in Hlast. contradiction.
Qed.

Lemma heartbeat_drives_tracker_witness :
  tracked
    (healthReceiver (LoadUpstreamFromConfig NewManager web_cfg) empty_store
       (Run (mkHeartbeat "web" "127.0.0.1:8000" 2000000000 1000000000)
            (mkTCP "127.0.0.1:8000" Health.INIT) CtxTimedOut
            [Tick Connected]).1).1
    "web" "127.0.0.1:8000".
Proof.
  assert (Hcons : consistent (LoadUpstreamFromConfig NewManager web_cfg)).
  { unfold LoadUpstreamFromConfig, store_upstream, consistent; cbn.
    apply map_Forall_insert_2; [|apply map_Forall_empty].
    apply TrackerFacts.same_addresses_dom. reflexivity. }
  assert (Hu : Upstreams (LoadUpstreamFromConfig NewManager web_cfg)
                 !! "web"%string
               = Some (mkUpstream "web" NOTREADY (upstreamTracker "web")
                         (mkHeartbeats "web"
                            [mkHeartbeat "web" "127.0.0.1:8000"
                                         2000000000 1000000000])))
    by (vm_compute; reflexivity).
  assert (Hlive : context_lives [Tick Connected]).
  { intros e He. rewrite !elem_of_cons in He.
    destruct He as [He|He]; [discriminate | inversion He]. }
  apply (heartbeat_drives_tracker _ empty_store
           (mkHeartbeat "web" "127.0.0.1:8000" 2000000000 1000000000)
           (mkTCP "127.0.0.1:8000" Health.INIT) CtxTimedOut
           [Tick Connected] _ Hcons Hu eq_refl Hlive).
  reflexivity.
Defined.

End HealthLoop.

(* ===================================================================== *)
(** * The gate in front of the forwarder *)
(* ===================================================================== *)
Module GateFacts.
Import Errors Policy Srv.

(** X16: [handleConn] calls [Forward] exactly for a TLS connection whose
    handshake succeeded and whose peer certificate has, as its first OU,
    one of the tags configured for the upstream of the listener; the call
    is for that upstream, with the CommonName as rate limiter key.  The
    other OUs of the certificate are not looked at. *)
Theorem handleConn_forwards_iff (d : DownstreamListener) (conn : netConn)
    (info : FwdInfo) :
  handleConn d conn = Ret (Forwarded info) <->
  exists (c : tlsConn) (cert : Certificate) (rest : list Certificate)
         (ou0 : string) (ous tags : list string),
    conn = TLSConn c /\
    handshake c = None /\
    PeerCertificates c = cert :: rest /\
    OrganizationalUnit (Subject cert) = ou0 :: ous /\
    upstreamTags (policy d) !! Upstream d = Some tags /\
    ou0 ∈ tags /\
    info = mkFwdInfo (Upstream d) conn (CommonName (Subject cert)).
Proof.
  split.
  - destruct conn as [|c]; [discriminate|].
    unfold handleConn, verifyTLS, extractCertSubjFromConn, query.
    destruct (handshake c) eqn:Hh; [discriminate|].
    destruct (PeerCertificates c) as [|cert rest] eqn:Hp; [discriminate|].
    destruct (OrganizationalUnit (Subject cert)) as [|ou0 ous] eqn:Ho;
      [discriminate|].
    cbn [upstream ou]. 
    destruct (upstreamTags (policy d) !! Upstream d) as [tags|] eqn:Ht;
      [|discriminate].
    destruct (find_tag tags ou0) eqn:Hf; [|discriminate].
    intros [= <-]. exists c, cert, rest, ou0, ous, tags.
    apply PolicyFacts.find_tag_elem_of in Hf. done.
  - intros (c & cert & rest & ou0 & ous & tags
            & -> & Hh & Hp & Ho & Ht & Hin & ->).
    unfold handleConn, verifyTLS, extractCertSubjFromConn, query.
    rewrite Hh, Hp, Ho. cbn [upstream ou]. rewrite Ht.
    apply PolicyFacts.find_tag_elem_of in Hin. rewrite Hin. reflexivity.
Qed.

(** The policy made from the configuration, looked up by name. *)
Lemma policy_fold (ups : list Config.Upstream) (name : string) :
  forall m : gmap string (list string),
    fold_left (fun m v => <[Config.Name v := Config.Tags v]> m) ups m !! name
    = match last (filter (fun v => Config.Name v = name) ups) with
      | Some v => Some (Config.Tags v)
      | None => m !! name
      end.
Proof.
  induction ups as [|v ups IH]; intros m; [reflexivity|].
  cbn [fold_left]. rewrite IH, filter_cons.
  destruct (decide (Config.Name v = name)) as [Hv|Hv].
  - rewrite last_cons.
    destruct (last (filter _ ups)); [reflexivity|].
    rewrite <- Hv. apply lookup_insert_eq.
  - destruct (last (filter _ ups)); [reflexivity|].
    apply lookup_insert_ne. exact Hv.
Qed.

(** X17: in the policy made from the configuration, the tags of a name
    are those of the last configured upstream with that name, and a name
    that is not configured has no entry; so when a name is configured
    twice only the last one decides who is admitted. *)
Theorem policy_last_upstream_wins (ups : list Config.Upstream)
    (name : string) :
  upstreamTags (newPolicyEnforcerFromConfig ups) !! name
  = Config.Tags <$> last (filter (fun v => Config.Name v = name) ups).
Proof.
  unfold newPolicyEnforcerFromConfig; cbn [upstreamTags].
  rewrite policy_fold, lookup_empty.
  destruct (last (filter _ ups)); reflexivity.
Qed.

End GateFacts.

(* ===================================================================== *)
(** * The rate limiter: its buckets *)
(* ===================================================================== *)
Module BucketFacts.
Import Errors Rate RateLimit Buckets.

(** One call: the key has a bucket afterwards, every other bucket is as it
    was, and the configuration is kept. *)
Lemma rateLimit_buckets (rl : perClientRateLimiter) (key : string)
    (now : Z) :
  dom (clientRL (rateLimit rl key now).2) = {[key]} ∪ dom (clientRL rl) /\
  (forall k, k <> key ->
     clientRL (rateLimit rl key now).2 !! k = clientRL rl !! k) /\
  maxTokens (rateLimit rl key now).2 = maxTokens rl /\
  tokenRefillPerSecond (rateLimit rl key now).2 = tokenRefillPerSecond rl.
Proof.
  unfold rateLimit, getRL.
  destruct (clientRL rl !! key) as [lim|] eqn:Hk;
    destruct (Allow _ now) as [[] lim']; cbn [snd clientRL maxTokens
                                             tokenRefillPerSecond];
    rewrite ?insert_insert_eq;
    (split; [rewrite dom_insert_L; reflexivity|]);
    (split; [intros k Hne; apply lookup_insert_ne; congruence|]);
    split; reflexivity.
Qed.

(** X18: buckets are made on first use and never removed.  After any
    calls the limiter has a bucket for every key it had one for and for
    every key that was used, and for no other key. *)
Theorem rateLimits_buckets_only_grow (calls : list (string * Z)) :
  forall rl : perClientRateLimiter,
    dom (clientRL (rateLimits rl calls).2)
    = list_to_set calls.*1 ∪ dom (clientRL rl).
Proof.
  induction calls as [|[key now] calls IH]; intros rl.
  - cbn. apply set_eq. intros x.
    rewrite elem_of_union, elem_of_empty. tauto.
  - cbn [rateLimits].
    destruct (rateLimit_buckets rl key now) as (Hdom & _).
    destruct (rateLimit rl key now) as [e rl1]. cbn [snd] in Hdom.
    specialize (IH rl1).
    destruct (rateLimits rl1 calls) as [es rl2]. cbn [snd] in *.
    rewrite IH, Hdom. cbn [fmap list_fmap fst list_to_set].
    apply set_eq. intros x. rewrite !elem_of_union. tauto.
Qed.

Lemma rateLimit_unlimited (rl : perClientRateLimiter) (key : string)
    (now : Z) :
  unlimited rl ->
  (rateLimit rl key now).1 = None /\ unlimited (rateLimit rl key now).2.
Proof.
  intros [Hinf Hall]. unfold rateLimit, getRL.
  destruct (clientRL rl !! key) as [lim|] eqn:Hk.
  - unfold Allow. rewrite (Hall _ _ Hk). cbn. split; [reflexivity|].
    split; [exact Hinf|]. cbn [clientRL].
    apply map_Forall_insert_2; [exact (Hall _ _ Hk) | exact Hall].
  - unfold Allow, NewLimiter. cbn [limit]. rewrite Hinf. cbn.
    split; [reflexivity|]. split; [reflexivity|]. cbn [clientRL].
    rewrite insert_insert_eq.
    apply map_Forall_insert_2; [reflexivity | exact Hall].
Qed.

(** X19: a limiter configured with the infinite refill, whose buckets
    were all made by it, allows every call, whatever [maxTokens] is. *)
Theorem rateLimits_unlimited (calls : list (string * Z)) :
  forall rl : perClientRateLimiter,
    unlimited rl ->
    Forall (fun e => e = None) (rateLimits rl calls).1.
Proof.
  induction calls as [|[key now] calls IH]; intros rl Hrl.
  - constructor.
  - cbn [rateLimits].
    destruct (rateLimit_unlimited rl key now Hrl) as [He Hrl1].
    destruct (rateLimit rl key now) as [e rl1]. cbn [fst snd] in *.
    specialize (IH rl1 Hrl1).
    destruct (rateLimits rl1 calls) as [es rl2]. cbn [fst] in *.
    constructor; assumption.
Qed.

Lemma rateLimits_unlimited_witness :
  Forall (fun e => e = None)
    (rateLimits (mkRL 0 Inf ∅)
       [("bob"%string, 0); ("bob"%string, 0); ("wendy"%string, 1)]).1.
Proof.
  apply rateLimits_unlimited.
  split; [reflexivity | apply map_Forall_empty].
Defined.

End BucketFacts.

(* ===================================================================== *)
(** * The manager: loading upstreams *)
(* ===================================================================== *)
Module LoadFacts.
Import Errors Ctx Tracker Manager Balancer.

Lemma StartHeartbeat_fold (name : string) (backs : list string) :
  forall h : UpstreamHeartbeats,
    fold_left
      (fun u back =>
         StartHeartbeat u (mkHeartbeat name back 2000000000 1000000000))
      backs h
    = mkHeartbeats (HBUpstreamName h)
        (stoppers h
         ++ ((fun back => mkHeartbeat name back 2000000000 1000000000)
               <$> backs)).
Proof.
  induction backs as [|back backs IH]; intros h; cbn [fold_left].
  - cbn. rewrite app_nil_r. destruct h; reflexivity.
  - rewrite IH. unfold StartHeartbeat; cbn [HBUpstreamName stoppers].
    rewrite <- app_assoc. reflexivity.
Qed.

(** What [LoadUpstreamFromConfig] stores, and where. *)
Lemma LoadUpstreamFromConfig_stores (m : Manager) (cfg : Config.Upstream) :
  well_keyed m ->
  Upstreams (LoadUpstreamFromConfig m cfg)
  = <[Config.Name cfg :=
        match Upstreams m !! Config.Name cfg with
        | Some up =>
            mkUpstream (Config.Name cfg) (Status up) (tracker up)
              (mkHeartbeats (HBUpstreamName (heartbeats up))
                 (stoppers (heartbeats up) ++ heartbeats_of cfg))
        | None =>
            mkUpstream (Config.Name cfg) NOTREADY
              (upstreamTracker (Config.Name cfg))
              (mkHeartbeats (Config.Name cfg) (heartbeats_of cfg))
        end]> (Upstreams m).
Proof.
  intros Hkeys.
  unfold LoadUpstreamFromConfig, store_upstream, GetUpstream, heartbeats_of.
  cbn [Upstreams Name]. rewrite StartHeartbeat_fold.
  destruct (Upstreams m !! Config.Name cfg) as [up|] eqn:Hup.
  - rewrite (Hkeys _ _ Hup). reflexivity.
  - reflexivity.
Qed.

(** X20: loading an upstream.  In a manager whose upstreams are stored
    under their names, after [LoadUpstreamFromConfig] the upstream is
    found by [GetUpstream]; one that was there before keeps its tracker
    and its status and gets one more heartbeat for every configured
    backend, on top of those it has; a new one starts not ready, with
    the tracker of [NewUpstream]; no other upstream is touched. *)
Theorem LoadUpstreamFromConfig_keeps_state (m : Manager)
    (cfg : Config.Upstream) :
  well_keyed m ->
  well_keyed (LoadUpstreamFromConfig m cfg) /\
  (forall k, k <> Config.Name cfg ->
     Upstreams (LoadUpstreamFromConfig m cfg) !! k = Upstreams m !! k) /\
  exists up',
    GetUpstream (LoadUpstreamFromConfig m cfg) (Config.Name cfg)
    = (Some up', None) /\
    Name up' = Config.Name cfg /\
    match Upstreams m !! Config.Name cfg with
    | Some up =>
        tracker up' = tracker up /\ Status up' = Status up /\
        stoppers (heartbeats up')
        = stoppers (heartbeats up) ++ heartbeats_of cfg
    | None =>
        tracker up' = upstreamTracker (Config.Name cfg) /\
        Status up' = NOTREADY /\
        stoppers (heartbeats up') = heartbeats_of cfg
    end.
Proof.
  intros Hkeys.
  pose proof (LoadUpstreamFromConfig_stores m cfg Hkeys) as Hst.
  split; [|split].
  - intros k up. rewrite Hst, lookup_insert_Some.
    intros [[<- <-]|[_ Hup]].
    + destruct (Upstreams m !! Config.Name cfg); reflexivity.
    + exact (Hkeys _ _ Hup).
  - intros k Hne. rewrite Hst. apply lookup_insert_ne. congruence.
  - unfold GetUpstream. rewrite Hst, lookup_insert_eq.
    eexists. split; [reflexivity|].
    destruct (Upstreams m !! Config.Name cfg); cbn; done.
Qed.

Lemma LoadUpstreamFromConfig_keeps_state_witness :
  well_keyed (LoadUpstreamFromConfig NewManager web_cfg).
Proof.
  apply (LoadUpstreamFromConfig_keeps_state NewManager web_cfg).
  intros k up. cbn. rewrite lookup_empty. discriminate.
Defined.



End LoadFacts.
(* ===================================================================== *)
(** * Package forwarder: [Forward] *)
(* ===================================================================== *)
Module ForwardFacts.
Import Errors Ctx Tracker Manager Rate RateLimit Forwarder Balancer.

(** Every path of [Forward] leaves the rate limiter as [rateLimit] left
    it. *)
Lemma Forward_ratelimit (l : LeastConnections) (st : store) (ctx : Context)
    (info : Srv.FwdInfo) (env : answers) :
  ratelimit (balancer_after (Forward l st ctx info env))
  = (rateLimit (ratelimit l) (Srv.RateLimiterKey info) (now env)).2.
Proof.
  unfold Forward, balancer_after.
  destruct (rateLimit _ _ _) as [[e|] rl]; [reflexivity|].
  destruct (GetUpstream _ _) as [[up|] [e|]]; try reflexivity.
  destruct (NextWithContext _ _ _ _) as [[[r|msg] t] st1]; [|reflexivity].
  destruct (err r); reflexivity.
Qed.

(** A refused call touches neither the manager nor the contexts. *)
Lemma Forward_refused (l : LeastConnections) (st : store) (ctx : Context)
    (info : Srv.FwdInfo) (env : answers) (e : error) :
  (rateLimit (ratelimit l) (Srv.RateLimiterKey info) (now env)).1 = Some e ->
  Forward l st ctx info env
  = (Ret (Some e),
     mkLC (rateLimit (ratelimit l) (Srv.RateLimiterKey info) (now env)).2
          (manager l), st).
Proof.
  unfold Forward. destruct (rateLimit _ _ _) as [lim rl]. cbn [fst snd].
  intros ->. reflexivity.
Qed.





(** X23: every call counts.  With [N] tokens for each client and no
    refill, a call of [Forward] by a client that has made [c] calls
    leaves the client's bucket as after [c + 1] calls, whatever the call
    returns: also when the upstream is unknown or not ready, or when the
    dial fails.  Once [N] calls were made, the call returns the error of
    the rate limiter and changes neither the manager nor the contexts. *)
Theorem Forward_counts_every_call (N c : Z) (l : LeastConnections)
    (st : store) (ctx : Context) (info : Srv.FwdInfo) (env : answers) :
  0 <= N -> 0 <= c ->
  bucket_after N (Srv.RateLimiterKey info) c (ratelimit l) ->
  let out := Forward l st ctx info env in
  bucket_after N (Srv.RateLimiterKey info) (c + 1)
               (ratelimit (balancer_after out)) /\
  (N <= c ->
   returned out
   = Ret (Some (New ("user with key '" +:+ Srv.RateLimiterKey info
                     +:+ "' has exceeded maximum rate limit "
                     +:+ pretty N))) /\
   manager (balancer_after out) = manager l /\
   store_after out = st).
Proof.
  intros HN Hc Hb. cbn zeta.
  destruct (RateLimitFacts.rateLimit_same N HN (Srv.RateLimiterKey info)
              c (now env) (ratelimit l) Hc Hb) as [Hiff Hnext].
  split.
  - rewrite Forward_ratelimit. exact Hnext.
  - intros Hfull.
    destruct (rateLimit (ratelimit l) (Srv.RateLimiterKey info) (now env)).1
      as [e|] eqn:Hlim.
    + rewrite (Forward_refused _ _ _ _ _ _ Hlim).
      split; [|split; reflexivity].
      unfold returned; cbn [fst]. do 2 f_equal.
      revert Hlim. unfold rateLimit.
      destruct (getRL _ _) as [lim rl1]. destruct (Allow _ _) as [[] lim'].
      * discriminate.
      * cbn [fst]. intros [= <-]. destruct Hb as [-> _]. reflexivity.
    + exfalso. assert (c < N) by (apply Hiff; reflexivity). lia.
Qed.

Lemma Forward_counts_every_call_witness :
  bucket_after 1 "bob" 1
    (ratelimit (balancer_after
       (Forward web_balancer.1 web_balancer.2 1%nat bob_to_web quiet))).
Proof.
  assert (Hb : bucket_after 1 (Srv.RateLimiterKey bob_to_web) 0
                 (ratelimit web_balancer.1)).
  { split; [reflexivity|]. split; reflexivity. }
  exact (proj1 (Forward_counts_every_call 1 0 web_balancer.1 web_balancer.2
                  1%nat bob_to_web quiet (Z.le_0_1) (Z.le_refl 0) Hb)).
Defined.

End ForwardFacts.
(* ===================================================================== *)
(** * The start of the balancer, with its receiver *)
(* ===================================================================== *)
Module StartupFacts.
Import Errors Ctx Tracker Manager Heartbeat Receiver Balancer Startup.

Section Received.
(** The events the receiver may have handled. *)
Variable P : backendStatEvent -> Prop.

Lemma receive_dom (m : Manager) (st : store) (e : backendStatEvent) :
  dom (Upstreams (receive (m, st) e).1) = dom (Upstreams m).
Proof.
  unfold receive, handleHealthy, handleUnhealthy, GetUpstream; cbn [fst snd].
  destruct (stat e); [reflexivity| |];
    destruct (Upstreams m !! upstream e) as [up|] eqn:Hup;
    try reflexivity.
  - destruct (TrackBackend _ _ _) as [t st']. cbn [fst Upstreams].
    apply dom_insert_lookup_L. eauto.
  - destruct (UntrackBackend _ _ _ _) as [[r t] st']. cbn [fst Upstreams].
    apply dom_insert_lookup_L. eauto.
Qed.

Lemma started_receive (m : Manager) (st : store) (e : backendStatEvent) :
  P e -> started P m -> started P (receive (m, st) e).1.
Proof.
  intros He (Hkeys & Hcons & Hinv).
  assert (Hback : forall k up',
    Upstreams (receive (m, st) e).1 !! k = Some up' ->
    exists up, Upstreams m !! k = Some up).
  { intros k up' Hup'.
    assert (Hin : k ∈ dom (Upstreams (receive (m, st) e).1))
      by (apply elem_of_dom; eauto).
    rewrite receive_dom in Hin. apply elem_of_dom in Hin as [up Hup].
    eauto. }
  split; [|split].
  - intros k up' Hup'. destruct (Hback _ _ Hup') as [up Hup].
    destruct (ReceiverFacts.receive_upstream m st e k up Hcons Hup)
      as (_ & up2 & Hup2 & Hname & _).
    rewrite Hup' in Hup2. injection Hup2 as <-.
    rewrite Hname. exact (Hkeys _ _ Hup).
  - destruct (Upstreams m !! upstream e) as [up|] eqn:Hup.
    + exact (proj1 (ReceiverFacts.receive_upstream m st e _ up Hcons Hup)).
    + unfold receive, handleHealthy, handleUnhealthy, GetUpstream;
        cbn [fst snd]. destruct (stat e); rewrite ?Hup; exact Hcons.
  - intros k up' Hup'. destruct (Hback _ _ Hup') as [up Hup].
    destruct (ReceiverFacts.receive_upstream m st e k up Hcons Hup)
      as (_ & up2 & Hup2 & _ & _ & Hdom & Hstat).
    rewrite Hup' in Hup2. injection Hup2 as <-.
    destruct (Hinv _ _ Hup) as [Hready Hhealthy].
    destruct (decide (upstream e = k)) as [Hk|Hk].
    + rewrite (bool_decide_eq_true_2 _ Hk) in Hdom, Hstat.
      destruct (stat e) eqn:Hs.
      * rewrite Hdom, Hstat. split; assumption.
      * split; [right; exists e; done|].
        intros b. rewrite Hdom, elem_of_union, elem_of_singleton.
        intros [->|Hb]; [exists e; done | exact (Hhealthy _ Hb)].
      * rewrite Hstat. split; [exact Hready|].
        intros b. rewrite Hdom, elem_of_difference.
        intros [Hb _]. exact (Hhealthy _ Hb).
    + rewrite (bool_decide_eq_false_2 _ Hk) in Hdom, Hstat.
      rewrite Hdom, Hstat. split; assumption.
Qed.

Lemma started_background (x : background) (s : Manager * store) :
  (forall e, x = Handles e -> P e) -> started P s.1 ->
  started P (background_step s x).1 /\
  dom (Upstreams (background_step s x).1) = dom (Upstreams s.1).
Proof.
  intros Hx Hs.
  destruct x as [e| |k0|parent|c cause]; cbn [background_step];
    [| |  |split; [exact Hs | reflexivity]..].
  - rewrite (surjective_pairing s). split.
    + apply started_receive; [apply Hx; reflexivity | exact Hs].
    + apply receive_dom.
  - split; [exact Hs | reflexivity].
  - destruct Hs as (Hkeys & Hcons & Hinv).
    assert (Hback : forall k up',
      alter (fun up => mkUpstream (Name up) (Status up) (tracker up)
                                  (StopAll (heartbeats up)))
            k0 (Upstreams s.1) !! k = Some up' ->
      exists up, Upstreams s.1 !! k = Some up /\ Name up' = Name up /\
                 Status up' = Status up /\ tracker up' = tracker up).
    { intros k up'. destruct (decide (k = k0)) as [->|Hne].
      - rewrite lookup_alter_eq.
        destruct (Upstreams s.1 !! k0) as [up|]; [|discriminate].
        cbn. intros [= <-]. exists up. done.
      - rewrite lookup_alter_ne by congruence. intros Hup'.
        exists up'. done. }
    unfold StopAll_of; cbn [fst snd Upstreams].
    split; [split; [|split]|].
    + intros k up' Hup'. destruct (Hback _ _ Hup') as (up & Hup & -> & _).
      exact (Hkeys _ _ Hup).
    + intros k up' Hup'.
      destruct (Hback _ _ Hup') as (up & Hup & _ & _ & Ht).
      cbn [Upstreams] in Hup'. rewrite Ht. exact (Hcons _ _ Hup).
    + intros k up' Hup'.
      destruct (Hback _ _ Hup') as (up & Hup & _ & Hst & Ht).
      rewrite Hst, Ht. exact (Hinv _ _ Hup).
    + apply dom_alter_L.
Qed.

Lemma started_background_steps (xs : list background) :
  forall s : Manager * store,
    Forall (fun x => forall e, x = Handles e -> P e) xs -> started P s.1 ->
    started P (fold_left background_step xs s).1 /\
    dom (Upstreams (fold_left background_step xs s).1) = dom (Upstreams s.1).
Proof.
  induction xs as [|x xs IH]; intros s Hall Hs.
  - split; [exact Hs | reflexivity].
  - cbn [fold_left]. apply Forall_cons in Hall as [Hx Hall].
    destruct (started_background x s Hx Hs) as [Hs1 Hd1].
    destruct (IH _ Hall Hs1) as [Hs2 Hd2].
    split; [exact Hs2|]. rewrite Hd2. exact Hd1.
Qed.

Lemma started_Load (m : Manager) (cfg : Config.Upstream) :
  started P m ->
  started P (LoadUpstreamFromConfig m cfg) /\
  dom (Upstreams (LoadUpstreamFromConfig m cfg))
  = {[Config.Name cfg]} ∪ dom (Upstreams m).
Proof.
  intros (Hkeys & Hcons & Hinv).
  pose proof (LoadFacts.LoadUpstreamFromConfig_stores m cfg Hkeys) as Hst.
  split; [split; [|split]|].
  - intros k up. rewrite Hst, lookup_insert_Some.
    intros [[<- <-]|[_ Hup]]; [|exact (Hkeys _ _ Hup)].
    destruct (Upstreams m !! Config.Name cfg); reflexivity.
  - unfold consistent. rewrite Hst. apply map_Forall_insert_2; [|exact Hcons].
    destruct (Upstreams m !! Config.Name cfg) as [up|] eqn:Hup;
      cbn [tracker].
    + exact (Hcons _ _ Hup).
    + intros a. cbn. rewrite !dom_empty_L. reflexivity.
  - intros k up. rewrite Hst, lookup_insert_Some.
    intros [[<- <-]|[_ Hup]]; [|exact (Hinv _ _ Hup)].
    destruct (Upstreams m !! Config.Name cfg) as [up|] eqn:Hup;
      cbn [Status tracker].
    + exact (Hinv _ _ Hup).
    + split; [left; reflexivity|]. intros b. cbn.
      rewrite dom_empty_L, elem_of_empty. tauto.
  - rewrite Hst. apply dom_insert_L.
Qed.

Lemma started_load_receiving (ups : list Config.Upstream) :
  forall (s : Manager * store) (between : list (list background)),
    Forall (Forall (fun x => forall e, x = Handles e -> P e)) between ->
    started P s.1 ->
    started P (load_receiving s ups between).1 /\
    dom (Upstreams (load_receiving s ups between).1)
    = list_to_set (Config.Name <$> ups) ∪ dom (Upstreams s.1).
Proof.
  induction ups as [|cfg ups IH]; intros s between Hall Hs.
  - cbn [load_receiving].
    assert (Hhd : Forall (fun x => forall e, x = Handles e -> P e)
                    (hd [] between)).
    { destruct Hall; [constructor | assumption]. }
    destruct (started_background_steps _ s Hhd Hs) as [Hs0 Hd0].
    split; [exact Hs0|]. rewrite Hd0. cbn. apply set_eq. intros x.
    rewrite elem_of_union, elem_of_empty. tauto.
  - cbn [load_receiving].
    assert (Hhd : Forall (fun x => forall e, x = Handles e -> P e)
                    (hd [] between)).
    { destruct Hall; [constructor | assumption]. }
    assert (Htl : Forall (Forall (fun x => forall e, x = Handles e -> P e))
                    (tl between)).
    { destruct Hall; [constructor | assumption]. }
    destruct (started_background_steps _ s Hhd Hs) as [Hs0 Hd0].
    destruct (started_Load _ cfg Hs0) as [Hl Hdl].
    destruct (IH (LoadUpstreamFromConfig
                    (fold_left background_step (hd [] between) s).1 cfg,
                  (fold_left background_step (hd [] between) s).2)
                 (tl between) Htl Hl) as [Hfin Hdom].
    split; [exact Hfin|]. rewrite Hdom. cbn [fst]. rewrite Hdl, Hd0.
    cbn [fmap list_fmap list_to_set].
    apply set_eq. intros x. rewrite !elem_of_union. tauto.
Qed.

End Received.

(** When the goroutines take no step before the return, the balancer is
    the one the loads alone make. *)
Lemma load_receiving_quiet (ups : list Config.Upstream) :
  forall s : Manager * store,
    load_receiving s ups [] = (fold_left LoadUpstreamFromConfig ups s.1, s.2).
Proof.
  induction ups as [|cfg ups IH]; intros s.
  - cbn. apply surjective_pairing.
  - cbn [load_receiving fold_left hd tl]. rewrite IH. reflexivity.
Qed.

Lemma NewLeastConnectionsFromConfig_quiet (ups : list Config.Upstream)
    (maxTokens : Z) (refill : Rate.Limit) (st : store) :
  NewLeastConnectionsFromConfig_receiving ups maxTokens refill st []
  = (NewLeastConnectionsFromConfig ups maxTokens refill, st).
Proof.
  unfold NewLeastConnectionsFromConfig_receiving,
    NewLeastConnectionsFromConfig.
  rewrite load_receiving_quiet. reflexivity.
Qed.

(** The teardown of [Start] is these steps: the channel is closed, then
    the heartbeats of every upstream are stopped. *)
Lemma StopAll_of_fold (ks : list string) :
  forall (m : Manager) (st : store) (k : string),
    NoDup ks ->
    Upstreams (fold_left background_step (StopsHeartbeats <$> ks) (m, st)).1
    !! k
    = if decide (k ∈ ks)
      then (fun up => mkUpstream (Name up) (Status up) (tracker up)
                                 (StopAll (heartbeats up)))
             <$> Upstreams m !! k
      else Upstreams m !! k.
Proof.
  induction ks as [|k0 ks IH]; intros m st k Hnd.
  - cbn. rewrite decide_False by apply not_elem_of_nil. reflexivity.
  - apply NoDup_cons in Hnd as [Hk0 Hnd].
    cbn [fmap list_fmap fold_left background_step fst snd].
    rewrite IH by exact Hnd. unfold StopAll_of; cbn [Upstreams].
    destruct (decide (k = k0)) as [->|Hne].
    + rewrite decide_False by exact Hk0.
      rewrite decide_True by (apply list_elem_of_here).
      apply lookup_alter_eq.
    + rewrite lookup_alter_ne by congruence.
      destruct (decide (k ∈ ks)) as [Hin|Hout].
      * rewrite decide_True by (apply list_elem_of_further, Hin).
        reflexivity.
      * rewrite decide_False; [reflexivity|].
        intros Hin. apply elem_of_cons in Hin as [?|?]; contradiction.
Qed.

Lemma background_step_other (xs : list background) :
  forall s : Manager * store,
    Forall (fun x => exists k, x = StopsHeartbeats k) xs ->
    BackendStatuses (fold_left background_step xs s).1 = BackendStatuses s.1
    /\ healthEventsClosed (fold_left background_step xs s).1
       = healthEventsClosed s.1
    /\ (fold_left background_step xs s).2 = s.2.
Proof.
  induction xs as [|x xs IH]; intros s Hall; [done|].
  apply Forall_cons in Hall as [[k ->] Hall]. cbn [fold_left].
  destruct (IH (background_step s (StopsHeartbeats k)) Hall)
    as (-> & -> & ->). done.
Qed.

Lemma Start_teardown_steps (m : Manager) (st : store) :
  Start_teardown m st
  = fold_left background_step
      (ClosesEvents
         :: (StopsHeartbeats <$> (map_to_list (Upstreams m)).*1))
      (m, st).
Proof.
  cbn [fold_left background_step fst snd].
  set (ks := (map_to_list (Upstreams m)).*1).
  assert (Hall : Forall (fun x => exists k, x = StopsHeartbeats k)
                   (StopsHeartbeats <$> ks)).
  { apply Forall_fmap, Forall_forall. intros k _. cbn. eauto. }
  destruct (background_step_other _ (close_healthEvents m, st) Hall)
    as (Hb & Hc & Hst).
  assert (Hu : Upstreams
                 (fold_left background_step (StopsHeartbeats <$> ks)
                    (close_healthEvents m, st)).1
               = (fun up => mkUpstream (Name up) (Status up) (tracker up)
                                       (StopAll (heartbeats up)))
                   <$> Upstreams m).
  { apply map_eq. intros k.
    rewrite (StopAll_of_fold ks (close_healthEvents m) st k)
      by apply NoDup_fst_map_to_list.
    cbn [close_healthEvents Upstreams]. rewrite lookup_fmap.
    destruct (decide (k ∈ ks)) as [_|Hout]; [reflexivity|].
    destruct (Upstreams m !! k) as [up|] eqn:Hup; [|reflexivity].
    exfalso. apply Hout. unfold ks. apply list_elem_of_fmap.
    exists (k, up). split; [reflexivity|].
    apply elem_of_map_to_list. exact Hup. }
  unfold Start_teardown.
  destruct (fold_left background_step (StopsHeartbeats <$> ks)
              (close_healthEvents m, st)) as [m' st'].
  cbn [fst snd] in Hb, Hc, Hst, Hu. subst st'.
  destruct m' as [U B C]. cbn in Hb, Hc, Hu. subst U B C. reflexivity.
Qed.

(** X21: what the start of the balancer fixes.  Whatever steps its
    goroutines have taken before [NewLeastConnectionsFromConfig]
    returns, the balancer it returns knows exactly the configured names,
    every upstream is stored under its name, and the rate limiter has no
    bucket; an upstream is ready only when the receiver handled an event
    that reported one of its backends healthy, and its healthy backends
    are among those such an event named.  So an upstream for which no
    such event was handled yet is not ready and has no healthy
    backend. *)
Theorem NewLeastConnectionsFromConfig_upstreams (ups : list Config.Upstream)
    (maxTokens : Z) (refill : Rate.Limit) (st : store)
    (between : list (list background)) :
  let l :=
    (NewLeastConnectionsFromConfig_receiving ups maxTokens refill st
                                             between).1 in
  dom (Upstreams (manager l)) = list_to_set (Config.Name <$> ups) /\
  (forall (k : string) (up : Upstream),
     Upstreams (manager l) !! k = Some up ->
     Name up = k /\
     (Status up = NOTREADY \/ exists b, healthy_received k b between) /\
     (forall b : string,
        b ∈ dom (healthyBackends (tracker up)) ->
        healthy_received k b between)) /\
  RateLimit.clientRL (ratelimit l) = ∅.
Proof.
  cbn zeta. unfold NewLeastConnectionsFromConfig_receiving.
  cbn [fst manager ratelimit RateLimit.clientRL].
  set (P := fun e : backendStatEvent => Handles e ∈ concat between).
  assert (Hall : Forall (Forall (fun x => forall e, x = Handles e -> P e))
                   between).
  { apply Forall_forall. intros batch Hbatch.
    apply Forall_forall. intros x Hx e ->. unfold P.
    apply list_elem_of_In, in_concat. exists batch.
    split; apply list_elem_of_In; assumption. }
  assert (H0 : started P (NewManager, st).1).
  { split; [|split]; cbn [fst].
    - intros k up. cbn. rewrite lookup_empty. discriminate.
    - apply map_Forall_empty.
    - intros k up. cbn. rewrite lookup_empty. discriminate. }
  destruct (started_load_receiving P ups (NewManager, st) between Hall H0)
    as [(Hkeys & _ & Hinv) Hdom].
  split; [|split; [|reflexivity]].
  - rewrite Hdom. cbn. rewrite dom_empty_L. apply set_eq. intros x.
    rewrite elem_of_union, elem_of_empty. tauto.
  - intros k up Hup. split; [exact (Hkeys _ _ Hup)|].
    destruct (Hinv _ _ Hup) as [Hready Hhealthy]. split.
    + destruct Hready as [Hn|(e & He & Hu & Hs)]; [left; exact Hn|].
      right. exists (addr e), e. done.
    + intros b Hb. destruct (Hhealthy _ Hb) as (e & He & Hu & Ha & Hs).
      exists e. done.
Qed.

End StartupFacts.
(* ===================================================================== *)
(** * A forwarded connection among the other goroutines *)
(* ===================================================================== *)
Module ScheduleFacts.
Import Errors Ctx Tracker Manager Rate RateLimit Forwarder Balancer Schedule.

(** ** Stores *)

Lemma grows_refl (st : store) : grows st st.
Proof. split; [apply Nat.le_refl|]. split; [reflexivity | tauto]. Qed.

Lemma grows_trans (st1 st2 st3 : store) :
  grows st1 st2 -> grows st2 st3 -> grows st1 st3.
Proof.
  intros (Hn1 & Hf1 & Hc1) (Hn2 & Hf2 & Hc2). split; [lia|]. split.
  - intros id Hid. rewrite Hf2 by lia. apply Hf1, Hid.
  - intros x Hx. apply Hc2, Hc1, Hx.
Qed.

Lemma WithCancelCause_grows (st : store) (p : Context) :
  grows st (WithCancelCause st p).2.
Proof.
  unfold WithCancelCause; cbn [snd]. split; [cbn; lia|].
  split; [reflexivity|]. intros x Hx. cbn [cause_of].
  destruct (cause_of st !! p); [|exact Hx].
  destruct (decide (x = next st)) as [->|Hne].
  - rewrite lookup_insert_eq. eauto.
  - rewrite lookup_insert_ne by congruence. exact Hx.
Qed.

Lemma AfterFunc_grows (st : store) (x : Context) (f : afterFunc) :
  grows st (AfterFunc st x f).2.
Proof.
  unfold AfterFunc; cbn [snd]. split; [cbn; lia|]. split; [|tauto].
  intros id Hid. cbn [afterFuncs]. apply lookup_insert_ne. lia.
Qed.

Lemma cancel_grows (st : store) (x : Context) (e : error) :
  grows st (Ctx.cancel st x e).
Proof.
  destruct (CtxFacts.cancel_frame st x e) as (Hf & _ & Hn).
  split; [rewrite Hn; apply Nat.le_refl|]. split.
  - intros id _. rewrite Hf. reflexivity.
  - intros y [e0 Hy]. exists e0.
    exact (CtxFacts.cancel_first_wins st x y e e0 Hy).
Qed.

Lemma TrackBackend_grows (t : Tracker) (st : store) (b : string) :
  grows st (TrackBackend t st b).2.
Proof.
  unfold TrackBackend. destruct (healthyBackends t !! b).
  - apply grows_refl.
  - apply WithCancelCause_grows.
Qed.

Lemma UntrackBackend_grows (t : Tracker) (st : store) (b : string)
    (e : option error) :
  grows st (UntrackBackend t st b e).2.
Proof.
  unfold UntrackBackend. destruct (backendCanceler t !! b) as [x|].
  - destruct e; [apply cancel_grows | apply grows_refl].
  - apply grows_refl.
Qed.

Lemma trackCtx_grows (t : Tracker) (st : store) (outer backend : Context)
    (b : string) :
  grows st (trackCtx t st outer backend b).2.
Proof.
  unfold trackCtx.
  pose proof (WithCancelCause_grows st outer) as H1.
  destruct (WithCancelCause st outer) as [x st1]. cbn [snd] in H1.
  pose proof (AfterFunc_grows st1 backend (PropagateBackendCancel backend x))
    as H2.
  destruct (AfterFunc st1 backend _) as [id1 st2]. cbn [snd] in H2.
  pose proof (AfterFunc_grows st2 x
                (RemoveTrackedConn (UpstreamName t) outer b)) as H3.
  destruct (AfterFunc st2 x _) as [id2 st3]. cbn [snd] in H3 |- *.
  exact (grows_trans _ _ _ H1 (grows_trans _ _ _ H2 H3)).
Qed.

(** ** Trackers *)

Lemma counts_no_more_refl (outer : Context) (t : Tracker) :
  counts_no_more outer t t.
Proof. split; [reflexivity|]. intros b s Hs Hin. eauto. Qed.

Lemma TrackBackend_counts (outer : Context) (t : Tracker) (st : store)
    (b : string) :
  counts_no_more outer t (TrackBackend t st b).1.
Proof.
  unfold TrackBackend. destruct (healthyBackends t !! b) eqn:Hb.
  - apply counts_no_more_refl.
  - cbn [WithCancelCause fst]. split; [reflexivity|].
    intros b' s. cbn [healthyBackends].
    destruct (decide (b' = b)) as [->|Hne].
    + rewrite lookup_insert_eq. intros [= <-] Hin.
      apply elem_of_empty in Hin. contradiction.
    + rewrite lookup_insert_ne by congruence. eauto.
Qed.

Lemma UntrackBackend_counts (outer : Context) (t : Tracker) (st : store)
    (b : string) (e : option error) :
  counts_no_more outer t (UntrackBackend t st b e).1.2.
Proof.
  unfold UntrackBackend. destruct (backendCanceler t !! b) as [x|].
  - destruct e; [|apply counts_no_more_refl].
    cbn [fst snd]. split; [reflexivity|].
    intros b' s. cbn [healthyBackends]. rewrite lookup_delete_Some.
    intros [_ Hs] Hin. eauto.
  - apply counts_no_more_refl.
Qed.

Lemma removeTrackedConn_counts (outer x : Context) (t : Tracker)
    (b : string) :
  counts_no_more outer t (removeTrackedConn t x b).
Proof.
  split; [reflexivity|]. intros b' s.
  unfold removeTrackedConn; cbn [healthyBackends set_healthyBackends].
  destruct (decide (b' = b)) as [->|Hne].
  - rewrite lookup_alter_eq.
    destruct (healthyBackends t !! b) as [s0|]; [|discriminate].
    cbn. intros [= <-] Hin. apply elem_of_difference in Hin as [Hin _].
    eauto.
  - rewrite lookup_alter_ne by congruence. eauto.
Qed.

(** What [removeTrackedConn] removes is gone. *)
Lemma removeTrackedConn_gone (x : Context) (t : Tracker) (b : string)
    (s : activeConns) :
  healthyBackends (removeTrackedConn t x b) !! b = Some s -> x ∉ s.
Proof.
  unfold removeTrackedConn; cbn [healthyBackends set_healthyBackends].
  rewrite lookup_alter_eq.
  destruct (healthyBackends t !! b) as [s0|]; [|discriminate].
  cbn. intros [= <-] Hin. apply elem_of_difference in Hin as [_ Hn].
  apply Hn, elem_of_singleton. reflexivity.
Qed.

Lemma NextWithContext_counts_others (outer parent : Context) (t : Tracker)
    (st : store) (order : list (string * activeConns)) :
  parent <> outer ->
  counts_no_more outer t (NextWithContext t st parent order).1.2.
Proof.
  intros Hne.
  assert (Hins : forall b0 s0,
    healthyBackends t !! b0 = Some s0 ->
    counts_no_more outer t
      (set_healthyBackends t
         (<[b0 := {[parent]} ∪ s0]> (healthyBackends t)))).
  { intros b0 s0 Hb0. split; [reflexivity|]. intros b s.
    cbn [healthyBackends set_healthyBackends].
    destruct (decide (b = b0)) as [->|Hb].
    - rewrite lookup_insert_eq. intros [= <-] Hin.
      apply elem_of_union in Hin as [Hin|Hin].
      + apply elem_of_singleton in Hin. congruence.
      + eauto.
    - rewrite lookup_insert_ne by congruence. eauto. }
  unfold NextWithContext.
  destruct (decide (size (healthyBackends t) = 0%nat));
    [apply counts_no_more_refl|].
  destruct (healthyBackends t !! leastConnections order) as [s0|] eqn:Hs;
    [|apply counts_no_more_refl].
  cbn [backendCanceler set_healthyBackends].
  destruct (backendCanceler t !! leastConnections order);
    [|exact (Hins _ _ Hs)].
  rewrite ConnLifecycle.trackCtx_store. exact (Hins _ _ Hs).
Qed.

Lemma NextWithContext_name (t : Tracker) (st : store) (parent : Context)
    (order : list (string * activeConns)) :
  UpstreamName (NextWithContext t st parent order).1.2 = UpstreamName t.
Proof.
  unfold NextWithContext.
  destruct (decide (size (healthyBackends t) = 0%nat)); [reflexivity|].
  destruct (healthyBackends t !! leastConnections order); [|reflexivity].
  cbn [backendCanceler set_healthyBackends].
  destruct (backendCanceler t !! leastConnections order); [|reflexivity].
  rewrite ConnLifecycle.trackCtx_store. reflexivity.
Qed.

Lemma NextWithContext_grows (t : Tracker) (st : store) (parent : Context)
    (order : list (string * activeConns)) :
  grows st (NextWithContext t st parent order).2.
Proof.
  unfold NextWithContext.
  destruct (decide (size (healthyBackends t) = 0%nat)); [apply grows_refl|].
  destruct (healthyBackends t !! leastConnections order) as [s0|];
    [|apply grows_refl].
  cbn [backendCanceler set_healthyBackends].
  destruct (backendCanceler t !! leastConnections order) as [b|];
    [|apply grows_refl].
  pose proof (trackCtx_grows
                (set_healthyBackends t
                   (<[leastConnections order := {[parent]} ∪ s0]>
                      (healthyBackends t)))
                st parent (ctx b) (leastConnections order)) as Hg.
  destruct (trackCtx _ _ _ _ _) as [[x f] st']. exact Hg.
Qed.

(** ** One step *)

(** A step keeps every upstream, with its tracker's name; and the handle
    [outer] is counted afterwards only where it was counted before,
    unless the step is a call of [NextWithContext] with [outer]. *)
Lemma step_upstream (outer : Context) (x : act) (w : world) (k : string) :
  (is_Some (Upstreams (manager w.1) !! k) ->
   is_Some (Upstreams (manager (step x w).1) !! k)) /\
  forall up' : Upstream,
    Upstreams (manager (step x w).1) !! k = Some up' ->
    exists up : Upstream,
      Upstreams (manager w.1) !! k = Some up /\
      UpstreamName (tracker up') = UpstreamName (tracker up) /\
      (harmless outer k x -> counts_no_more outer (tracker up) (tracker up')).
Proof.
  set (U := Upstreams (manager w.1)).
  assert (Hsame :
    (is_Some (U !! k) -> is_Some (U !! k)) /\
    forall up' : Upstream,
      U !! k = Some up' ->
      exists up : Upstream,
        U !! k = Some up /\
        UpstreamName (tracker up') = UpstreamName (tracker up) /\
        (harmless outer k x ->
         counts_no_more outer (tracker up) (tracker up'))).
  { split; [tauto|]. intros up' Hup'. exists up'.
    split; [exact Hup'|]. split; [reflexivity|].
    intros _. apply counts_no_more_refl. }
  assert (Hins : forall (k0 : string) (up0 : Upstream) (s : Z)
                        (t' : Tracker),
    U !! k0 = Some up0 ->
    UpstreamName t' = UpstreamName (tracker up0) ->
    (harmless outer k0 x -> counts_no_more outer (tracker up0) t') ->
    (is_Some (U !! k) ->
     is_Some (<[k0 := mkUpstream (Name up0) s t' (heartbeats up0)]> U !! k))
    /\
    forall up' : Upstream,
      <[k0 := mkUpstream (Name up0) s t' (heartbeats up0)]> U !! k
      = Some up' ->
      exists up : Upstream,
        U !! k = Some up /\
        UpstreamName (tracker up') = UpstreamName (tracker up) /\
        (harmless outer k x ->
         counts_no_more outer (tracker up) (tracker up'))).
  { intros k0 up0 s t' Hup0 Hname Hcount.
    destruct (decide (k = k0)) as [->|Hne].
    - rewrite lookup_insert_eq. split; [eauto|].
      intros up' [= <-]. exists up0. cbn [tracker]. done.
    - rewrite lookup_insert_ne by congruence. split; [tauto|].
      intros up' Hup'. exists up'. split; [exact Hup'|].
      split; [reflexivity|]. intros _. apply counts_no_more_refl. }
  destruct x as [e|key now|u' parent order|id|c0 cause|id| |k0|p0]; cbn [step].
  - (* the receiver *)
    unfold Receiver.receive, handleHealthy, handleUnhealthy, GetUpstream.
    cbn [fst snd]. fold U.
    destruct (Heartbeat.stat e); [exact Hsame| |].
    + destruct (U !! Heartbeat.upstream e) as [up0|] eqn:Hup0;
        [|exact Hsame].
      pose proof (TrackBackend_counts outer (tracker up0) w.2
                    (Heartbeat.addr e)) as Hc.
      destruct (TrackBackend (tracker up0) w.2 (Heartbeat.addr e))
        as [t' st'].
      cbn [fst snd manager Upstreams].
      apply Hins; [exact Hup0 | exact (proj1 Hc)|].
      intros _. exact Hc.
    + destruct (U !! Heartbeat.upstream e) as [up0|] eqn:Hup0;
        [|exact Hsame].
      pose proof (UntrackBackend_counts outer (tracker up0) w.2
                    (Heartbeat.addr e) (Some ErrBackendUnhealthy)) as Hc.
      destruct (UntrackBackend (tracker up0) w.2 (Heartbeat.addr e) _)
        as [[r t'] st'].
      cbn [fst snd manager Upstreams].
      apply Hins; [exact Hup0 | exact (proj1 Hc)|].
      intros _. exact Hc.
  - exact Hsame.
  - fold U. destruct (U !! u') as [up0|] eqn:Hup0; [|exact Hsame].
    cbn [fst snd manager set_tracker Upstreams]. fold U.
    apply Hins; [exact Hup0 | apply NextWithContext_name|].
    intros Hh. apply NextWithContext_counts_others. apply Hh. reflexivity.
  - exact Hsame.
  - exact Hsame.
  - unfold run_closure.
    destruct (runnable w.2 id) as [[backend effective|name x b]|];
      [exact Hsame| |exact Hsame].
    cbn [fst manager]. fold U.
    destruct (U !! name) as [up0|] eqn:Hup0; [|exact Hsame].
    cbn [set_tracker Upstreams]. fold U.
    apply Hins; [exact Hup0 | reflexivity|].
    intros _. apply removeTrackedConn_counts.
  - exact Hsame.
  - unfold Startup.StopAll_of; cbn [fst snd manager Upstreams]. fold U.
    destruct (decide (k = k0)) as [->|Hne].
    + rewrite lookup_alter_eq. split.
      * intros [up Hup]. rewrite Hup. cbn. eauto.
      * intros up' Hup'.
        destruct (U !! k0) as [up|]; [|discriminate].
        cbn in Hup'. injection Hup' as <-. exists up.
        split; [reflexivity|]. split; [reflexivity|].
        intros _. apply counts_no_more_refl.
    + rewrite lookup_alter_ne by congruence. exact Hsame.
  - exact Hsame.
Qed.

(** What a step does to the store. *)
Lemma step_store (x : act) (w : world) :
  match x with
  | Stops id => (step x w).2 = stop w.2 id
  | Runs id =>
      (step x w).2 = w.2 \/
      (is_Some (runnable w.2 id) /\ grows (stop w.2 id) (step x w).2)
  | _ => grows w.2 (step x w).2
  end.
Proof.
  destruct x as [e|key now|u' parent order|id|c0 cause|id| |k0|p0]; cbn [step].
  - unfold Receiver.receive, handleHealthy, handleUnhealthy, GetUpstream.
    cbn [fst snd].
    destruct (Heartbeat.stat e); [apply grows_refl| |].
    + destruct (Upstreams (manager w.1) !! Heartbeat.upstream e)
        as [up0|]; [|apply grows_refl].
      pose proof (TrackBackend_grows (tracker up0) w.2 (Heartbeat.addr e))
        as Hg.
      destruct (TrackBackend _ _ _) as [t' st']. exact Hg.
    + destruct (Upstreams (manager w.1) !! Heartbeat.upstream e)
        as [up0|]; [|apply grows_refl].
      pose proof (UntrackBackend_grows (tracker up0) w.2 (Heartbeat.addr e)
                    (Some ErrBackendUnhealthy)) as Hg.
      destruct (UntrackBackend _ _ _ _) as [[r t'] st']. exact Hg.
  - apply grows_refl.
  - destruct (Upstreams (manager w.1) !! u') as [up0|];
      [|apply grows_refl].
    apply NextWithContext_grows.
  - reflexivity.
  - apply cancel_grows.
  - unfold run_closure.
    destruct (runnable w.2 id) as [[backend effective|name x b]|] eqn:Hr;
      [right|right|left; reflexivity]; (split; [eauto|]); cbn [snd].
    + destruct (Cause (stop w.2 id) backend);
        [apply cancel_grows | apply grows_refl].
    + apply grows_refl.
  - apply grows_refl.
  - apply grows_refl.
  - apply WithCancelCause_grows.
Qed.

(** ** The removal closure of one connection *)

Section Connection.
Variables (u : string) (outer : Context) (a : string) (c : Context)
          (h : nat).

(** A step that does not stop the removal closure. *)
Lemma allowed_pending (x : act) (w : world) :
  allowed x w = true -> pending u outer a c h w.2 -> x <> Stops h.
Proof.
  intros Hal Hp ->. unfold allowed in Hal. rewrite Hp in Hal. discriminate.
Qed.

Lemma step_next (x : act) (w : world) :
  (next w.2 <= next (step x w).2)%nat.
Proof.
  pose proof (step_store x w) as Hs.
  destruct x; try exact (proj1 Hs).
  - rewrite Hs. apply Nat.le_refl.
  - destruct Hs as [->|[_ Hg]]; [apply Nat.le_refl | exact (proj1 Hg)].
Qed.

(** A registration is the same after a step that neither stops it nor
    runs it. *)
Lemma step_afterFuncs (x : act) (w : world) (id : nat) :
  (id < next w.2)%nat -> x <> Stops id -> x <> Runs id ->
  afterFuncs (step x w).2 !! id = afterFuncs w.2 !! id.
Proof.
  intros Hid Hstop Hrun. pose proof (step_store x w) as Hs.
  destruct x as [e|key now|u' parent order|id'|c0 cause|id'| |k0|p0];
    try exact (proj1 (proj2 Hs) id Hid).
  - rewrite Hs. cbn [stop afterFuncs]. apply lookup_delete_ne. congruence.
  - destruct Hs as [->|[_ Hg]]; [reflexivity|].
    rewrite (proj1 (proj2 Hg)) by exact Hid.
    cbn [stop afterFuncs]. apply lookup_delete_ne. congruence.
Qed.

(** A registration that is gone stays gone. *)
Lemma step_unregistered (x : act) (w : world) (id : nat) :
  (id < next w.2)%nat -> afterFuncs w.2 !! id = None ->
  afterFuncs (step x w).2 !! id = None.
Proof.
  intros Hid Hnone. pose proof (step_store x w) as Hs.
  destruct x as [e|key now|u' parent order|id'|c0 cause|id'| |k0|p0];
    try (rewrite (proj1 (proj2 Hs) id Hid); exact Hnone).
  - rewrite Hs. cbn [stop afterFuncs].
    apply lookup_delete_None. right. exact Hnone.
  - destruct Hs as [->|[_ Hg]]; [exact Hnone|].
    rewrite (proj1 (proj2 Hg)) by exact Hid.
    cbn [stop afterFuncs]. apply lookup_delete_None. right. exact Hnone.
Qed.

(** A context that is done stays done. *)
Lemma step_done (x : act) (w : world) (y : Context) :
  Done w.2 y = true -> Done (step x w).2 y = true.
Proof.
  unfold Done. rewrite !bool_decide_eq_true. intros Hy.
  pose proof (step_store x w) as Hs.
  destruct x as [e|key now|u' parent order|id'|c0 cause|id'| |k0|p0];
    try exact (proj2 (proj2 Hs) y Hy).
  - rewrite Hs. exact Hy.
  - destruct Hs as [->|[_ Hg]]; [exact Hy|].
    exact (proj2 (proj2 Hg) y Hy).
Qed.

(** The removal closure that runs is gone. *)
Lemma step_Runs_pending (w : world) :
  (h < next w.2)%nat ->
  afterFuncs (step (Runs h) w).2 !! h = afterFuncs w.2 !! h \/
  (is_Some (runnable w.2 h) /\ afterFuncs (step (Runs h) w).2 !! h = None).
Proof.
  intros Hh. pose proof (step_store (Runs h) w) as Hs.
  destruct Hs as [->|[Hr Hg]]; [left; reflexivity|].
  right. split; [exact Hr|].
  rewrite (proj1 (proj2 Hg)) by exact Hh.
  cbn [stop afterFuncs]. apply lookup_delete_eq.
Qed.

Lemma Runs_cases (x : act) : x = Runs h \/ x <> Runs h.
Proof.
  destruct x as [e|key now|u' parent order|id|c0 cause|id| |k0|p0];
    try (right; discriminate).
  destruct (decide (id = h)) as [->|Hne]; [left; reflexivity|].
  right. congruence.
Qed.

Lemma kept_step (past : list act) (x : act) (w : world) :
  kept u outer a c h past w ->
  (pending u outer a c h w.2 -> x <> Stops h) ->
  kept u outer a c h (past ++ [x]) (step x w).
Proof.
  intros (Hnamed & Hu & Hh & Hreg) Hstop.
  split; [|split; [|split]].
  - intros k up' Hup'.
    destruct (proj2 (step_upstream outer x w k) up' Hup')
      as (up & Hup & Hname & _).
    rewrite Hname. exact (Hnamed _ _ Hup).
  - exact (proj1 (step_upstream outer x w u) Hu).
  - pose proof (step_next x w). lia.
  - destruct Hreg as [Hp|[Hnone Hran]].
    + destruct (Runs_cases x) as [->|Hrun].
      * destruct (step_Runs_pending w Hh) as [Heq|[_ Hgone]].
        -- left. unfold pending. rewrite Heq. exact Hp.
        -- right. split; [exact Hgone|].
           apply elem_of_app. right. apply list_elem_of_singleton.
           reflexivity.
      * left. unfold pending.
        rewrite (step_afterFuncs x w h Hh (Hstop Hp) Hrun). exact Hp.
    + right. split; [exact (step_unregistered x w h Hh Hnone)|].
      apply elem_of_app. left. exact Hran.
Qed.

Lemma counted_step (past : list act) (x : act) (w : world) :
  kept u outer a c h past w ->
  counted_while_pending u outer a c h w ->
  (pending u outer a c h w.2 -> x <> Stops h) ->
  harmless outer u x ->
  counted_while_pending u outer a c h (step x w).
Proof.
  intros (Hnamed & Hu & Hh & Hreg) Hcount Hstop Hharm up' b s Hup' Hs Hin.
  destruct (proj2 (step_upstream outer x w u) up' Hup')
    as (up & Hup & _ & Hno).
  destruct (proj2 (Hno Hharm) b s Hs Hin) as (s0 & Hs0 & Hin0).
  destruct (Hcount up b s0 Hup Hs0 Hin0) as [-> Hp].
  split; [reflexivity|].
  destruct (Runs_cases x) as [->|Hrun].
  - destruct (step_Runs_pending w Hh) as [Heq|[Hr _]].
    + unfold pending. rewrite Heq. exact Hp.
    + (* the closure itself has run: the handle is gone *)
      exfalso. revert Hr Hup' Hs Hin. cbn [step].
      unfold run_closure, runnable. rewrite Hp.
      destruct (Done w.2 c); [|intros [? ?]; discriminate].
      intros _. cbn [fst snd manager]. rewrite Hup.
      cbn [set_tracker Upstreams]. rewrite lookup_insert_eq.
      intros [= <-]. cbn [tracker]. intros Hs Hin.
      exact (removeTrackedConn_gone outer (tracker up) a s Hs Hin).
  - unfold pending.
    rewrite (step_afterFuncs x w h Hh (Hstop Hp) Hrun). exact Hp.
Qed.


Lemma kept_run (acts : list act) :
  forall (past : list act) (w : world),
    kept u outer a c h past w -> can_run acts w = true ->
    kept u outer a c h (past ++ acts) (run acts w).
Proof.
  induction acts as [|x acts IH]; intros past w Hk Hcan.
  - rewrite app_nil_r. exact Hk.
  - cbn [can_run] in Hcan. apply andb_prop in Hcan as [Hal Hcan].
    cbn [run]. replace (past ++ x :: acts) with ((past ++ [x]) ++ acts)
      by (rewrite <- app_assoc; reflexivity).
    apply IH; [|exact Hcan]. apply kept_step; [exact Hk|].
    intros Hp. exact (allowed_pending x w Hal Hp).
Qed.

Lemma counted_run (acts : list act) :
  forall (past : list act) (w : world),
    kept u outer a c h past w ->
    counted_while_pending u outer a c h w ->
    can_run acts w = true -> request_scoped u outer acts ->
    counted_while_pending u outer a c h (run acts w).
Proof.
  induction acts as [|x acts IH]; intros past w Hk Hc Hcan Hsc.
  - exact Hc.
  - cbn [can_run] in Hcan. apply andb_prop in Hcan as [Hal Hcan].
    apply Forall_cons in Hsc as [Hx Hsc]. cbn [run].
    assert (Hstop : pending u outer a c h w.2 -> x <> Stops h)
      by (intros Hp; exact (allowed_pending x w Hal Hp)).
    apply (IH (past ++ [x])); [| |exact Hcan|exact Hsc].
    + apply kept_step; assumption.
    + apply (counted_step past); assumption.
Qed.

Lemma done_run (acts : list act) (y : Context) :
  forall w : world,
    Done w.2 y = true -> Done (run acts w).2 y = true.
Proof.
  induction acts as [|x acts IH]; intros w Hd; [exact Hd|].
  cbn [run]. apply IH, step_done, Hd.
Qed.

(** Once its context is done and it has run, the removal closure is
    gone. *)
Lemma ran_unregistered (past : list act) (w : world) :
  kept u outer a c h past w -> Done w.2 c = true ->
  afterFuncs (step (Runs h) w).2 !! h = None.
Proof.
  intros (_ & _ & Hh & [Hp|[Hnone _]]) Hd.
  - cbn [step]. unfold run_closure, runnable. rewrite Hp, Hd.
    cbn [snd stop afterFuncs]. apply lookup_delete_eq.
  - apply step_unregistered; assumption.
Qed.

End Connection.

(** The call of [Forward] that no other step interleaves with. *)
Lemma Forward_alone (l : LeastConnections) (st : store) (ctx : Context)
    (info : Srv.FwdInfo) (env : answers) (up : Upstream)
    (res : nextResult) (t1 : Tracker) (st1 : store) (c : Context)
    (f : CancelFunc) :
  (rateLimit (ratelimit l) (Srv.RateLimiterKey info) (now env)).1 = None ->
  Upstreams (manager l) !! Srv.FUpstream info = Some up ->
  NextWithContext (tracker up) st ctx (order env) = (Ret res, t1, st1) ->
  nctx res = Some c -> cancelFunc res = Some f ->
  Forward l st ctx info env
  = (Ret (fwd (dial env) (first env) (second env)),
     (run [Limits (Srv.RateLimiterKey info) (now env);
           Picks (Srv.FUpstream info) ctx (order env);
           Stops (afterBackendCancelled f);
           Cancels c context_Canceled] (l, st)).1,
     (run [Limits (Srv.RateLimiterKey info) (now env);
           Picks (Srv.FUpstream info) ctx (order env);
           Stops (afterBackendCancelled f);
           Cancels c context_Canceled] (l, st)).2).
Proof.
  intros Hlim Hup Hcall Hc Hf.
  pose proof (ConnLifecycle.NextWithContext_no_error _ _ _ _ _ _ _ _ Hcall Hc)
    as Herr.
  destruct (ConnLifecycle.NextWithContext_Ret _ _ _ _ _ _ _ Hcall Herr)
    as (s & b & _ & _ & Hr & _ & _).
  assert (Htarget : target f = c).
  { rewrite Hr in Hc, Hf. cbn [nctx cancelFunc] in Hc, Hf.
    injection Hc as <-. injection Hf as <-. reflexivity. }
  cbn [run step fst snd manager ratelimit]. rewrite Hup, Hcall.
  cbn [fst snd]. unfold Forward, GetUpstream.
  destruct (rateLimit _ _ _) as [lim rl]. cbn [fst snd] in Hlim |- *.
  rewrite Hlim, Hup, Hcall, Herr, Hf. unfold call_cancelFunc, set_tracker.
  rewrite Htarget. reflexivity.
Qed.

(** From the return of [NextWithContext] on: the steps of the others and
    of the deferred cancel. *)
Lemma picked_connection_released (w0 : world) (u : string) (ctx : Context)
    (order : list (string * activeConns)) (up : Upstream)
    (res : nextResult) (t1 : Tracker) (st1 : store) (c : Context)
    (f : CancelFunc) (E1 E2 E3 : list act) :
  let w1 := step (Picks u ctx order) w0 in
  let w2 := step (Stops (afterBackendCancelled f)) (run E1 w1) in
  let w3 := step (Cancels c context_Canceled) (run E2 w2) in
  let w := run E3 w3 in
  named (manager w0.1) ->
  Upstreams (manager w0.1) !! u = Some up ->
  NextWithContext (tracker up) w0.2 ctx order = (Ret res, t1, st1) ->
  nctx res = Some c -> cancelFunc res = Some f ->
  can_run E1 w1 = true -> can_run E2 w2 = true -> can_run E3 w3 = true ->
  Done w.2 c = true /\
  exists h : nat,
    pending u ctx (addr res) c h w1.2 /\
    (runnable w.2 h = Some (RemoveTrackedConn u ctx (addr res)) \/
     afterFuncs w.2 !! h = None /\ Runs h ∈ E1 ++ E2 ++ E3) /\
    (untracked (tracker up) ctx ->
     request_scoped u ctx (E1 ++ E2 ++ E3) ->
     uncounted u ctx (step (Runs h) w)).
Proof.
  intros w1 w2 w3 w Hnamed Hup Hcall Hc Hf Hcan1 Hcan2 Hcan3.
  pose proof (ConnLifecycle.NextWithContext_no_error _ _ _ _ _ _ _ _ Hcall Hc)
    as Herr.
  destruct (ConnLifecycle.NextWithContext_Ret _ _ _ _ _ _ _ Hcall Herr)
    as (s & b & Hs & _ & Hr & Ht1 & Hst1).
  rewrite ConnLifecycle.trackCtx_store in Hst1. cbn [snd] in Hst1.
  assert (Hname : UpstreamName t1 = u).
  { rewrite Ht1. cbn. exact (Hnamed _ _ Hup). }
  rewrite Hname in Hst1.
  assert (Hcf : c = next w0.2 /\
                f = mkCancelFunc (S (next w0.2)) (next w0.2)).
  { rewrite Hr in Hc, Hf. cbn [nctx cancelFunc] in Hc, Hf.
    injection Hc as <-. injection Hf as <-. done. }
  destruct Hcf as [Hceq Hfeq].
  set (h := S (S (next w0.2))).
  assert (Hw1 : w1 = (mkLC (ratelimit w0.1)
                           (set_tracker (manager w0.1) u up t1), st1)).
  { unfold w1. cbn [step]. rewrite Hup, Hcall. reflexivity. }
  assert (Hpend : pending u ctx (addr res) c h w1.2).
  { rewrite Hw1. cbn [snd]. unfold pending. rewrite Hst1, Hceq.
    cbn [afterFuncs]. apply lookup_insert_eq. }
  assert (Hk1 : kept u ctx (addr res) c h [] w1).
  { split; [|split; [|split]].
    - rewrite Hw1. unfold named, set_tracker. cbn [fst manager Upstreams].
      intros k up'. rewrite lookup_insert_Some.
      intros [[<- <-]|[_ Hup']]; [exact Hname | exact (Hnamed _ _ Hup')].
    - rewrite Hw1. unfold set_tracker. cbn [fst manager Upstreams].
      rewrite lookup_insert_eq. eauto.
    - rewrite Hw1. cbn [snd]. rewrite Hst1. cbn [next]. unfold h. lia.
    - left. exact Hpend. }
  (* the steps of the others and of the deferred cancel keep it *)
  pose proof (kept_run u ctx (addr res) c h E1 [] w1 Hk1 Hcan1) as Hk1'.
  assert (Hk2 : kept u ctx (addr res) c h
                  (([] ++ E1) ++ [Stops (afterBackendCancelled f)]) w2).
  { apply kept_step; [exact Hk1'|]. intros _. rewrite Hfeq.
    cbn [afterBackendCancelled]. unfold h. intros [= Heq]. lia. }
  pose proof (kept_run u ctx (addr res) c h E2 _ w2 Hk2 Hcan2) as Hk2'.
  assert (Hk3 : kept u ctx (addr res) c h
                  (((([] ++ E1) ++ [Stops (afterBackendCancelled f)]) ++ E2)
                   ++ [Cancels c context_Canceled]) w3).
  { apply kept_step; [exact Hk2'|]. intros _. discriminate. }
  pose proof (kept_run u ctx (addr res) c h E3 _ w3 Hk3 Hcan3) as Hk.
  fold w in Hk.
  assert (Hdone : Done w.2 c = true).
  { apply done_run. unfold w3. cbn [step snd]. apply CtxFacts.cancel_done. }
  split; [exact Hdone|].
  - exists h. split; [exact Hpend|]. split.
    + destruct Hk as (_ & _ & _ & [Hp|[Hnone Hran]]).
      * left. unfold runnable. rewrite Hp, Hdone. reflexivity.
      * right. split; [exact Hnone|].
        rewrite !elem_of_app in Hran. rewrite !elem_of_app.
        destruct Hran as [[[[[Hin|Hin]|Hin]|Hin]|Hin]|Hin].
        -- apply elem_of_nil in Hin. contradiction.
        -- left. exact Hin.
        -- apply list_elem_of_singleton in Hin. discriminate.
        -- right. left. exact Hin.
        -- apply list_elem_of_singleton in Hin. discriminate.
        -- right. right. exact Hin.
    + intros Hfresh Hsc.
      apply Forall_app in Hsc as [Hsc1 Hsc23].
      apply Forall_app in Hsc23 as [Hsc2 Hsc3].
      assert (Hj1 : counted_while_pending u ctx (addr res) c h w1).
      { intros up' b' s' Hup' Hs' Hin. revert Hup' Hs'. rewrite Hw1.
        unfold set_tracker. cbn [fst snd manager Upstreams].
        rewrite lookup_insert_eq. intros [= <-]. cbn [tracker].
        rewrite Ht1. cbn [healthyBackends set_healthyBackends].
        destruct (decide (b' = addr res)) as [->|Hne].
        - intros _. split; [reflexivity|]. rewrite Hw1 in Hpend.
          exact Hpend.
        - rewrite lookup_insert_ne by congruence. intros Hs'.
          exfalso. exact (Hfresh _ _ Hs' Hin). }
      pose proof (counted_run u ctx (addr res) c h E1 [] w1 Hk1 Hj1
                    Hcan1 Hsc1) as Hj1'.
      assert (Hj2 : counted_while_pending u ctx (addr res) c h w2).
      { apply (counted_step u ctx (addr res) c h ([] ++ E1));
          [exact Hk1' | exact Hj1' | | exact I].
        intros _. rewrite Hfeq. cbn [afterBackendCancelled]. unfold h.
        intros [= Heq]. lia. }
      pose proof (counted_run u ctx (addr res) c h E2 _ w2 Hk2 Hj2
                    Hcan2 Hsc2) as Hj2'.
      assert (Hj3 : counted_while_pending u ctx (addr res) c h w3).
      { apply (counted_step u ctx (addr res) c h
                 ((([] ++ E1) ++ [Stops (afterBackendCancelled f)]) ++ E2));
          [exact Hk2' | exact Hj2' | | exact I].
        intros _. discriminate. }
      pose proof (counted_run u ctx (addr res) c h E3 _ w3 Hk3 Hj3
                    Hcan3 Hsc3) as Hj.
      fold w in Hj.
      assert (Hjr : counted_while_pending u ctx (addr res) c h
                      (step (Runs h) w)).
      { eapply counted_step; [exact Hk | exact Hj | | exact I].
        intros _. discriminate. }
      pose proof (ran_unregistered u ctx (addr res) c h _ w Hk Hdone)
        as Hgone.
      intros up' Hup' b' s' Hs' Hin.
      destruct (Hjr up' b' s' Hup' Hs' Hin) as [_ Hp].
      unfold pending in Hp. rewrite Hgone in Hp. discriminate.
Qed.

(** [named] is kept by every step. *)
Lemma named_run (acts : list act) :
  forall w : world, named (manager w.1) -> named (manager (run acts w).1).
Proof.
  induction acts as [|x acts IH]; intros w Hn; [exact Hn|].
  cbn [run]. apply IH. intros k up' Hup'.
  destruct (proj2 (step_upstream 0%nat x w k) up' Hup')
    as (up & Hup & Hname & _).
  rewrite Hname. exact (Hn _ _ Hup).
Qed.

(** X24: a forwarded connection is released, whatever the other
    goroutines do.  A call of [Forward] passes the rate limiter and,
    later, [NextWithContext] picks a backend; later again its deferred
    cancel stops the backend subscription and then cancels the derived
    context.  Before, between and after these steps the other goroutines
    take any steps they can take: health events, other calls of
    [Forward], cancellations, closures.  With none of them, this is
    [Forward] as it returns what [fwd] returns.  In every case the
    derived context is done from the deferred cancel on, and the closure
    that removes the handle, registered by [NextWithContext], is then
    runnable, or it is gone because it has run: nothing stops it.  When
    the context of the caller was in no active set of the upstream and
    no other call for the upstream is given it, it is in no active set
    once the closure has run. *)
Theorem Forward_releases (l : LeastConnections) (st : store) (ctx : Context)
    (info : Srv.FwdInfo) (env : answers) (up : Upstream) (res : nextResult)
    (t1 : Tracker) (st1 : store) (c : Context) (f : CancelFunc)
    (E0 E1 E2 E3 : list act) :
  let u := Srv.FUpstream info in
  let w0 :=
    run E0 (step (Limits (Srv.RateLimiterKey info) (now env)) (l, st)) in
  let w1 := step (Picks u ctx (order env)) w0 in
  let w2 := step (Stops (afterBackendCancelled f)) (run E1 w1) in
  let w3 := step (Cancels c context_Canceled) (run E2 w2) in
  let w := run E3 w3 in
  named (manager l) ->
  (rateLimit (ratelimit l) (Srv.RateLimiterKey info) (now env)).1 = None ->
  Upstreams (manager w0.1) !! u = Some up ->
  NextWithContext (tracker up) w0.2 ctx (order env) = (Ret res, t1, st1) ->
  nctx res = Some c -> cancelFunc res = Some f ->
  can_run E1 w1 = true -> can_run E2 w2 = true -> can_run E3 w3 = true ->
  (E0 = [] -> E1 = [] -> E2 = [] -> E3 = [] ->
   Forward l st ctx info env
   = (Ret (fwd (dial env) (first env) (second env)), w.1, w.2)) /\
  Done w.2 c = true /\
  exists h : nat,
    pending u ctx (addr res) c h w1.2 /\
    (runnable w.2 h = Some (RemoveTrackedConn u ctx (addr res)) \/
     afterFuncs w.2 !! h = None /\ Runs h ∈ E1 ++ E2 ++ E3) /\
    (untracked (tracker up) ctx ->
     request_scoped u ctx (E1 ++ E2 ++ E3) ->
     uncounted u ctx (step (Runs h) w)).
Proof.
  intros u w0 w1 w2 w3 w Hnamed Hlim Hup Hcall Hc Hf Hcan1 Hcan2 Hcan3.
  assert (Hnamed0 : named (manager w0.1)).
  { unfold w0. apply named_run. exact Hnamed. }
  split.
  - intros HE0 -> -> ->. revert Hup Hcall. unfold w, w3, w2, w1, w0.
    rewrite HE0. cbn [run step fst snd manager]. intros Hup Hcall.
    rewrite (Forward_alone l st ctx info env up res t1 st1 c f
               Hlim Hup Hcall Hc Hf).
    cbn [run step fst snd manager]. reflexivity.
  - exact (picked_connection_released w0 u ctx (order env) up res t1 st1 c f
             E1 E2 E3 Hnamed0 Hup Hcall Hc Hf Hcan1 Hcan2 Hcan3).
Qed.

Lemma Forward_releases_witness :
  exists h : nat,
    uncounted (Srv.FUpstream bob_to_web) 1%nat
      (step (Runs h)
         (run [Receives (Heartbeat.mkEvent "web" "127.0.0.1:8000"
                                           HEALTHY None);
               Closes; StopsAll "web"]
            (step (Cancels 3%nat context_Canceled)
               (run [Derives 1%nat]
                  (step (Stops (afterBackendCancelled
                                  (mkCancelFunc 4%nat 3%nat)))
                     (run [Receives
                             (Heartbeat.mkEvent "web" "127.0.0.1:8000"
                                UNHEALTHY None);
                           Runs 4%nat; Runs 5%nat]
                        (step (Picks (Srv.FUpstream bob_to_web) 1%nat
                                     (order quiet))
                           (run [Limits "wendy" 1]
                              (step (Limits (Srv.RateLimiterKey bob_to_web)
                                            (now quiet))
                                 (web_balancer.1, web_balancer.2)))))))))).
Proof.
  pose (up := default (NewUpstream "web")
                      (Upstreams (manager web_balancer.1) !! "web")).
  assert (Hnamed : named (manager web_balancer.1)).
  { intros k up0 Hup0.
    assert (Hall : map_Forall (fun k up1 => UpstreamName (tracker up1) = k)
                     (Upstreams (manager web_balancer.1))).
    { apply map_Forall_to_list.
      assert (Hl : map_to_list (Upstreams (manager web_balancer.1))
                   = [("web"%string, up)])
        by (vm_compute; reflexivity).
      rewrite Hl. constructor; [|constructor]. vm_compute. reflexivity. }
    exact (Hall k up0 Hup0). }
  assert (Hlim :
    (rateLimit (ratelimit web_balancer.1) (Srv.RateLimiterKey bob_to_web)
               (now quiet)).1 = None) by (vm_compute; reflexivity).
  assert (Hup :
    Upstreams
      (manager
         (run [Limits "wendy" 1]
            (step (Limits (Srv.RateLimiterKey bob_to_web) (now quiet))
                  (web_balancer.1, web_balancer.2))).1)
    !! Srv.FUpstream bob_to_web = Some up)
    by (vm_compute; reflexivity).
  assert (Hcall :
    NextWithContext (tracker up)
      (run [Limits "wendy" 1]
         (step (Limits (Srv.RateLimiterKey bob_to_web) (now quiet))
               (web_balancer.1, web_balancer.2))).2
      1%nat (order quiet)
    = (Ret (mkNext "127.0.0.1:8000" (Some 3%nat)
                   (Some (mkCancelFunc 4%nat 3%nat)) None),
       (NextWithContext (tracker up) web_balancer.2 1%nat
                        (order quiet)).1.2,
       (NextWithContext (tracker up) web_balancer.2 1%nat
                        (order quiet)).2))
    by (vm_compute; reflexivity).
  assert (Hfresh : untracked (tracker up) 1%nat).
  { intros a s Hs.
    assert (Hall : map_Forall (fun _ s' => 1%nat ∉ (s' : activeConns))
                     (healthyBackends (tracker up))).
    { apply map_Forall_to_list.
      assert (Hl : map_to_list (healthyBackends (tracker up))
                   = [("127.0.0.1:8000"%string, ∅)])
        by (vm_compute; reflexivity).
      rewrite Hl. constructor; [|constructor].
      cbn. apply not_elem_of_empty. }
    exact (Hall a s Hs). }
  destruct (Forward_releases web_balancer.1 web_balancer.2 1%nat
              bob_to_web quiet up _ _ _ 3%nat (mkCancelFunc 4%nat 3%nat)
              [Limits "wendy" 1]
              [Receives (Heartbeat.mkEvent "web" "127.0.0.1:8000"
                                           UNHEALTHY None);
               Runs 4%nat; Runs 5%nat]
              [Derives 1%nat]
              [Receives (Heartbeat.mkEvent "web" "127.0.0.1:8000"
                                           HEALTHY None);
               Closes; StopsAll "web"]
              Hnamed Hlim Hup Hcall eq_refl eq_refl
              ltac:(vm_compute; reflexivity) ltac:(vm_compute; reflexivity)
              ltac:(vm_compute; reflexivity))
    as (_ & _ & h & _ & _ & Hrel).
  exists h. apply Hrel; [exact Hfresh|].
  unfold request_scoped. cbn [app].
  repeat (constructor; [exact I|]). constructor.
Defined.

End ScheduleFacts.
(* ===================================================================== *)
(** * The server made from a configuration *)
(* ===================================================================== *)
Module ServerFacts.
Import Errors Policy Srv Balancer Server.





End ServerFacts.
